(** * ice_engine: scene simulation and rendering core

    A shallow embedding of the frame loop of the editor canvas
    ([GameCanvas]: [update], [draw], [loop], [handlePointerDown]), of the
    exported bundle's [loop], and of the prefab handlers of [App].

    Numbers.  A JavaScript [number] is modelled as a rational ([Q]).  The
    number format rounds the result of every operation; the host's [fl] is
    that rounding, and the model applies it to the sums and differences of
    the physics accumulator and of an animation's cursor, whose rounded
    values decide how often the physics loop runs and when an animation
    ends or wraps.  Elsewhere the result of an operation is used as
    computed.  [round64] is the rounding of the binary64 format,
    [fun q => q] that of exact arithmetic.  [NaN] and the infinities are outside the model; where
    the source could produce them (a zero divisor) the theorems carry the
    hypothesis that excludes it. *)

From Stdlib Require Import QArith Qround ZArith List String Ascii Bool Lia Lqa.
From Stdlib Require Import DecimalString Floats.
Import ListNotations.

Local Open Scope Q_scope.
Local Open Scope string_scope.

Set Warnings "-register-all".

(** ** JavaScript arithmetic on numbers *)

Module Js.

Definition lt (a b : Q) : bool := negb (Qle_bool b a).
Definition le (a b : Q) : bool := Qle_bool a b.
Definition gt (a b : Q) : bool := lt b a.
Definition ge (a b : Q) : bool := le b a.

(** [Math.floor], [Math.min]. *)
Definition Math_floor (a : Q) : Q := inject_Z (Qfloor a).
Definition Math_min (a b : Q) : Q := if lt b a then b else a.

(** Truncation toward zero, and [a % b] (the sign follows the dividend). *)
Definition trunc (a : Q) : Z := if lt a 0 then Qceiling a else Qfloor a.
Definition rem (a b : Q) : Q := a - b * inject_Z (trunc (a / b)).

(** A number is falsy exactly when it is zero ([NaN] is not modelled). *)
Definition truthy (a : Q) : bool := negb (Qeq_bool a 0).

(** [a || d] on numbers. *)
Definition or_default (a d : Q) : Q := if truthy a then a else d.

End Js.

(** ** Rounding to the binary64 format

    [round64 q] is the binary64 number nearest to [q], the one with the
    even significand when two are equally near: 53 bits, the last place no
    lower than [2^-1074].  Overflow to an infinity is not modelled. *)

(** [num / den] rounded to the nearest integer, ties to the even one. *)
Definition div_nearest_even (num den : Z) : Z :=
  let q := (num / den)%Z in
  let r := (num mod den)%Z in
  match (2 * r ?= den)%Z with
  | Lt => q
  | Gt => (q + 1)%Z
  | Eq => if Z.even q then q else (q + 1)%Z
  end.

(** [a * 2^k / d] as a fraction of integers. *)
Definition scaled (a d k : Z) : Z * Z :=
  if (0 <=? k)%Z then (a * 2 ^ k, d)%Z else (a, d * 2 ^ (- k))%Z.

Definition round64 (q : Q) : Q :=
  let n := Qnum q in
  let d := Zpos (Qden q) in
  if (n =? 0)%Z then 0
  else
    let a := Z.abs n in
    let e0 := (Z.log2 a - Z.log2 d)%Z in
    let '(n0, d0) := scaled a d (- e0) in
    let e := if (n0 <? d0)%Z then (e0 - 1)%Z else e0 in
    let u := Z.max (e - 52) (-1074) in
    let '(n1, d1) := scaled a d (- u) in
    let m := (Z.sgn n * div_nearest_even n1 d1)%Z in
    Qred (if (0 <=? u)%Z then inject_Z (m * 2 ^ u)
          else Qmake m (Z.to_pos (2 ^ (- u)))).

(** The rational a finite machine float stands for. *)
Definition Q_of_float (f : float) : option Q :=
  match Prim2SF f with
  | S754_zero _ => Some 0
  | S754_finite s m e =>
      let v := if (0 <=? e)%Z then inject_Z (Zpos m * 2 ^ e)
               else Qmake (Zpos m) (Z.to_pos (2 ^ (- e))) in
      Some (Qred (if s then - v else v))
  | _ => None
  end.

(** ** Data model ([types.ts]) *)

Record Vector2 := mkVector2 { x : Q; y : Q }.

Inductive EntityType := rect | circle | sprite | button | tilemap_t | particles_t.

Inductive AnchorType :=
| top_left | top_center | top_right
| center_left | center | center_right
| bottom_left | bottom_center | bottom_right.

Record TransformComponent := mkTransform {
  position : Vector2;
  rotation : Q;
  scale : Vector2;
  isUI : option bool;
  anchor : option AnchorType
}.

Record PhysicsComponent := mkPhysics {
  velocity : Vector2;
  isStatic : bool;
  gravityScale : Q
}.

Record SpriteAnimation := mkSpriteAnimation {
  sa_name : string;
  frames : list Q;
  fps : Q
}.

Record RendererComponent := mkRenderer {
  r_type : EntityType;
  color : string;
  width : Q;
  height : Q;
  spriteUrl : option string;
  text : option string;
  fontSize : option Q;
  cols : option Q;
  rows : option Q;
  animations : option (list SpriteAnimation);
  currentAnimation : option string;
  currentFrame : option Q;
  parallaxFactor : option Q
}.

Inductive ScriptType := script_none | script_custom.

Record ScriptComponent := mkScript {
  s_type : ScriptType;
  s_name : option string;
  content : option string
}.

Record ParticleEmitterComponent := mkEmitter {
  emitting : bool;
  maxParticles : Q;
  emissionRate : Q;
  lifetime : Q;
  lifetimeRange : Q;
  speed : Q;
  speedRange : Q;
  angle : Q;
  spread : Q;
  colorStart : string;
  colorEnd : string;
  sizeStart : Q;
  sizeEnd : Q
}.

Record TilemapLayer := mkLayer {
  l_name : string;
  data : list Q
}.

Record TilemapComponent := mkTilemap {
  tileSize : Q;
  columns : Q;
  t_rows : Q;
  layers : list TilemapLayer;
  tilesetUrl : option string
}.

Record Keyframe := mkKeyframe {
  time : Q;
  value : Q
}.

Record PropertyAnimation := mkAnim {
  a_name : string;
  property : string;
  keyframes : list Keyframe;
  loop : bool;
  playing : bool;
  currentTime : Q
}.

Record Entity := mkEntity {
  id : string;
  name : string;
  transform : TransformComponent;
  physics : option PhysicsComponent;
  renderer : RendererComponent;
  script : option ScriptComponent;
  particles : option ParticleEmitterComponent;
  tilemap : option TilemapComponent;
  propertyAnimations : option (list PropertyAnimation);
  prefabId : option string
}.

Record CameraSettings := mkCamera {
  c_position : Vector2;
  zoom : Q;
  targetId : option string;
  lerpSpeed : Q
}.

Record PhysicsSettings := mkPhysicsSettings {
  fixedTimestep : Q
}.

Record Scene := mkScene {
  entities : list Entity;
  backgroundColor : string;
  camera : option CameraSettings;
  s_physics : option PhysicsSettings
}.

(** ** External collaborators

    What the core consumes and does not define: the rigid-body engine, the
    floating-point library functions, the random source and the meaning of
    a script text.  [body_of engine id] is [matterBodiesRef.current[id]] as
    the engine last left it; [Math_random n] is the value of the [n]-th call
    of [Math.random()]; [run_script src entity input dt] is the entity as the
    script body left it, with what it threw if it threw (a text that does
    not compile throws from [new Function], inside the same [try]).  A
    script is taken to act on the entity it is given and on nothing else
    the frame loop reads.  [fl] is the rounding of the number format.

    What is thrown: [TypeError msg] and [ScriptError msg] are [Error]
    objects with that message; [CyclicObject] is a thrown object that has
    itself among its properties ([const o = {}; o.self = o; throw o]). *)

Inductive JsError :=
| TypeError (msg : string)
| ScriptError (msg : string)
| CyclicObject.

Record InputSnapshot := mkInput { i_x : Q; i_y : Q; action : bool }.

Record Body := mkBody { b_position : Vector2; b_angle : Q }.

Class Host := {
  fl : Q -> Q;
  Engine : Type;
  Engine_update : Engine -> Q -> Engine;
  body_of : Engine -> string -> option Body;
  Math_PI : Q;
  Math_cos : Q -> Q;
  Math_sin : Q -> Q;
  Math_sqrt : Q -> Q;
  Math_random : nat -> Q;
  run_script : string -> Entity -> InputSnapshot -> Q -> Entity * option JsError
}.

(** ** Record updates *)

Definition set_position (p : Vector2) (t : TransformComponent) : TransformComponent :=
  mkTransform p (rotation t) (scale t) (isUI t) (anchor t).

Definition set_rotation (r : Q) (t : TransformComponent) : TransformComponent :=
  mkTransform (position t) r (scale t) (isUI t) (anchor t).

Definition set_scale (s : Vector2) (t : TransformComponent) : TransformComponent :=
  mkTransform (position t) (rotation t) s (isUI t) (anchor t).

Definition set_transform (t : TransformComponent) (e : Entity) : Entity :=
  mkEntity (id e) (name e) t (physics e) (renderer e) (script e) (particles e)
           (tilemap e) (propertyAnimations e) (prefabId e).

Definition set_physics (p : option PhysicsComponent) (e : Entity) : Entity :=
  mkEntity (id e) (name e) (transform e) p (renderer e) (script e) (particles e)
           (tilemap e) (propertyAnimations e) (prefabId e).

Definition set_renderer (r : RendererComponent) (e : Entity) : Entity :=
  mkEntity (id e) (name e) (transform e) (physics e) r (script e) (particles e)
           (tilemap e) (propertyAnimations e) (prefabId e).

Definition set_particles (p : option ParticleEmitterComponent) (e : Entity) : Entity :=
  mkEntity (id e) (name e) (transform e) (physics e) (renderer e) (script e) p
           (tilemap e) (propertyAnimations e) (prefabId e).

Definition set_tilemap (t : option TilemapComponent) (e : Entity) : Entity :=
  mkEntity (id e) (name e) (transform e) (physics e) (renderer e) (script e)
           (particles e) t (propertyAnimations e) (prefabId e).

Definition set_propertyAnimations (a : option (list PropertyAnimation)) (e : Entity) : Entity :=
  mkEntity (id e) (name e) (transform e) (physics e) (renderer e) (script e)
           (particles e) (tilemap e) a (prefabId e).

(** ** Physics accumulator ([update], [loop]) *)

Section Simulation.

Context {host : Host}.

(** [scene.physics?.fixedTimestep || 1/60] *)
Definition fixedTimestep_of (scene : Scene) : Q :=
  match s_physics scene with
  | Some p => Js.or_default (fixedTimestep p) (fl (1 # 60))
  | None => fl (1 # 60)
  end.

(** One engine update when [matterEngineRef.current] is not null. *)
Definition engine_step (ms : Q) (engine : option Engine) : option Engine :=
  option_map (fun en => Engine_update en ms) engine.

(** The [while (accumulator >= fixedTimestep)] loop; the last component
    counts its iterations.  [None] when the fuel runs out. *)
Fixpoint physics_loop (fuel : nat) (fts acc : Q) (engine : option Engine)
         (n : nat) : option (Q * option Engine * nat) :=
  if Js.ge acc fts then
    match fuel with
    | O => None
    | S fuel' =>
        physics_loop fuel' fts (fl (acc - fts))
                     (engine_step (fl (fts * 1000)) engine) (S n)
    end
  else Some (acc, engine, n).

(** The accumulator after [k] rounds of [accumulator -= fixedTimestep]. *)
Fixpoint reduced (k : nat) (fts acc : Q) : Q :=
  match k with
  | O => acc
  | S k' => reduced k' fts (fl (acc - fts))
  end.

(** [n] successive engine updates of [ms] milliseconds each. *)
Fixpoint advance (n : nat) (ms : Q) (engine : option Engine) : option Engine :=
  match n with
  | O => engine
  | S n' => advance n' ms (engine_step ms engine)
  end.

(** ** Particles *)

Record Particle := mkParticle {
  p_x : Q; p_y : Q; vx : Q; vy : Q; life : Q; maxLife : Q
}.

(** The backward loop over the pool: [p.life -= dt], then either
    [pool.splice(i, 1)] or the move by [velocity * dt].  Survivors keep
    their order. *)
Fixpoint age_pool (dt : Q) (pool : list Particle) : list Particle :=
  match pool with
  | [] => []
  | p :: rest =>
      let rest' := age_pool dt rest in
      let l := life p - dt in
      if Js.le l 0 then rest'
      else mkParticle (p_x p + vx p * dt) (p_y p + vy p * dt) (vx p) (vy p) l (maxLife p)
           :: rest'
  end.

(** The particle pushed by one iteration of the emission loop; it draws
    three random numbers, the [r]-th, [r+1]-th and [r+2]-th. *)
Definition spawn (e : Entity) (cfg : ParticleEmitterComponent) (r : nat) : Particle :=
  let a := (angle cfg + (Math_random r - (1 # 2)) * spread cfg) * Math_PI / 180 in
  let sp := speed cfg + (Math_random (r + 1) - (1 # 2)) * speedRange cfg in
  let l := lifetime cfg + (Math_random (r + 2) - (1 # 2)) * lifetimeRange cfg in
  mkParticle (x (position (transform e))) (y (position (transform e)))
             (Math_cos a * sp) (Math_sin a * sp) l l.

Definition pool_length (pool : list Particle) : Q :=
  inject_Z (Z.of_nat (List.length pool)).

(** [while (emitCount > 0 && pool.length < maxParticles) { push; emitCount-- }].
    [emitCount] is an integer, so the loop runs at most [emitCount] times and
    recursion on that count is the loop. *)
Fixpoint emit_loop (emitCount : nat) (e : Entity) (cfg : ParticleEmitterComponent)
         (pool : list Particle) (r : nat) : list Particle * nat :=
  match emitCount with
  | O => (pool, r)
  | S k =>
      if Js.lt (pool_length pool) (maxParticles cfg)
      then emit_loop k e cfg (pool ++ [spawn e cfg r]) (r + 3)
      else (pool, r)
  end.

(** [whole + (Math.random() < frac ? 1 : 0)] *)
Definition emit_count (cfg : ParticleEmitterComponent) (dt : Q) (r : nat) : Z :=
  let toEmit := emissionRate cfg * dt in
  let whole := Qfloor toEmit in
  let frac := toEmit - inject_Z whole in
  (whole + (if Js.lt (Math_random r) frac then 1 else 0))%Z.

(** One simulation step of an emitter's pool. *)
Definition update_particles (e : Entity) (cfg : ParticleEmitterComponent) (dt : Q)
           (pool : list Particle) (r : nat) : list Particle * nat :=
  let aged := age_pool dt pool in
  if emitting cfg
  then emit_loop (Z.to_nat (emit_count cfg dt r)) e cfg aged (S r)
  else (aged, r).

(** [particlesRef.current]: the pools, keyed by entity id. *)
Definition PoolMap := list (string * list Particle).

Fixpoint pool_get (m : PoolMap) (k : string) : option (list Particle) :=
  match m with
  | [] => None
  | (k', v) :: rest => if String.eqb k k' then Some v else pool_get rest k
  end.

Fixpoint pool_set (m : PoolMap) (k : string) (v : list Particle) : PoolMap :=
  match m with
  | [] => [(k, v)]
  | (k', v') :: rest =>
      if String.eqb k k' then (k, v) :: rest else (k', v') :: pool_set rest k v
  end.

(** ** The entity as a JavaScript object

    The animation pass reaches its target by property names taken from a
    string, so it sees the entity as the object it is at run time.
    [reflect_entity] is that view: every declared property under its
    name, an absent optional property as [undefined].  Properties
    inherited from the prototypes ([constructor], [toString], ...) are not
    modelled. *)

Inductive JsVal :=
| VUndefined
| VNull
| VBool (b : bool)
| VNum (q : Q)
| VStr (s : string)
| VObj (fields : list (string * JsVal))
| VArr (items : list JsVal).

Inductive result (A : Type) :=
| Ok (a : A)
| Throw (err : JsError).

#[global] Arguments Ok {A} a.
#[global] Arguments Throw {A} err.

Definition index_key (n : nat) : string := NilZero.string_of_uint (Nat.to_uint n).

Fixpoint obj_get (fields : list (string * JsVal)) (key : string) : JsVal :=
  match fields with
  | [] => VUndefined
  | (k, v) :: rest => if String.eqb key k then v else obj_get rest key
  end.

Fixpoint arr_get (items : list JsVal) (i : nat) (key : string) : JsVal :=
  match items with
  | [] => VUndefined
  | v :: rest => if String.eqb key (index_key i) then v else arr_get rest (S i) key
  end.

Fixpoint str_get (s : string) (i : nat) (key : string) : JsVal :=
  match s with
  | EmptyString => VUndefined
  | String c rest =>
      if String.eqb key (index_key i) then VStr (String c EmptyString)
      else str_get rest (S i) key
  end.

Definition num_of_nat (n : nat) : Q := inject_Z (Z.of_nat n).

(** [target[key]] as a read. *)
Definition get_prop (target : JsVal) (key : string) : result JsVal :=
  match target with
  | VUndefined => Throw (TypeError "Cannot read properties of undefined")
  | VNull => Throw (TypeError "Cannot read properties of null")
  | VBool _ => Ok VUndefined
  | VNum _ => Ok VUndefined
  | VStr s =>
      Ok (if String.eqb key "length" then VNum (num_of_nat (String.length s))
          else str_get s 0 key)
  | VObj fields => Ok (obj_get fields key)
  | VArr items =>
      Ok (if String.eqb key "length" then VNum (num_of_nat (List.length items))
          else arr_get items 0 key)
  end.

(** [if (target)] *)
Definition js_truthy (v : JsVal) : bool :=
  match v with
  | VUndefined => false
  | VNull => false
  | VBool b => b
  | VNum q => Js.truthy q
  | VStr s => negb (String.eqb s "")
  | VObj _ => true
  | VArr _ => true
  end.

Definition opt_val {A : Type} (f : A -> JsVal) (o : option A) : JsVal :=
  match o with
  | Some a => f a
  | None => VUndefined
  end.

Definition reflect_vector (v : Vector2) : JsVal :=
  VObj [("x", VNum (x v)); ("y", VNum (y v))].

Definition anchor_name (a : AnchorType) : string :=
  match a with
  | top_left => "top-left"
  | top_center => "top-center"
  | top_right => "top-right"
  | center_left => "center-left"
  | center => "center"
  | center_right => "center-right"
  | bottom_left => "bottom-left"
  | bottom_center => "bottom-center"
  | bottom_right => "bottom-right"
  end.

Definition type_name (t : EntityType) : string :=
  match t with
  | rect => "rect"
  | circle => "circle"
  | sprite => "sprite"
  | button => "button"
  | tilemap_t => "tilemap"
  | particles_t => "particles"
  end.

Definition reflect_transform (t : TransformComponent) : JsVal :=
  VObj [("position", reflect_vector (position t));
        ("rotation", VNum (rotation t));
        ("scale", reflect_vector (scale t));
        ("isUI", opt_val VBool (isUI t));
        ("anchor", opt_val (fun a => VStr (anchor_name a)) (anchor t))].

Definition reflect_physics (p : PhysicsComponent) : JsVal :=
  VObj [("velocity", reflect_vector (velocity p));
        ("isStatic", VBool (isStatic p));
        ("gravityScale", VNum (gravityScale p))].

Definition reflect_sprite_animation (a : SpriteAnimation) : JsVal :=
  VObj [("name", VStr (sa_name a));
        ("frames", VArr (map VNum (frames a)));
        ("fps", VNum (fps a))].

Definition reflect_renderer (r : RendererComponent) : JsVal :=
  VObj [("type", VStr (type_name (r_type r)));
        ("color", VStr (color r));
        ("width", VNum (width r));
        ("height", VNum (height r));
        ("spriteUrl", opt_val VStr (spriteUrl r));
        ("text", opt_val VStr (text r));
        ("fontSize", opt_val VNum (fontSize r));
        ("cols", opt_val VNum (cols r));
        ("rows", opt_val VNum (rows r));
        ("animations",
         opt_val (fun l => VArr (map reflect_sprite_animation l)) (animations r));
        ("currentAnimation", opt_val VStr (currentAnimation r));
        ("currentFrame", opt_val VNum (currentFrame r));
        ("parallaxFactor", opt_val VNum (parallaxFactor r))].

Definition reflect_script (s : ScriptComponent) : JsVal :=
  VObj [("type", VStr (match s_type s with
                       | script_none => "none"
                       | script_custom => "custom"
                       end));
        ("name", opt_val VStr (s_name s));
        ("content", opt_val VStr (content s))].

Definition reflect_particles (p : ParticleEmitterComponent) : JsVal :=
  VObj [("emitting", VBool (emitting p));
        ("maxParticles", VNum (maxParticles p));
        ("emissionRate", VNum (emissionRate p));
        ("lifetime", VNum (lifetime p));
        ("lifetimeRange", VNum (lifetimeRange p));
        ("speed", VNum (speed p));
        ("speedRange", VNum (speedRange p));
        ("angle", VNum (angle p));
        ("spread", VNum (spread p));
        ("colorStart", VStr (colorStart p));
        ("colorEnd", VStr (colorEnd p));
        ("sizeStart", VNum (sizeStart p));
        ("sizeEnd", VNum (sizeEnd p))].

Definition reflect_layer (l : TilemapLayer) : JsVal :=
  VObj [("name", VStr (l_name l)); ("data", VArr (map VNum (data l)))].

Definition reflect_tilemap (t : TilemapComponent) : JsVal :=
  VObj [("tileSize", VNum (tileSize t));
        ("columns", VNum (columns t));
        ("rows", VNum (t_rows t));
        ("layers", VArr (map reflect_layer (layers t)));
        ("tilesetUrl", opt_val VStr (tilesetUrl t))].

Definition reflect_keyframe (k : Keyframe) : JsVal :=
  VObj [("time", VNum (time k)); ("value", VNum (value k))].

Definition reflect_animation (a : PropertyAnimation) : JsVal :=
  VObj [("name", VStr (a_name a));
        ("property", VStr (property a));
        ("keyframes", VArr (map reflect_keyframe (keyframes a)));
        ("loop", VBool (loop a));
        ("playing", VBool (playing a));
        ("currentTime", VNum (currentTime a))].

Definition reflect_entity (e : Entity) : JsVal :=
  VObj [("id", VStr (id e));
        ("name", VStr (name e));
        ("transform", reflect_transform (transform e));
        ("physics", opt_val reflect_physics (physics e));
        ("renderer", reflect_renderer (renderer e));
        ("script", opt_val reflect_script (script e));
        ("particles", opt_val reflect_particles (particles e));
        ("tilemap", opt_val reflect_tilemap (tilemap e));
        ("propertyAnimations",
         opt_val (fun l => VArr (map reflect_animation l)) (propertyAnimations e));
        ("prefabId", opt_val VStr (prefabId e))].

(** [anim.property.split('.')]; [cur] is the segment being read. *)
Fixpoint split_dots (s : string) (cur : string) : list string :=
  match s with
  | EmptyString => [cur]
  | String c rest =>
      if Ascii.eqb c "."%char then cur :: split_dots rest EmptyString
      else split_dots rest (cur ++ String c EmptyString)
  end.

(** [for (i = 0; i < parts.length - 1; i++) target = target[parts[i]]] *)
Fixpoint walk (target : JsVal) (parts : list string) : result JsVal :=
  match parts with
  | [] => Ok target
  | k :: rest =>
      match get_prop target k with
      | Ok t => walk t rest
      | Throw err => Throw err
      end
  end.

(** ** Assignment through a property path

    [target[parts[parts.length - 1]] = value] changes the typed entity when
    the path names one of its numeric properties; [numeric_fields] lists
    them with the update each one stands for.  An assignment that would
    add a property the data model does not declare, or put a number where
    the data model has another type, has no counterpart in [Entity]; the
    model reports it as [Unmodelled] instead of guessing. *)

Definition on_physics (f : PhysicsComponent -> PhysicsComponent) (e : Entity) : Entity :=
  set_physics (option_map f (physics e)) e.

Definition on_particles (f : ParticleEmitterComponent -> ParticleEmitterComponent)
           (e : Entity) : Entity :=
  set_particles (option_map f (particles e)) e.

Definition on_tilemap (f : TilemapComponent -> TilemapComponent) (e : Entity) : Entity :=
  set_tilemap (option_map f (tilemap e)) e.

Definition on_transform (f : TransformComponent -> TransformComponent) (e : Entity) : Entity :=
  set_transform (f (transform e)) e.

Definition on_renderer (f : RendererComponent -> RendererComponent) (e : Entity) : Entity :=
  set_renderer (f (renderer e)) e.

Definition numeric_fields : list (list string * (Q -> Entity -> Entity)) :=
  [(["transform"; "position"; "x"],
    fun v => on_transform (fun t => set_position (mkVector2 v (y (position t))) t));
   (["transform"; "position"; "y"],
    fun v => on_transform (fun t => set_position (mkVector2 (x (position t)) v) t));
   (["transform"; "rotation"],
    fun v => on_transform (set_rotation v));
   (["transform"; "scale"; "x"],
    fun v => on_transform (fun t => set_scale (mkVector2 v (y (scale t))) t));
   (["transform"; "scale"; "y"],
    fun v => on_transform (fun t => set_scale (mkVector2 (x (scale t)) v) t));
   (["physics"; "velocity"; "x"],
    fun v => on_physics (fun p => mkPhysics (mkVector2 v (y (velocity p))) (isStatic p)
        (gravityScale p)));
   (["physics"; "velocity"; "y"],
    fun v => on_physics (fun p => mkPhysics (mkVector2 (x (velocity p)) v) (isStatic p)
        (gravityScale p)));
   (["physics"; "gravityScale"],
    fun v => on_physics (fun p => mkPhysics (velocity p) (isStatic p) v));
   (["renderer"; "width"],
    fun v => on_renderer (fun r => mkRenderer (r_type r) (color r) v (height r)
        (spriteUrl r) (text r) (fontSize r) (cols r) (rows r) (animations r)
        (currentAnimation r) (currentFrame r) (parallaxFactor r)));
   (["renderer"; "height"],
    fun v => on_renderer (fun r => mkRenderer (r_type r) (color r) (width r) v
        (spriteUrl r) (text r) (fontSize r) (cols r) (rows r) (animations r)
        (currentAnimation r) (currentFrame r) (parallaxFactor r)));
   (["renderer"; "fontSize"],
    fun v => on_renderer (fun r => mkRenderer (r_type r) (color r) (width r) (height r)
        (spriteUrl r) (text r) (Some v) (cols r) (rows r) (animations r)
        (currentAnimation r) (currentFrame r) (parallaxFactor r)));
   (["renderer"; "cols"],
    fun v => on_renderer (fun r => mkRenderer (r_type r) (color r) (width r) (height r)
        (spriteUrl r) (text r) (fontSize r) (Some v) (rows r) (animations r)
        (currentAnimation r) (currentFrame r) (parallaxFactor r)));
   (["renderer"; "rows"],
    fun v => on_renderer (fun r => mkRenderer (r_type r) (color r) (width r) (height r)
        (spriteUrl r) (text r) (fontSize r) (cols r) (Some v) (animations r)
        (currentAnimation r) (currentFrame r) (parallaxFactor r)));
   (["renderer"; "currentFrame"],
    fun v => on_renderer (fun r => mkRenderer (r_type r) (color r) (width r) (height r)
        (spriteUrl r) (text r) (fontSize r) (cols r) (rows r) (animations r)
        (currentAnimation r) (Some v) (parallaxFactor r)));
   (["renderer"; "parallaxFactor"],
    fun v => on_renderer (fun r => mkRenderer (r_type r) (color r) (width r) (height r)
        (spriteUrl r) (text r) (fontSize r) (cols r) (rows r) (animations r)
        (currentAnimation r) (currentFrame r) (Some v)));
   (["particles"; "maxParticles"],
    fun v => on_particles (fun p => mkEmitter (emitting p) v (emissionRate p) (lifetime
        p) (lifetimeRange p) (speed p) (speedRange p) (angle p) (spread p) (colorStart
        p) (colorEnd p) (sizeStart p) (sizeEnd p)));
   (["particles"; "emissionRate"],
    fun v => on_particles (fun p => mkEmitter (emitting p) (maxParticles p) v (lifetime
        p) (lifetimeRange p) (speed p) (speedRange p) (angle p) (spread p) (colorStart
        p) (colorEnd p) (sizeStart p) (sizeEnd p)));
   (["particles"; "lifetime"],
    fun v => on_particles (fun p => mkEmitter (emitting p) (maxParticles p)
        (emissionRate p) v (lifetimeRange p) (speed p) (speedRange p) (angle p) (spread
        p) (colorStart p) (colorEnd p) (sizeStart p) (sizeEnd p)));
   (["particles"; "lifetimeRange"],
    fun v => on_particles (fun p => mkEmitter (emitting p) (maxParticles p)
        (emissionRate p) (lifetime p) v (speed p) (speedRange p) (angle p) (spread p)
        (colorStart p) (colorEnd p) (sizeStart p) (sizeEnd p)));
   (["particles"; "speed"],
    fun v => on_particles (fun p => mkEmitter (emitting p) (maxParticles p)
        (emissionRate p) (lifetime p) (lifetimeRange p) v (speedRange p) (angle p)
        (spread p) (colorStart p) (colorEnd p) (sizeStart p) (sizeEnd p)));
   (["particles"; "speedRange"],
    fun v => on_particles (fun p => mkEmitter (emitting p) (maxParticles p)
        (emissionRate p) (lifetime p) (lifetimeRange p) (speed p) v (angle p) (spread p)
        (colorStart p) (colorEnd p) (sizeStart p) (sizeEnd p)));
   (["particles"; "angle"],
    fun v => on_particles (fun p => mkEmitter (emitting p) (maxParticles p)
        (emissionRate p) (lifetime p) (lifetimeRange p) (speed p) (speedRange p) v
        (spread p) (colorStart p) (colorEnd p) (sizeStart p) (sizeEnd p)));
   (["particles"; "spread"],
    fun v => on_particles (fun p => mkEmitter (emitting p) (maxParticles p)
        (emissionRate p) (lifetime p) (lifetimeRange p) (speed p) (speedRange p) (angle
        p) v (colorStart p) (colorEnd p) (sizeStart p) (sizeEnd p)));
   (["particles"; "sizeStart"],
    fun v => on_particles (fun p => mkEmitter (emitting p) (maxParticles p)
        (emissionRate p) (lifetime p) (lifetimeRange p) (speed p) (speedRange p) (angle
        p) (spread p) (colorStart p) (colorEnd p) v (sizeEnd p)));
   (["particles"; "sizeEnd"],
    fun v => on_particles (fun p => mkEmitter (emitting p) (maxParticles p)
        (emissionRate p) (lifetime p) (lifetimeRange p) (speed p) (speedRange p) (angle
        p) (spread p) (colorStart p) (colorEnd p) (sizeStart p) v));
   (["tilemap"; "tileSize"],
    fun v => on_tilemap (fun t => mkTilemap v (columns t) (t_rows t) (layers t)
        (tilesetUrl t)));
   (["tilemap"; "columns"],
    fun v => on_tilemap (fun t => mkTilemap (tileSize t) v (t_rows t) (layers t)
        (tilesetUrl t)));
   (["tilemap"; "rows"],
    fun v => on_tilemap (fun t => mkTilemap (tileSize t) (columns t) v (layers t)
        (tilesetUrl t)))].


Fixpoint path_eqb (p q : list string) : bool :=
  match p, q with
  | [], [] => true
  | a :: p', b :: q' => String.eqb a b && path_eqb p' q'
  | _, _ => false
  end.

Fixpoint field_setter (table : list (list string * (Q -> Entity -> Entity)))
         (parts : list string) : option (Q -> Entity -> Entity) :=
  match table with
  | [] => None
  | (p, f) :: rest => if path_eqb parts p then Some f else field_setter rest parts
  end.

Inductive Completion :=
| Normal
| Thrown (err : JsError)
| Unmodelled.

(** The tail of the animation callback, from [anim.property.split('.')] on.
    The editor module is strict-mode code ([strict = true]): assigning a
    property of a primitive value throws a [TypeError] there.  The script
    of the exported page is not ([strict = false]): the assignment is
    dropped. *)
Definition apply_value (strict : bool) (e : Entity) (prop : string) (v : Q)
  : Entity * Completion :=
  let parts := split_dots prop EmptyString in
  match walk (reflect_entity e) (removelast parts) with
  | Throw err => (e, Thrown err)
  | Ok target =>
      if js_truthy target then
        match target with
        | VObj _ =>
            match field_setter numeric_fields parts with
            | Some f => (f v e, Normal)
            | None => (e, Unmodelled)
            end
        | VArr _ => (e, Unmodelled)
        | _ =>
            if strict
            then (e, Thrown (TypeError "Cannot create property on a primitive value"))
            else (e, Normal)
        end
      else (e, Normal)
  end.

(** ** Property animations *)

Definition no_keyframe : Keyframe := mkKeyframe 0 0.

Definition set_cursor (t : Q) (still_playing : bool) (a : PropertyAnimation)
  : PropertyAnimation :=
  mkAnim (a_name a) (property a) (keyframes a) (loop a) still_playing t.

(** [anim.currentTime += dt] and the loop logic; [maxTime] is the time of
    the last keyframe.  The remainder [%] of two numbers of the format is a
    number of the format, so nothing is rounded there. *)
Definition advance_cursor (dt : Q) (a : PropertyAnimation) : PropertyAnimation :=
  let t := fl (currentTime a + dt) in
  let maxTime := time (last (keyframes a) no_keyframe) in
  if Js.gt t maxTime then
    if loop a then set_cursor (Js.rem t maxTime) (playing a) a
    else set_cursor maxTime false a
  else set_cursor t (playing a) a.

(** The scan for the bracketing pair, with its [break]. *)
Fixpoint find_bracket (kfs : list Keyframe) (t : Q) : option (Keyframe * Keyframe) :=
  match kfs with
  | k1 :: rest =>
      match rest with
      | k2 :: _ =>
          if Js.ge t (time k1) && Js.le t (time k2) then Some (k1, k2)
          else find_bracket rest t
      | [] => None
      end
  | [] => None
  end.

(** [kf1], [kf2] after the scan: the first and the last keyframe unless the
    scan found a pair. *)
Definition bracket (a : PropertyAnimation) : Keyframe * Keyframe :=
  match find_bracket (keyframes a) (currentTime a) with
  | Some p => p
  | None => (hd no_keyframe (keyframes a), last (keyframes a) no_keyframe)
  end.

(** The interpolated [value]. *)
Definition sample (a : PropertyAnimation) : Q :=
  let '(kf1, kf2) := bracket a in
  let t := (currentTime a - time kf1) / (time kf2 - time kf1) in
  value kf1 + (value kf2 - value kf1) * t.

Fixpoint replace_nth {A : Type} (j : nat) (a : A) (l : list A) : list A :=
  match l, j with
  | [], _ => []
  | _ :: rest, O => a :: rest
  | b :: rest, S j' => b :: replace_nth j' a rest
  end.

(** The [forEach] callback on the [j]-th animation of the entity.  The
    animation object is changed in place, inside the entity, before the
    property path is walked. *)
Definition animate_at (strict : bool) (dt : Q) (j : nat) (e : Entity)
  : Entity * Completion :=
  match propertyAnimations e with
  | None => (e, Normal)
  | Some anims =>
      match nth_error anims j with
      | None => (e, Normal)
      | Some a =>
          if playing a && (1 <? List.length (keyframes a))%nat then
            let a' := advance_cursor dt a in
            let e' := set_propertyAnimations (Some (replace_nth j a' anims)) e in
            apply_value strict e' (property a') (sample a')
          else (e, Normal)
      end
  end.

(** [entity.propertyAnimations.forEach(...)]: an exception ends it. *)
Fixpoint animate_from (strict : bool) (dt : Q) (count j : nat) (e : Entity)
  : Entity * Completion :=
  match count with
  | O => (e, Normal)
  | S count' =>
      match animate_at strict dt j e with
      | (e', Normal) => animate_from strict dt count' (S j) e'
      | stopped => stopped
      end
  end.

Definition update_animations (strict : bool) (dt : Q) (e : Entity) : Entity * Completion :=
  match propertyAnimations e with
  | Some anims => animate_from strict dt (List.length anims) 0 e
  | None => (e, Normal)
  end.

(** ** Scripts *)

Inductive LogKind := log_kind | warn_kind | error_kind.

Record LogRecord := mkLog {
  kind : LogKind;
  l_text : string;
  payload : option JsError
}.

(** The record [console.error] makes of a caught script error: the editor
    names the entity, the exported page logs the error alone. *)
Definition script_error_record (in_editor : bool) (e : Entity) (err : JsError)
  : LogRecord :=
  mkLog error_kind
        (if in_editor then "Error in script for entity " ++ name e ++ ":" else "")
        (Some err).

(** [JSON.stringify] of a thrown value: an [Error] object has no
    enumerable property of its own; an object that contains itself is
    refused. *)
Definition JSON_stringify (err : JsError) : result string :=
  match err with
  | TypeError _ => Ok "{}"
  | ScriptError _ => Ok "{}"
  | CyclicObject => Throw (TypeError "Converting circular structure to JSON")
  end.

(** [console.error(...args)] as the catch handler calls it.  In the editor
    it is the function [App] installs: it calls the browser's
    [console.error] and then makes the message of the log panel,
    [args.map(a => typeof a === 'object' ? JSON.stringify(a) : String(a))];
    an exception of [JSON.stringify] leaves the handler.  The exported page
    has the browser's [console.error].  The panel's messages are state of
    [App] and not kept here. *)
Definition console_error (in_editor : bool) (e : Entity) (err : JsError)
           (console : list LogRecord) : list LogRecord * Completion :=
  let printed := (console ++ [script_error_record in_editor e err])%list in
  if in_editor then
    match JSON_stringify err with
    | Ok _ => (printed, Normal)
    | Throw t => (printed, Thrown t)
    end
  else (printed, Normal).

(** [entity.script?.type === 'custom' && entity.script.content] *)
Definition script_source (e : Entity) : option string :=
  match script e with
  | Some s =>
      match s_type s, content s with
      | script_custom, Some src => if negb (String.eqb src "") then Some src else None
      | _, _ => None
      end
  | None => None
  end.

(** The guarded script call:
    [try { new Function(...)(entity, input, dt, ...) } catch (e) { console.error(...) }].
    What the handler itself throws is not caught. *)
Definition run_custom_script (in_editor : bool) (input : InputSnapshot) (dt : Q)
           (e : Entity) (console : list LogRecord)
  : Entity * list LogRecord * Completion :=
  match script_source e with
  | Some src =>
      match run_script src e input dt with
      | (e', None) => (e', console, Normal)
      | (e', Some err) =>
          let '(con, c) := console_error in_editor e' err console in
          (e', con, c)
      end
  | None => (e, console, Normal)
  end.

(** ** The frame update *)

(** What the entity callback shares with the other entities of the frame:
    the particle pools, the position in the random sequence, the console. *)
Record Env := mkEnv {
  pools : PoolMap;
  rng : nat;
  console : list LogRecord
}.

(** "Sync Physics" *)
Definition sync_physics (engine : option Engine) (e : Entity) : Entity :=
  match physics e, engine with
  | Some _, Some en =>
      match body_of en (id e) with
      | Some b =>
          set_transform
            (mkTransform (mkVector2 (x (b_position b)) (y (b_position b)))
                         (b_angle b * 180 / Math_PI)
                         (scale (transform e)) (isUI (transform e))
                         (anchor (transform e)))
            e
      | None => e
      end
  | _, _ => e
  end.

(** "Particles" *)
Definition step_particles (dt : Q) (e : Entity) (env : Env) : Env :=
  match particles e with
  | Some cfg =>
      let pool := match pool_get (pools env) (id e) with
                  | Some p => p
                  | None => []
                  end in
      let '(pool', r') := update_particles e cfg dt pool (rng env) in
      mkEnv (pool_set (pools env) (id e) pool') r' (console env)
  | None => env
  end.

(** The callback of [entitiesRef.current.map] in the editor
    ([strict = true]) and of [scene.entities.forEach] in the exported page
    ([strict = false]): the entity as it leaves the callback, the shared
    state, and how the callback completed. *)
Definition update_entity (strict : bool) (engine : option Engine)
           (input : InputSnapshot) (dt : Q) (e : Entity) (env : Env)
  : Entity * Env * Completion :=
  let e1 := sync_physics engine e in
  let env1 := step_particles dt e1 env in
  match update_animations strict dt e1 with
  | (e2, Normal) =>
      let '(e3, con, c) := run_custom_script strict input dt e2 (console env1) in
      (e3, mkEnv (pools env1) (rng env1) con, c)
  | (e2, c) => (e2, env1, c)
  end.

(** The [map] over the entities, in scene order.  The entities are objects
    changed in place, so what was done before an exception stays done and
    the entities after the one that threw are left as they were. *)
Fixpoint update_entities (strict : bool) (engine : option Engine)
         (input : InputSnapshot) (dt : Q) (es : list Entity) (env : Env)
  : list Entity * Env * Completion :=
  match es with
  | [] => ([], env, Normal)
  | e :: rest =>
      match update_entity strict engine input dt e env with
      | (e', env', Normal) =>
          let '(rest', env'', c) := update_entities strict engine input dt rest env' in
          (e' :: rest', env'', c)
      | (e', env', c) => (e' :: rest, env', c)
      end
  end.

(** What lives across frames: [entitiesRef], [accumulatorRef],
    [matterEngineRef] and the shared state.  [E] is the engine's type. *)
Record Runtime (E : Type) := mkRuntime {
  r_entities : list Entity;
  accumulator : Q;
  engine : option E;
  env : Env
}.

#[global] Arguments mkRuntime {E} _ _ _ _.
#[global] Arguments r_entities {E} _.
#[global] Arguments accumulator {E} _.
#[global] Arguments engine {E} _.
#[global] Arguments env {E} _.

(** [update(dt)] of the editor canvas.  [None] when the physics loop runs
    out of fuel. *)
Definition update (fuel : nat) (scene : Scene) (isPlaying : bool)
           (input : InputSnapshot) (dt : Q) (rt : Runtime Engine)
  : option (Runtime Engine * Completion) :=
  if negb isPlaying then Some (rt, Normal)
  else
    match physics_loop fuel (fixedTimestep_of scene) (fl (accumulator rt + dt))
                       (engine rt) O with
    | None => None
    | Some (acc, en, _) =>
        let '(es, env', c) := update_entities true en input dt (r_entities rt) (env rt) in
        Some (mkRuntime es acc en env', c)
    end.

(** Successive calls of [update] while playing; an exception ends them. *)
Fixpoint run_updates (fuel : nat) (scene : Scene) (steps : list (Q * InputSnapshot))
         (rt : Runtime Engine) : option (Runtime Engine * Completion) :=
  match steps with
  | [] => Some (rt, Normal)
  | (dt, input) :: rest =>
      match update fuel scene true input dt rt with
      | Some (rt', Normal) => run_updates fuel scene rest rt'
      | stopped => stopped
      end
  end.

(** The simulation half of [loop(time)]: [update(Math.min(dt, 0.1))]; the
    literal [0.1] is the number of the format nearest to one tenth. *)
Definition loop_update (fuel : nat) (scene : Scene) (isPlaying : bool)
           (input : InputSnapshot) (dt : Q) (rt : Runtime Engine) :=
  update fuel scene isPlaying input (Js.Math_min dt (fl (1 # 10))) rt.

(** Successive frames of the editor while playing.  [loop] asks for the
    next frame only after [update] and [draw] have returned, so an
    exception in a frame is the end of the run. *)
Fixpoint run_frames (fuel : nat) (scene : Scene) (frames : list (Q * InputSnapshot))
         (rt : Runtime Engine) : option (Runtime Engine * Completion) :=
  match frames with
  | [] => Some (rt, Normal)
  | (dt, input) :: rest =>
      match loop_update fuel scene true input dt rt with
      | Some (rt', Normal) => run_frames fuel scene rest rt'
      | stopped => stopped
      end
  end.

(** The simulation half of the exported page's [loop(time)]: the next frame
    is requested first, the accumulator takes the capped [dt], and the
    entities take the [dt] as measured. *)
Definition export_loop_update (fuel : nat) (scene : Scene) (input : InputSnapshot)
           (dt : Q) (rt : Runtime Engine) : option (Runtime Engine * Completion) :=
  match physics_loop fuel (fixedTimestep_of scene)
                     (fl (accumulator rt + Js.Math_min dt (fl (1 # 10))))
                     (engine rt) O with
  | None => None
  | Some (acc, en, _) =>
      let '(es, env', c) := update_entities false en input dt (r_entities rt) (env rt) in
      Some (mkRuntime es acc en env', c)
  end.

(** Successive frames of the exported page.  Its [loop] asks for the next
    frame before anything else, so the frames go on whatever a frame does;
    the completions of the frames are collected. *)
Fixpoint export_run_frames (fuel : nat) (scene : Scene)
         (frames : list (Q * InputSnapshot)) (rt : Runtime Engine)
  : option (Runtime Engine * list Completion) :=
  match frames with
  | [] => Some (rt, [])
  | (dt, input) :: rest =>
      match export_loop_update fuel scene input dt rt with
      | Some (rt', c) =>
          match export_run_frames fuel scene rest rt' with
          | Some (rt'', cs) => Some (rt'', c :: cs)
          | None => None
          end
      | None => None
      end
  end.

End Simulation.

(** ** The 2D canvas

    The drawing context keeps a current drawing state and a stack of saved
    ones.  Of the drawing state the model keeps the transform, the fill
    style and the alpha; each drawing call is recorded with the transform
    in effect, so that where it lands on the canvas can be read off. *)

Record Matrix := mkMatrix {
  m_a : Q; m_b : Q; m_c : Q; m_d : Q; m_e : Q; m_f : Q
}.

Definition identity_matrix : Matrix := mkMatrix 1 0 0 1 0 0.

(** The canvas pixel a local point is drawn at. *)
Definition m_apply (m : Matrix) (px py : Q) : Q * Q :=
  (m_a m * px + m_c m * py + m_e m, m_b m * px + m_d m * py + m_f m).

Record DrawState := mkDrawState {
  ds_transform : Matrix;
  fillStyle : string;
  globalAlpha : Q
}.

Inductive DrawOp :=
| FillRect (m : Matrix) (style : string) (rx ry rw rh : Q)
| FillCircle (m : Matrix) (style : string) (radius : Q)
| FillText (m : Matrix) (style : string) (label : string) (fontPx : Q)
| DrawImage (m : Matrix) (url : string) (sx sy sw sh dx dy dw dh : Q).

Record Ctx := mkCtx {
  state : DrawState;
  saved : list DrawState;
  ops : list DrawOp
}.

Definition fresh_ctx : Ctx := mkCtx (mkDrawState identity_matrix "#000000" 1) [] [].

(** [ctx.save()], [ctx.restore()]; restoring with nothing saved does nothing. *)
Definition ctx_save (c : Ctx) : Ctx :=
  mkCtx (state c) (state c :: saved c) (ops c).

Definition ctx_restore (c : Ctx) : Ctx :=
  match saved c with
  | s :: rest => mkCtx s rest (ops c)
  | [] => c
  end.

Definition with_transform (m : Matrix) (c : Ctx) : Ctx :=
  mkCtx (mkDrawState m (fillStyle (state c)) (globalAlpha (state c))) (saved c) (ops c).

Definition set_fillStyle (s : string) (c : Ctx) : Ctx :=
  mkCtx (mkDrawState (ds_transform (state c)) s (globalAlpha (state c))) (saved c) (ops c).

Definition emit (op : DrawOp) (c : Ctx) : Ctx :=
  mkCtx (state c) (saved c) (ops c ++ [op]).

(** [ctx.translate], [ctx.scale], [ctx.rotate]: the current transform is
    multiplied on the right. *)
Definition ctx_translate (tx ty : Q) (c : Ctx) : Ctx :=
  let m := ds_transform (state c) in
  with_transform
    (mkMatrix (m_a m) (m_b m) (m_c m) (m_d m)
              (m_a m * tx + m_c m * ty + m_e m) (m_b m * tx + m_d m * ty + m_f m))
    c.

Definition ctx_scale (sx sy : Q) (c : Ctx) : Ctx :=
  let m := ds_transform (state c) in
  with_transform
    (mkMatrix (m_a m * sx) (m_b m * sx) (m_c m * sy) (m_d m * sy) (m_e m) (m_f m)) c.

Section Rendering.

Context {host : Host}.

Definition ctx_rotate (a : Q) (c : Ctx) : Ctx :=
  let m := ds_transform (state c) in
  let co := Math_cos a in
  let si := Math_sin a in
  with_transform
    (mkMatrix (m_a m * co + m_c m * si) (m_b m * co + m_d m * si)
              (m_c m * co - m_a m * si) (m_d m * co - m_b m * si)
              (m_e m) (m_f m))
    c.

Definition ctx_fillRect (rx ry rw rh : Q) (c : Ctx) : Ctx :=
  emit (FillRect (ds_transform (state c)) (fillStyle (state c)) rx ry rw rh) c.

(** [beginPath(); arc(0, 0, r, 0, 2 * Math.PI); fill()], for a radius
    that is not negative; [arc] throws an [IndexSizeError] for a negative
    one. *)
Definition ctx_fillCircle (r : Q) (c : Ctx) : Ctx :=
  emit (FillCircle (ds_transform (state c)) (fillStyle (state c)) r) c.

Definition ctx_fillText (label : string) (fontPx : Q) (c : Ctx) : Ctx :=
  emit (FillText (ds_transform (state c)) (fillStyle (state c)) label fontPx) c.

(** [drawImage] of an image that is not broken; for a broken one it throws
    an [InvalidStateError]. *)
Definition ctx_drawImage (url : string) (sx sy sw sh dx dy dw dh : Q) (c : Ctx) : Ctx :=
  emit (DrawImage (ds_transform (state c)) url sx sy sw sh dx dy dw dh) c.

Record Canvas := mkCanvas { cv_width : Q; cv_height : Q }.

(** An entry of the image cache: an [Image] element and what it knows.  An
    image that could not be loaded is [complete] with width and height 0. *)
Record Image := mkImage { complete : bool; img_width : Q; img_height : Q }.

Definition ImageCache := list (string * Image).

Fixpoint cache_get (cache : ImageCache) (url : string) : option Image :=
  match cache with
  | [] => None
  | (u, i) :: rest => if String.eqb url u then Some i else cache_get rest url
  end.

(** [cache[url] = new Image(); cache[url].src = url]: loading has started. *)
Definition cache_request (cache : ImageCache) (url : string) : ImageCache :=
  ((url, mkImage false 0 0) :: cache)%list.

Definition opt_or (o : option Q) (d : Q) : Q :=
  match o with
  | Some v => Js.or_default v d
  | None => d
  end.

(** [entity.renderer.parallaxFactor ?? 1] *)
Definition parallax_of (e : Entity) : Q :=
  match parallaxFactor (renderer e) with
  | Some p => p
  | None => 1
  end.

(** [scene.camera?.zoom || 1] *)
Definition zoom_of (scene : Scene) : Q :=
  match camera scene with
  | Some cam => Js.or_default (zoom cam) 1
  | None => 1
  end.

(** What the canvas refuses.  [arc] throws for a negative radius, and
    [drawImage] throws for an image in the broken state: one that could
    not be loaded or decoded, which is [complete] and has no width and no
    height.  The model has no exception for the two; the properties of
    the drawing are stated for circles, particle sizes and caches with
    which no such call is made. *)
Definition not_broken (img : Image) : Prop :=
  complete img = true -> 0 < img_width img /\ 0 < img_height img.

Definition no_broken_image (cache : ImageCache) : Prop :=
  forall (url : string) (img : Image), cache_get cache url = Some img -> not_broken img.

Definition circle_fits (e : Entity) : Prop :=
  r_type (renderer e) = circle -> 0 <= width (renderer e).

(** The start of [draw]: clear, [save], and the camera transform. *)
Definition begin_draw (canvas : Canvas) (scene : Scene) (c : Ctx) : Ctx :=
  let c1 := set_fillStyle (backgroundColor scene) c in
  let c2 := ctx_fillRect 0 0 (cv_width canvas) (cv_height canvas) c1 in
  let c3 := ctx_save c2 in
  let c4 := ctx_translate (cv_width canvas / 2) (cv_height canvas / 2) c3 in
  ctx_scale (zoom_of scene) (zoom_of scene) c4.

(** The [switch (entity.transform.anchor)] on the position of a UI entity. *)
Definition anchored (canvas : Canvas) (a : option AnchorType) (px py : Q) : Q * Q :=
  let w := cv_width canvas in
  let h := cv_height canvas in
  match a with
  | None => (px, py)
  | Some top_left => (px, py)
  | Some top_center => (px + w / 2, py)
  | Some top_right => (px + w, py)
  | Some center_left => (px, py + h / 2)
  | Some center => (px + w / 2, py + h / 2)
  | Some center_right => (px + w, py + h / 2)
  | Some bottom_left => (px, py + h)
  | Some bottom_center => (px + w / 2, py + h)
  | Some bottom_right => (px + w, py + h)
  end.

(** The head of [drawEntity], up to [ctx.scale]: where the entity is put.
    [cam] is [cameraOffset.current] in the editor and the follow target's
    position in the exported page. *)
Definition place_entity (canvas : Canvas) (cam : Vector2) (e : Entity) (asUI : bool)
           (c : Ctx) : Ctx :=
  let c1 := ctx_save c in
  let c2 :=
    if asUI then
      let c' := ctx_save (ctx_restore c1) in
      let '(px, py) := anchored canvas (anchor (transform e))
                                (x (position (transform e)))
                                (y (position (transform e))) in
      ctx_translate px py c'
    else
      let camX := x cam * parallax_of e in
      let camY := y cam * parallax_of e in
      ctx_translate (x (position (transform e)) - camX)
                    (y (position (transform e)) - camY) c1 in
  let c3 := ctx_rotate (rotation (transform e) * Math_PI / 180) c2 in
  ctx_scale (x (scale (transform e))) (y (scale (transform e))) c3.

(** The shape of the entity, by [entity.renderer.type]. *)
Definition draw_shape (e : Entity) (cache : ImageCache) (c : Ctx) : Ctx * ImageCache :=
  let r := renderer e in
  match r_type r with
  | rect =>
      (ctx_fillRect (- width r / 2) (- height r / 2) (width r) (height r)
                    (set_fillStyle (color r) c), cache)
  | circle => (ctx_fillCircle (width r / 2) (set_fillStyle (color r) c), cache)
  | button =>
      let c1 := ctx_fillRect (- width r / 2) (- height r / 2) (width r) (height r)
                             (set_fillStyle (color r) c) in
      match text r with
      | Some label =>
          if negb (String.eqb label "")
          then (ctx_fillText label (opt_or (fontSize r) 16) (set_fillStyle "#ffffff" c1),
                cache)
          else (c1, cache)
      | None => (c1, cache)
      end
  | sprite =>
      match spriteUrl r with
      | Some url =>
          if negb (String.eqb url "") then
            match cache_get cache url with
            | Some img =>
                if complete img then
                  let cols := opt_or (cols r) 1 in
                  let rows := opt_or (rows r) 1 in
                  let frame := opt_or (currentFrame r) 0 in
                  let frameWidth := img_width img / cols in
                  let frameHeight := img_height img / rows in
                  let col := Js.rem frame cols in
                  let row := Js.Math_floor (frame / cols) in
                  (ctx_drawImage url (col * frameWidth) (row * frameHeight)
                                 frameWidth frameHeight
                                 (- width r / 2) (- height r / 2) (width r) (height r) c,
                   cache)
                else (c, cache)
            | None => (c, cache_request cache url)
            end
          else (c, cache)
      | None => (c, cache)
      end
  | _ => (c, cache)
  end.

(** The body of the tile loop for cell [i] holding [tileIndex]: the
    [drawImage] call it makes, if it makes one. *)
Definition tile_draw (t : TilemapComponent) (url : string) (img : Image) (m : Matrix)
           (i : nat) (tileIndex : Q) : option DrawOp :=
  let hw := (columns t * tileSize t) / 2 in
  let hh := (t_rows t * tileSize t) / 2 in
  let tilesPerRow := Js.Math_floor (img_width img / tileSize t) in
  if Js.gt tileIndex 0 then
    let tx := Js.rem (tileIndex - 1) tilesPerRow * tileSize t in
    let ty := Js.Math_floor ((tileIndex - 1) / tilesPerRow) * tileSize t in
    let dx := - hw + Js.rem (num_of_nat i) (columns t) * tileSize t in
    let dy := - hh + Js.Math_floor (num_of_nat i / columns t) * tileSize t in
    Some (DrawImage m url tx ty (tileSize t) (tileSize t) dx dy (tileSize t) (tileSize t))
  else None.

(** [for (let i = 0; i < layer.data.length; i++)], from cell [i] on. *)
Fixpoint draw_cells (t : TilemapComponent) (url : string) (img : Image)
         (i : nat) (cells : list Q) (c : Ctx) : Ctx :=
  match cells with
  | [] => c
  | tileIndex :: rest =>
      let c' := match tile_draw t url img (ds_transform (state c)) i tileIndex with
                | Some op => emit op c
                | None => c
                end in
      draw_cells t url img (S i) rest c'
  end.

(** [layers.forEach(layer => ...)] *)
Fixpoint draw_layers (t : TilemapComponent) (url : string) (img : Image)
         (ls : list TilemapLayer) (c : Ctx) : Ctx :=
  match ls with
  | [] => c
  | l :: rest => draw_layers t url img rest (draw_cells t url img 0 (data l) c)
  end.

(** "Draw tiles" *)
Definition draw_tilemap (e : Entity) (cache : ImageCache) (c : Ctx) : Ctx * ImageCache :=
  match tilemap e with
  | Some t =>
      match tilesetUrl t with
      | Some url =>
          if negb (String.eqb url "") then
            match cache_get cache url with
            | Some img =>
                if complete img then (draw_layers t url img (layers t) c, cache)
                else (c, cache)
            | None => (c, cache_request cache url)
            end
          else (c, cache)
      | None => (c, cache)
      end
  | None => (c, cache)
  end.

(** [drawEntity(entity, isUI)], without the editor's selection grid and
    outline and without the particles, which are drawn after the closing
    [ctx.restore()]. *)
Definition drawEntity (canvas : Canvas) (cam : Vector2) (e : Entity) (asUI : bool)
           (cache : ImageCache) (c : Ctx) : Ctx * ImageCache :=
  let c1 := place_entity canvas cam e asUI c in
  let '(c2, cache1) := draw_shape e cache c1 in
  let '(c3, cache2) := draw_tilemap e cache1 c2 in
  (ctx_restore c3, cache2).

Fixpoint draw_all (canvas : Canvas) (cam : Vector2) (asUI : bool) (es : list Entity)
         (cache : ImageCache) (c : Ctx) : Ctx * ImageCache :=
  match es with
  | [] => (c, cache)
  | e :: rest =>
      let '(c', cache') := drawEntity canvas cam e asUI cache c in
      draw_all canvas cam asUI rest cache' c'
  end.

(** [e.transform.isUI] as a condition. *)
Definition is_ui (e : Entity) : bool :=
  match isUI (transform e) with
  | Some b => b
  | None => false
  end.

(** [draw()]: the entities that are not UI in scene order, then the UI
    entities in scene order. *)
Definition draw (canvas : Canvas) (scene : Scene) (cam : Vector2) (es : list Entity)
           (cache : ImageCache) (c : Ctx) : Ctx * ImageCache :=
  let c1 := begin_draw canvas scene c in
  let '(c2, cache1) :=
    draw_all canvas cam false (filter (fun e => negb (is_ui e)) es) cache c1 in
  let '(c3, cache2) := draw_all canvas cam true (filter is_ui es) cache1 c2 in
  (ctx_restore c3, cache2).

(** ** Pointer hit-testing ([handlePointerDown]) *)

(** The pointer in the entity's local frame. *)
Definition local_point (cam : Vector2) (screenX screenY : Q) (e : Entity) : Q * Q :=
  let camX := x cam * parallax_of e in
  let camY := y cam * parallax_of e in
  let ex := x (position (transform e)) - camX in
  let ey := y (position (transform e)) - camY in
  let dx := screenX - ex in
  let dy := screenY - ey in
  let a := - rotation (transform e) * Math_PI / 180 in
  (dx * Math_cos a - dy * Math_sin a, dx * Math_sin a + dy * Math_cos a).

(** The predicate given to [find]. *)
Definition hit (cam : Vector2) (screenX screenY : Q) (e : Entity) : bool :=
  let w := width (renderer e) * x (scale (transform e)) in
  let h := height (renderer e) * y (scale (transform e)) in
  let '(localX, localY) := local_point cam screenX screenY e in
  match r_type (renderer e) with
  | circle => Js.le (Math_sqrt (localX * localX + localY * localY)) (w / 2)
  | _ =>
      Js.ge localX (- w / 2) && Js.le localX (w / 2)
      && Js.ge localY (- h / 2) && Js.le localY (h / 2)
  end.

(** [[...entitiesRef.current].reverse().find(...)] *)
Definition clicked_entity (cam : Vector2) (screenX screenY : Q) (es : list Entity)
  : option Entity :=
  find (hit cam screenX screenY) (rev es).

End Rendering.

(** ** Prefabs ([App]: [handleSavePrefab], [handleInstantiatePrefab])

    The [data] of a prefab asset is a JSON text.  The model keeps the value
    the text denotes: [JSON.parse(JSON.stringify(v))] of a value of the data
    model is a fresh copy equal to [v], field by field. *)

Record EntityData := mkEntityData {
  d_name : string;
  d_transform : TransformComponent;
  d_physics : option PhysicsComponent;
  d_renderer : RendererComponent;
  d_script : option ScriptComponent;
  d_particles : option ParticleEmitterComponent;
  d_tilemap : option TilemapComponent;
  d_propertyAnimations : option (list PropertyAnimation);
  d_prefabId : option string
}.

Inductive AssetType := image_asset | audio_asset | script_asset | prefab_asset.

Record Asset := mkAsset {
  as_id : string;
  as_name : string;
  as_type : AssetType;
  url : string;
  as_data : option EntityData
}.

(** [const { id, ...entityData } = JSON.parse(JSON.stringify(entity))] *)
Definition strip_id (e : Entity) : EntityData :=
  mkEntityData (name e) (transform e) (physics e) (renderer e) (script e)
               (particles e) (tilemap e) (propertyAnimations e) (prefabId e).

(** The assets after [handleSavePrefab(entityId)]; [uuid] is the value of
    [crypto.randomUUID()]. *)
Definition handleSavePrefab (scene : option Scene) (assets : list Asset)
           (entityId uuid : string) : list Asset :=
  match scene with
  | None => assets
  | Some sc =>
      match find (fun e => String.eqb (id e) entityId) (entities sc) with
      | None => assets
      | Some e =>
          (assets ++ [mkAsset uuid (name e ++ " Prefab") prefab_asset ""
                              (Some (strip_id e))])%list
      end
  end.

(** The object literal of [handleInstantiatePrefab]. *)
Definition instantiate (d : EntityData) (prefab uuid : string) : Entity :=
  mkEntity uuid (d_name d ++ " (Instance)")
           (mkTransform
              (mkVector2 (x (position (d_transform d)) + 20)
                         (y (position (d_transform d)) + 20))
              (rotation (d_transform d)) (scale (d_transform d))
              (isUI (d_transform d)) (anchor (d_transform d)))
           (d_physics d) (d_renderer d) (d_script d) (d_particles d) (d_tilemap d)
           (d_propertyAnimations d) (Some prefab).

(** The scene after [handleInstantiatePrefab(prefabId)]. *)
Definition handleInstantiatePrefab (scene : option Scene) (assets : list Asset)
           (prefab uuid : string) : option Scene :=
  match find (fun a => String.eqb (as_id a) prefab) assets with
  | None => scene
  | Some a =>
      match as_data a with
      | None => scene
      | Some d =>
          option_map
            (fun sc => mkScene (entities sc ++ [instantiate d prefab uuid])%list
                               (backgroundColor sc) (camera sc) (s_physics sc))
            scene
      end
  end.

(** ** Iterated steps *)

Section Iteration.

Context {host : Host}.

(** Successive simulation steps of one emitter's pool.  A step brings the
    entity as it is then (its position, its emitter settings) and the [dt]
    of the frame. *)
Fixpoint run_emitter (steps : list (Entity * ParticleEmitterComponent * Q))
         (pool : list Particle) (r : nat) : list Particle * nat :=
  match steps with
  | [] => (pool, r)
  | (e, cfg, dt) :: rest =>
      let '(pool', r') := update_particles e cfg dt pool r in
      run_emitter rest pool' r'
  end.

End Iteration.

(** The bound the emission loop keeps, for any number as the cap: an empty
    pool, or a length below [cap + 1]. *)
Definition within (cap : Q) (n : nat) : Prop := n = O \/ num_of_nat n < cap + 1.

(** The path leads to an object of the entity and names one of its numeric
    properties: the assignment at the end of the animation callback takes
    place. *)
Definition assignable (e : Entity) (prop : string) : bool :=
  match walk (reflect_entity e) (removelast (split_dots prop EmptyString)) with
  | Ok (VObj _) =>
      match field_setter numeric_fields (split_dots prop EmptyString) with
      | Some _ => true
      | None => false
      end
  | _ => false
  end.

(** [entity.propertyAnimations[j]] *)
Definition animation_at (e : Entity) (j : nat) : option PropertyAnimation :=
  match propertyAnimations e with
  | Some anims => nth_error anims j
  | None => None
  end.

(** The keyframes [(0, 0)] and [(1, 10)]. *)
Definition ramp : list Keyframe := [mkKeyframe 0 0; mkKeyframe 1 10].

(** The number read through a property path, when the path leads to one. *)
Definition field_value (e : Entity) (prop : string) : option Q :=
  match walk (reflect_entity e) (split_dots prop EmptyString) with
  | Ok (VNum q) => Some q
  | _ => None
  end.


(** The animation [j] of the entity is [a] and its path names a numeric
    field, no other animation of the entity is playing, and the entity has
    no script to run: nothing else in the entity's callback writes where
    the animation writes, or to the animation. *)
Definition plays_alone (e : Entity) (j : nat) (a : PropertyAnimation) : Prop :=
  animation_at e j = Some a
  /\ assignable e (property a) = true
  /\ script_source e = None
  /\ forall (k : nat) (b : PropertyAnimation),
        k <> j -> animation_at e k = Some b -> playing b = false.


(** ** Comparing an instance with its original *)

(** What the two entities share whatever the instantiation does to the
    id, the name, the prefab id and the position. *)
Definition same_components (orig inst : Entity) : Prop :=
  rotation (transform inst) = rotation (transform orig)
  /\ scale (transform inst) = scale (transform orig)
  /\ isUI (transform inst) = isUI (transform orig)
  /\ anchor (transform inst) = anchor (transform orig)
  /\ physics inst = physics orig
  /\ renderer inst = renderer orig
  /\ script inst = script orig
  /\ particles inst = particles orig
  /\ tilemap inst = tilemap orig
  /\ propertyAnimations inst = propertyAnimations orig.

Definition offset_by_20 (orig inst : Entity) : Prop :=
  position (transform inst)
  = mkVector2 (x (position (transform orig)) + 20) (y (position (transform orig)) + 20).

(** The instance is the original but for its id and the offset. *)
Definition copy_but_id_and_offset (orig inst : Entity) : Prop :=
  name inst = name orig
  /\ prefabId inst = prefabId orig
  /\ offset_by_20 orig inst
  /\ same_components orig inst.

(** ** Reading the drawing back *)

Definition op_matrix (op : DrawOp) : Matrix :=
  match op with
  | FillRect m _ _ _ _ _ => m
  | FillCircle m _ _ => m
  | FillText m _ _ _ => m
  | DrawImage m _ _ _ _ _ _ _ _ _ => m
  end.

(** The canvas pixel at which the origin of the drawn shape lands. *)
Definition op_origin (op : DrawOp) : Q * Q := m_apply (op_matrix op) 0 0.

Definition point_eqb (p q : Q * Q) : bool :=
  Qeq_bool (fst p) (fst q) && Qeq_bool (snd p) (snd q).

(** The [drawImage] calls of the tile loop over [cells], from cell [i] on,
    under the transform [m]. *)
Fixpoint cell_ops (t : TilemapComponent) (url : string) (img : Image) (m : Matrix)
         (i : nat) (cells : list Q) : list DrawOp :=
  match cells with
  | [] => []
  | tileIndex :: rest =>
      match tile_draw t url img m i tileIndex with
      | Some op => op :: cell_ops t url img m (S i) rest
      | None => cell_ops t url img m (S i) rest
      end
  end.

(** The [drawImage] calls of the layers [ls], in order. *)
Definition layer_ops (t : TilemapComponent) (url : string) (img : Image) (m : Matrix)
           (ls : list TilemapLayer) : list DrawOp :=
  flat_map (fun l => cell_ops t url img m 0 (data l)) ls.

(** ** The drawn rectangle *)


Section DrawnPoint.

Context {host : Host}.


End DrawnPoint.

(** ** A host to run examples on

    Arithmetic is exact, the engine counts its updates, [Math.random()]
    always returns one half, scripts do nothing.  The cosine and sine are those of the rational
    parametrisation of the circle, [((1 - t^2) / (1 + t^2), 2 t / (1 + t^2))]
    at [t = a / 2]: exact rotations (the squares sum to one, the cosine is
    even and the sine odd) that agree with the true functions to second
    order at zero. *)

Definition example_cos (a : Q) : Q :=
  (1 - (a / 2) * (a / 2)) / (1 + (a / 2) * (a / 2)).

Definition example_sin (a : Q) : Q :=
  (2 * (a / 2)) / (1 + (a / 2) * (a / 2)).

Definition example_host : Host :=
  {| fl := fun q => q;
     Engine := nat;
     Engine_update := fun n _ => S n;
     body_of := fun _ _ => None;
     Math_PI := 355 # 113;
     Math_cos := example_cos;
     Math_sin := example_sin;
     Math_sqrt := fun a => a;
     Math_random := fun _ => 1 # 2;
     run_script := fun _ e _ _ => (e, None) |}.

(** What the example scripts do: two texts throw and change nothing, any
    other text does nothing. *)
Definition example_script (src : string) (e : Entity) (input : InputSnapshot) (dt : Q)
  : Entity * option JsError :=
  if String.eqb src "throw new Error('always')" then (e, Some (ScriptError "always"))
  else if String.eqb src "const o = {}; o.self = o; throw o" then (e, Some CyclicObject)
  else (e, None).

(** The example host with the binary64 format for its numbers and the
    example scripts. *)
Definition double_host : Host :=
  {| fl := round64;
     Engine := nat;
     Engine_update := fun n _ => S n;
     body_of := fun _ _ => None;
     Math_PI := 355 # 113;
     Math_cos := example_cos;
     Math_sin := example_sin;
     Math_sqrt := fun a => a;
     Math_random := fun _ => 1 # 2;
     run_script := example_script |}.

Definition no_input : InputSnapshot := mkInput 0 0 false.

Definition empty_env : Env := mkEnv [] 0 [].

Definition example_renderer : RendererComponent :=
  mkRenderer rect "#06b6d4" 50 50 None None (Some 16) None None None None None (Some 1).

Definition example_entity : Entity :=
  mkEntity "e1" "Box"
           (mkTransform (mkVector2 400 300) 0 (mkVector2 1 1) None None)
           None example_renderer None None None None None.



(** The example entity with an animation whose path names nothing the
    entity has: [a] is missing, and [b] is looked up on it. *)
Definition broken_entity : Entity :=
  set_propertyAnimations (Some [mkAnim "broken" "a.b.c" ramp false true 0])
                         example_entity.

(** A second entity, after it in the scene, with a looping animation. *)
Definition second_entity : Entity :=
  mkEntity "e2" "Slider"
           (mkTransform (mkVector2 0 0) 0 (mkVector2 1 1) None None)
           None example_renderer None None None
           (Some [mkAnim "slide" "transform.position.x" ramp true true 0]) None.

(** A UI entity anchored to the bottom right corner, ten pixels in. *)
Definition hud_entity : Entity :=
  mkEntity "hud" "Score"
           (mkTransform (mkVector2 (-10) (-10)) 0 (mkVector2 1 1)
                        (Some true) (Some bottom_right))
           None example_renderer None None None None None.

Definition scene_at_zoom (z : Q) : Scene :=
  mkScene [hud_entity] "#1a1a1a" (Some (mkCamera (mkVector2 0 0) z None (1 # 10))) None.


Definition example_tilemap : TilemapComponent :=
  mkTilemap 32 10 10 [mkLayer "Layer 1" [0; 6; 1]] (Some "tiles.png").

(** The example entity with the example tilemap. *)
Definition map_entity : Entity := set_tilemap (Some example_tilemap) example_entity.

(** The example entity with a script. *)
Definition scripted_entity (src : string) : Entity :=
  mkEntity "e0" "Faulty"
           (mkTransform (mkVector2 0 0) 0 (mkVector2 1 1) None None)
           None example_renderer
           (Some (mkScript script_custom None (Some src)))
           None None None None.

(** * More of the code *)

(** ** More arithmetic *)

Module JsMath.

(** [Math.max], [Math.abs], [Math.round] (halves go up). *)
Definition Math_max (a b : Q) : Q := if Js.lt a b then b else a.
Definition Math_abs (a : Q) : Q := if Js.lt a 0 then - a else a.
Definition Math_round (a : Q) : Q := inject_Z (Qfloor (a + (1 # 2))).

End JsMath.

(** ** Pointer interaction in the editor ([GameCanvas]) *)

Record ClientRect := mkRect {
  rect_left : Q; rect_top : Q; rect_width : Q; rect_height : Q
}.

(** A mouse event, or a touch event with its list of touches; each
    position is [(clientX, clientY)]. *)
Inductive PointerEvent :=
| MouseAt (cx cy : Q)
| TouchesAt (touches : list (Q * Q)).

Record Coordinates := mkCoordinates {
  screenX : Q; screenY : Q; clientX : Q; clientY : Q
}.

(** [getCanvasCoordinates(e)]; [view] is the canvas with its bounding
    client rectangle, [None] when [canvasRef.current] is null.  Reading
    [e.touches[0].clientX] of a touch event without touches throws. *)
Definition getCanvasCoordinates (view : option (Canvas * ClientRect)) (scene : Scene)
           (ev : PointerEvent) : result Coordinates :=
  match view with
  | None => Ok (mkCoordinates 0 0 0 0)
  | Some (canvas, box) =>
      let client :=
        match ev with
        | MouseAt cx cy => Ok (cx, cy)
        | TouchesAt ((cx, cy) :: _) => Ok (cx, cy)
        | TouchesAt [] => Throw (TypeError "Cannot read properties of undefined")
        end in
      match client with
      | Throw err => Throw err
      | Ok (cx, cy) =>
          let scaleX := cv_width canvas / rect_width box in
          let scaleY := cv_height canvas / rect_height box in
          let rawX := (cx - rect_left box) * scaleX in
          let rawY := (cy - rect_top box) * scaleY in
          let zoom := zoom_of scene in
          Ok (mkCoordinates ((rawX - cv_width canvas / 2) / zoom)
                            ((rawY - cv_height canvas / 2) / zoom) cx cy)
      end
  end.

Inductive Handle := h_tl | h_tr | h_bl | h_br.

(** [isResizing.includes('l')] and the like. *)
Definition handle_has_l (h : Handle) : bool :=
  match h with h_tl | h_bl => true | _ => false end.
Definition handle_has_r (h : Handle) : bool :=
  match h with h_tr | h_br => true | _ => false end.
Definition handle_has_t (h : Handle) : bool :=
  match h with h_tl | h_tr => true | _ => false end.
Definition handle_has_b (h : Handle) : bool :=
  match h with h_bl | h_br => true | _ => false end.

Record ResizeStart := mkResizeStart {
  rs_x : Q; rs_y : Q; rs_sx : Q; rs_sy : Q; rs_w : Q; rs_h : Q
}.

(** [if (selectedEntityId)]: a string is truthy when it is not empty. *)
Definition selected_id (selectedEntityId : option string) : option string :=
  match selectedEntityId with
  | Some s => if String.eqb s "" then None else Some s
  | None => None
  end.

Definition find_entity (es : list Entity) (key : string) : option Entity :=
  find (fun e => String.eqb (id e) key) es.

Section Pointer.

Context {host : Host}.

(** "Check Resize Handles first": the handle under the pointer, for an
    entity that is not a circle. *)
Definition handle_under (scene : Scene) (cam : Vector2) (sX sY : Q) (e : Entity)
  : option Handle :=
  let w := width (renderer e) * x (scale (transform e)) in
  let h := height (renderer e) * y (scale (transform e)) in
  let '(localX, localY) := local_point cam sX sY e in
  let hw := w / 2 in
  let hh := h / 2 in
  let hs := 10 / zoom_of scene in
  let isHit (hx hy : Q) :=
    Js.lt (JsMath.Math_abs (localX - hx)) hs && Js.lt (JsMath.Math_abs (localY - hy)) hs in
  if isHit (- hw) (- hh) then Some h_tl
  else if isHit hw (- hh) then Some h_tr
  else if isHit (- hw) hh then Some h_bl
  else if isHit hw hh then Some h_br
  else None.

(** What a pointer-down starts.  [Dragging] and [Panning] carry what
    [onSelectEntity] is called with: the clicked entity's id, or null. *)
Inductive Started :=
| Nothing
| Resizing (h : Handle) (start : ResizeStart)
| Dragging (clicked : string) (dragOffset : Vector2)
| Panning (lastPanPos : Vector2).

(** [handlePointerDown(e)] *)
Definition handlePointerDown (isPlaying isReadOnly : bool)
           (view : option (Canvas * ClientRect)) (scene : Scene) (cam : Vector2)
           (selectedEntityId : option string) (es : list Entity) (ev : PointerEvent)
  : result Started :=
  if isPlaying || isReadOnly then Ok Nothing
  else
    match getCanvasCoordinates view scene ev with
    | Throw err => Throw err
    | Ok c =>
        let resize :=
          match selected_id selectedEntityId with
          | Some sel =>
              match find_entity es sel with
              | Some e =>
                  match r_type (renderer e) with
                  | circle => None
                  | _ =>
                      match handle_under scene cam (screenX c) (screenY c) e with
                      | Some h =>
                          Some (Resizing h
                                  (mkResizeStart (screenX c) (screenY c)
                                     (x (scale (transform e))) (y (scale (transform e)))
                                     (width (renderer e)) (height (renderer e))))
                      | None => None
                      end
                  end
              | None => None
              end
          | None => None
          end in
        match resize with
        | Some r => Ok r
        | None =>
            match clicked_entity cam (screenX c) (screenY c) es with
            | Some e =>
                let camX := x cam * parallax_of e in
                let camY := y cam * parallax_of e in
                Ok (Dragging (id e)
                      (mkVector2 (screenX c - (x (position (transform e)) - camX))
                                 (screenY c - (y (position (transform e)) - camY))))
            | None => Ok (Panning (mkVector2 (clientX c) (clientY c)))
            end
        end
    end.

(** The pointer's displacement since the resize began, in the entity's
    frame: [localDx], [localDy]. *)
Definition resize_delta (start : ResizeStart) (e : Entity) (sX sY : Q) : Q * Q :=
  let dx := sX - rs_x start in
  let dy := sY - rs_y start in
  let a := - rotation (transform e) * Math_PI / 180 in
  (dx * Math_cos a - dy * Math_sin a, dx * Math_sin a + dy * Math_cos a).

(** The scale a resize gives.  The code divides by the width and the
    height the resize began with; for a zero width or height it computes
    [NaN] or an infinity, which are not modelled: the properties of the
    resize are stated for a width and a height that are not zero. *)
Definition resized_scale (h : Handle) (start : ResizeStart) (e : Entity) (sX sY : Q)
  : Vector2 :=
  let '(localDx, localDy) := resize_delta start e sX sY in
  let newSx0 := rs_sx start in
  let newSy0 := rs_sy start in
  let newSx1 := if handle_has_l h then newSx0 - localDx / rs_w start * 2 else newSx0 in
  let newSx := if handle_has_r h then newSx1 + localDx / rs_w start * 2 else newSx1 in
  let newSy1 := if handle_has_t h then newSy0 - localDy / rs_h start * 2 else newSy0 in
  let newSy := if handle_has_b h then newSy1 + localDy / rs_h start * 2 else newSy1 in
  mkVector2 (JsMath.Math_max (1 # 10) newSx) (JsMath.Math_max (1 # 10) newSy).

End Pointer.

(** [entitiesRef.current.findIndex(e => e.id === key)] *)
Fixpoint find_index (es : list Entity) (key : string) : option nat :=
  match es with
  | [] => None
  | e :: rest =>
      if String.eqb (id e) key then Some O
      else option_map S (find_index rest key)
  end.

(** The entity at the index changed in place. *)
Fixpoint change_at (i : nat) (f : Entity -> Entity) (es : list Entity) : list Entity :=
  match es, i with
  | [], _ => []
  | e :: rest, O => f e :: rest
  | e :: rest, S i' => e :: change_at i' f rest
  end.

(** The three modes of the canvas and what they keep. *)
Record Interaction := mkInteraction {
  isResizing : option Handle;
  resizeStart : ResizeStart;
  isPanning : bool;
  lastPanPos : Vector2;
  isDragging : bool;
  dragOffset : Vector2
}.

(** What the pointer handlers work on: the working copy of the entities,
    the camera offset and the interaction state. *)
Record Editing := mkEditing {
  ed_entities : list Entity;
  cameraOffset : Vector2;
  interaction : Interaction
}.

Section PointerMove.

Context {host : Host}.

(** [handlePointerMove(e)] *)
Definition handlePointerMove (isPlaying isReadOnly : bool)
           (view : option (Canvas * ClientRect)) (scene : Scene)
           (selectedEntityId : option string) (ed : Editing) (ev : PointerEvent)
  : result Editing :=
  let st := interaction ed in
  if isPlaying || isReadOnly then Ok ed
  else
    match isResizing st, selected_id selectedEntityId with
    | Some h, Some sel =>
        match getCanvasCoordinates view scene ev with
        | Throw err => Throw err
        | Ok c =>
            match find_index (ed_entities ed) sel with
            | Some i =>
                Ok (mkEditing
                      (change_at i
                         (fun e =>
                            on_transform
                              (set_scale
                                 (resized_scale h (resizeStart st) e (screenX c) (screenY c)))
                              e)
                         (ed_entities ed))
                      (cameraOffset ed) st)
            | None => Ok ed
            end
        end
    | _, _ =>
        if isPanning st then
          match getCanvasCoordinates view scene ev with
          | Throw err => Throw err
          | Ok c =>
              match view with
              | None => Ok ed
              | Some (canvas, box) =>
                  let dx := clientX c - x (lastPanPos st) in
                  let dy := clientY c - y (lastPanPos st) in
                  let scaleX := cv_width canvas / rect_width box in
                  let scaleY := cv_height canvas / rect_height box in
                  let zoom := zoom_of scene in
                  Ok (mkEditing (ed_entities ed)
                        (mkVector2 (x (cameraOffset ed) - (dx * scaleX) / zoom)
                                   (y (cameraOffset ed) - (dy * scaleY) / zoom))
                        (mkInteraction (isResizing st) (resizeStart st) (isPanning st)
                                       (mkVector2 (clientX c) (clientY c))
                                       (isDragging st) (dragOffset st)))
              end
          end
        else
          match isDragging st, selected_id selectedEntityId with
          | true, Some sel =>
              match getCanvasCoordinates view scene ev with
              | Throw err => Throw err
              | Ok c =>
                  match find_index (ed_entities ed) sel with
                  | Some i =>
                      Ok (mkEditing
                            (change_at i
                               (fun e =>
                                  let camX := x (cameraOffset ed) * parallax_of e in
                                  let camY := y (cameraOffset ed) * parallax_of e in
                                  on_transform
                                    (set_position
                                       (mkVector2 (screenX c - x (dragOffset st) + camX)
                                                  (screenY c - y (dragOffset st) + camY)))
                                    e)
                               (ed_entities ed))
                            (cameraOffset ed) st)
                  | None => Ok ed
                  end
              end
          | _, _ => Ok ed
          end
    end.

End PointerMove.

(** The interaction state after [handlePointerUp()]. *)
Definition handlePointerUp (isPlaying isReadOnly : bool) (st : Interaction) : Interaction :=
  if isPlaying || isReadOnly then st
  else mkInteraction None (resizeStart st) false (lastPanPos st) false (dragOffset st).

(** The interaction state once a pointer-down has started something. *)
Definition begin_interaction (s : Started) (st : Interaction) : Interaction :=
  match s with
  | Nothing => st
  | Resizing h start =>
      mkInteraction (Some h) start (isPanning st) (lastPanPos st) (isDragging st)
                    (dragOffset st)
  | Dragging _ off =>
      mkInteraction (isResizing st) (resizeStart st) (isPanning st) (lastPanPos st)
                    true off
  | Panning pos =>
      mkInteraction (isResizing st) (resizeStart st) true pos (isDragging st)
                    (dragOffset st)
  end.

(** The working copy after [handleWheel(e)]; [deltaY] is the wheel's. *)
Definition handleWheel (isPlaying isReadOnly : bool) (selectedEntityId : option string)
           (es : list Entity) (deltaY : Q) : list Entity :=
  if isPlaying || isReadOnly then es
  else
    match selected_id selectedEntityId with
    | None => es
    | Some sel =>
        match find_index es sel with
        | Some i =>
            let scaleDelta := if Js.gt deltaY 0 then - (1 # 10) else 1 # 10 in
            change_at i
              (fun e =>
                 on_transform
                   (set_scale
                      (mkVector2
                         (JsMath.Math_max (1 # 10) (x (scale (transform e)) + scaleDelta))
                         (JsMath.Math_max (1 # 10) (y (scale (transform e)) + scaleDelta))))
                   e)
              es
        | None => es
        end
    end.

(** ** The object pool ([ObjectPool]) *)

Section ObjectPoolModel.

(** The pooled type, the factory and the reset of the pool.  The factory
    may answer differently each time: [factory n] is what its [n]-th call
    returns.  [reset] changes the object it is given in place; the model
    returns the object as changed. *)
Variable T : Type.
Variable factory : nat -> T.
Variable reset : T -> T.

(** [pool] is the array, first element first; [made] counts the calls of
    the factory so far. *)
Record ObjectPool := mkPool {
  op_pool : list T;
  made : nat
}.

(** The constructor's loop, [initialSize] times [this.pool.push(this.factory())]. *)
Fixpoint pool_fill (n : nat) (p : ObjectPool) : ObjectPool :=
  match n with
  | O => p
  | S k => pool_fill k (mkPool (op_pool p ++ [factory (made p)]) (S (made p)))
  end.

Definition pool_new (initialSize : nat) (made0 : nat) : ObjectPool :=
  pool_fill initialSize (mkPool [] made0).

(** [get()]: the last element of the array, reset, or a new object. *)
Definition pool_take (p : ObjectPool) : T * ObjectPool :=
  match op_pool p with
  | [] => (factory (made p), mkPool [] (S (made p)))
  | first :: rest =>
      (reset (last (op_pool p) first), mkPool (removelast (op_pool p)) (made p))
  end.

(** [release(obj)] *)
Definition pool_release (obj : T) (p : ObjectPool) : ObjectPool :=
  mkPool (op_pool p ++ [obj]) (made p).

(** [k] calls of [get()], with the objects they returned in order. *)
Fixpoint pool_take_many (k : nat) (p : ObjectPool) : list T * ObjectPool :=
  match k with
  | O => ([], p)
  | S k' =>
      let '(obj, p') := pool_take p in
      let '(objs, p'') := pool_take_many k' p' in
      (obj :: objs, p'')
  end.

(** [release] of each object of the list in turn. *)
Fixpoint pool_release_all (objs : list T) (p : ObjectPool) : ObjectPool :=
  match objs with
  | [] => p
  | obj :: rest => pool_release_all rest (pool_release obj p)
  end.

End ObjectPoolModel.

(** ** The input manager ([InputManager]) *)

(** A [Set], in insertion order. *)
Section SetModel.

Variable K : Type.
Variable eqb : K -> K -> bool.

Definition set_has (s : list K) (k : K) : bool := existsb (eqb k) s.

Definition set_add (s : list K) (k : K) : list K :=
  if set_has s k then s else s ++ [k].

Definition set_delete (s : list K) (k : K) : list K :=
  filter (fun k' => negb (eqb k k')) s.

End SetModel.

Arguments set_has {K} eqb s k.
Arguments set_add {K} eqb s k.
Arguments set_delete {K} eqb s k.

Record InputManager := mkInputManager {
  keysDown : list string;
  keysPressed : list string;
  mousePosition : Vector2;
  mouseButtonsDown : list Z;
  mouseButtonsPressed : list Z;
  isEnabled : bool
}.

(** [new InputManager()] *)
Definition new_InputManager : InputManager :=
  mkInputManager [] [] (mkVector2 0 0) [] [] false.

(** What reaches the manager: the window's events and the calls of its
    methods [setEnabled] and [update]. *)
Inductive InputEvent :=
| KeyDown (code : string)
| KeyUp (code : string)
| MouseMove (cx cy : Q)
| MouseDown (btn : Z)
| MouseUp (btn : Z)
| SetEnabled (enabled : bool)
| FrameEnd.

Definition input_step (m : InputManager) (ev : InputEvent) : InputManager :=
  match ev with
  | KeyDown code =>
      if negb (isEnabled m) then m
      else
        mkInputManager (set_add String.eqb (keysDown m) code)
                       (if negb (set_has String.eqb (keysDown m) code)
                        then set_add String.eqb (keysPressed m) code
                        else keysPressed m)
                       (mousePosition m) (mouseButtonsDown m) (mouseButtonsPressed m)
                       (isEnabled m)
  | KeyUp code =>
      if negb (isEnabled m) then m
      else
        mkInputManager (set_delete String.eqb (keysDown m) code) (keysPressed m)
                       (mousePosition m) (mouseButtonsDown m) (mouseButtonsPressed m)
                       (isEnabled m)
  | MouseMove cx cy =>
      if negb (isEnabled m) then m
      else
        mkInputManager (keysDown m) (keysPressed m) (mkVector2 cx cy)
                       (mouseButtonsDown m) (mouseButtonsPressed m) (isEnabled m)
  | MouseDown btn =>
      if negb (isEnabled m) then m
      else
        mkInputManager (keysDown m) (keysPressed m) (mousePosition m)
                       (set_add Z.eqb (mouseButtonsDown m) btn)
                       (if negb (set_has Z.eqb (mouseButtonsDown m) btn)
                        then set_add Z.eqb (mouseButtonsPressed m) btn
                        else mouseButtonsPressed m)
                       (isEnabled m)
  | MouseUp btn =>
      if negb (isEnabled m) then m
      else
        mkInputManager (keysDown m) (keysPressed m) (mousePosition m)
                       (set_delete Z.eqb (mouseButtonsDown m) btn)
                       (mouseButtonsPressed m) (isEnabled m)
  | SetEnabled enabled =>
      if negb enabled
      then mkInputManager [] [] (mousePosition m) [] [] enabled
      else mkInputManager (keysDown m) (keysPressed m) (mousePosition m)
                          (mouseButtonsDown m) (mouseButtonsPressed m) enabled
  | FrameEnd =>
      mkInputManager (keysDown m) [] (mousePosition m) (mouseButtonsDown m) []
                     (isEnabled m)
  end.

Definition input_run (m : InputManager) (evs : list InputEvent) : InputManager :=
  fold_left input_step evs m.

Definition isKeyDown (m : InputManager) (key : string) : bool :=
  isEnabled m && set_has String.eqb (keysDown m) key.

Definition isKeyPressed (m : InputManager) (key : string) : bool :=
  isEnabled m && set_has String.eqb (keysPressed m) key.

Definition isMouseButtonDown (m : InputManager) (btn : Z) : bool :=
  isEnabled m && set_has Z.eqb (mouseButtonsDown m) btn.

Definition isMouseButtonPressed (m : InputManager) (btn : Z) : bool :=
  isEnabled m && set_has Z.eqb (mouseButtonsPressed m) btn.

(** ** The exported page: letterboxing and the camera *)

Definition TARGET_WIDTH : Q := 1920.
Definition TARGET_HEIGHT : Q := 1080.

(** [resizeCanvas()]: the size the canvas is shown at, from the window's. *)
Definition resizeCanvas (innerWidth innerHeight : Q) : Q * Q :=
  let windowRatio := innerWidth / innerHeight in
  let targetRatio := TARGET_WIDTH / TARGET_HEIGHT in
  if Js.lt windowRatio targetRatio
  then (innerWidth, innerWidth / targetRatio)
  else (innerHeight * targetRatio, innerHeight).

(** "Camera follow": [camX], [camY] of the exported page's [loop]. *)
Definition export_camera (scene : Scene) : Vector2 :=
  match camera scene with
  | Some cam =>
      match selected_id (targetId cam) with
      | Some target =>
          match find_entity (entities scene) target with
          | Some e => mkVector2 (x (position (transform e))) (y (position (transform e)))
          | None => mkVector2 0 0
          end
      | None => mkVector2 0 0
      end
  | None => mkVector2 0 0
  end.

(** "Focus camera on selected entity": [cameraOffset.current] after the
    effect that runs when the selection changes. *)
Definition focus_camera (selectedEntityId : option string) (isPlaying isReadOnly : bool)
           (es : list Entity) (cam : Vector2) : Vector2 :=
  match selected_id selectedEntityId with
  | Some sel =>
      if negb isPlaying && negb isReadOnly then
        match find_entity es sel with
        | Some e => mkVector2 (x (position (transform e))) (y (position (transform e)))
        | None => cam
        end
      else cam
  | None => cam
  end.

(** ** The virtual joystick ([TouchControls], and the exported page) *)

Definition maxRadius : Q := 50.

Section Joystick.

Context {host : Host}.

(** The knob's offset after the clamp of [handleJoystickMove], from the
    pointer's offset to the joystick's centre. *)
Definition clamp_knob (dx dy : Q) : Vector2 :=
  let distance := Math_sqrt (dx * dx + dy * dy) in
  if Js.gt distance maxRadius
  then mkVector2 (dx / distance * maxRadius) (dy / distance * maxRadius)
  else mkVector2 dx dy.

(** [handleJoystickMove(e)]: the knob's offset, unchanged when the
    joystick is not held or no touch is in the left half of the window. *)
Definition handleJoystickMove (dragging : bool) (innerWidth : Q) (centre : Vector2)
           (knob : Vector2) (ev : PointerEvent) : Vector2 :=
  if negb dragging then knob
  else
    let client :=
      match ev with
      | MouseAt cx cy => Some (cx, cy)
      | TouchesAt touches => find (fun t => Js.lt (fst t) (innerWidth / 2)) touches
      end in
    match client with
    | None => knob
    | Some (cx, cy) => clamp_knob (cx - x centre) (cy - y centre)
    end.

End Joystick.

(** The input sent on: [{ x: joystickPos.x / maxRadius, y: ..., action }]. *)
Definition joystick_input (knob : Vector2) (pressed : bool) : InputSnapshot :=
  mkInput (x knob / maxRadius) (y knob / maxRadius) pressed.

(** ** The inspector's setters ([Inspector]) *)

(** The scene after the "Fixed Timestep (Hz)" field is given [v]. *)
Definition set_timestep_hz (scene : Scene) (v : Q) : Scene :=
  mkScene (entities scene) (backgroundColor scene) (camera scene)
          (Some (mkPhysicsSettings (1 / JsMath.Math_max 10 (Js.Math_min 240 v)))).

(** The number the field shows. *)
Definition shown_timestep_hz (scene : Scene) : Q :=
  match s_physics scene with
  | Some p =>
      if Js.truthy (fixedTimestep p) then JsMath.Math_round (1 / fixedTimestep p) else 60
  | None => 60
  end.

(** [handleCameraChange('zoom', Math.max(0.1, v))] *)
Definition set_camera_zoom (scene : Scene) (v : Q) : Scene :=
  let cam := match camera scene with
             | Some c => c
             | None => mkCamera (mkVector2 0 0) 1 None (1 # 10)
             end in
  mkScene (entities scene) (backgroundColor scene)
          (Some (mkCamera (c_position cam) (JsMath.Math_max (1 # 10) v)
                          (targetId cam) (lerpSpeed cam)))
          (s_physics scene).

(** [handleChange('renderer', 'cols', Math.max(1, Math.floor(v)))] and
    [handleChange('renderer', 'currentFrame', Math.max(0, Math.floor(v)))]:
    the entity handed to [onUpdateEntity]. *)
Definition set_cols (v : Q) (e : Entity) : Entity :=
  on_renderer
    (fun rd =>
       mkRenderer (r_type rd) (color rd) (width rd) (height rd) (spriteUrl rd) (text rd)
                  (fontSize rd) (Some (JsMath.Math_max 1 (Js.Math_floor v))) (rows rd)
                  (animations rd) (currentAnimation rd) (currentFrame rd)
                  (parallaxFactor rd))
    e.

Definition set_currentFrame (v : Q) (e : Entity) : Entity :=
  on_renderer
    (fun rd =>
       mkRenderer (r_type rd) (color rd) (width rd) (height rd) (spriteUrl rd) (text rd)
                  (fontSize rd) (cols rd) (rows rd) (animations rd) (currentAnimation rd)
                  (Some (JsMath.Math_max 0 (Js.Math_floor v))) (parallaxFactor rd))
    e.

(** ** Scene and asset handlers ([App]) *)

(** [handleUpdateEntity(updatedEntity)] *)
Definition handleUpdateEntity (scene : option Scene) (updated : Entity) : option Scene :=
  option_map
    (fun sc =>
       mkScene (map (fun e => if String.eqb (id e) (id updated) then updated else e)
                    (entities sc))
               (backgroundColor sc) (camera sc) (s_physics sc))
    scene.

(** [handleEntityTransformChange(id, transform)] *)
Definition handleEntityTransformChange (scene : option Scene) (key : string)
           (t : TransformComponent) : option Scene :=
  option_map
    (fun sc =>
       mkScene (map (fun e => if String.eqb (id e) key then set_transform t e else e)
                    (entities sc))
               (backgroundColor sc) (camera sc) (s_physics sc))
    scene.

(** [handleAddAsset(asset)], [handleRemoveAsset(id)] *)
Definition handleAddAsset (assets : list Asset) (a : Asset) : list Asset :=
  (assets ++ [a])%list.

Definition handleRemoveAsset (assets : list Asset) (key : string) : list Asset :=
  filter (fun a => negb (String.eqb (as_id a) key)) assets.

(** ** Drawing the particles ([drawEntity], after its [ctx.restore()]) *)

(** [ctx.globalAlpha = a]: the canvas ignores a value outside [0, 1]. *)
Definition set_globalAlpha (a : Q) (c : Ctx) : Ctx :=
  if Js.le 0 a && Js.le a 1
  then mkCtx (mkDrawState (ds_transform (state c)) (fillStyle (state c)) a) (saved c) (ops c)
  else c.

(** A drawn particle: where the transform of the call puts it, its style,
    radius and alpha. *)
Record ParticleDot := mkDot {
  dot_matrix : Matrix;
  dot_style : string;
  dot_radius : Q;
  dot_alpha : Q
}.

(** The size and the alpha of a particle as it is drawn. *)
Definition particle_size (cfg : ParticleEmitterComponent) (p : Particle) : Q :=
  let progress := 1 - life p / maxLife p in
  sizeStart cfg + (sizeEnd cfg - sizeStart cfg) * progress.

Definition particle_alpha (p : Particle) : Q := life p / maxLife p.

(** The callback of [pool.forEach]: the drawing context after it and the
    dot it drew, by [arc] with the radius [size / 2], which is to be not
    negative. *)
Definition draw_particle (cam : Vector2) (e : Entity) (cfg : ParticleEmitterComponent)
           (p : Particle) (c : Ctx) : Ctx * ParticleDot :=
  let c1 := ctx_save c in
  let camX := x cam * parallax_of e in
  let camY := y cam * parallax_of e in
  let c2 := ctx_translate (p_x p - camX) (p_y p - camY) c1 in
  let c3 := set_globalAlpha (particle_alpha p) (set_fillStyle (colorStart cfg) c2) in
  let dot := mkDot (ds_transform (state c3)) (fillStyle (state c3))
                   (particle_size cfg p / 2) (globalAlpha (state c3)) in
  (ctx_restore c3, dot).

Fixpoint draw_pool (cam : Vector2) (e : Entity) (cfg : ParticleEmitterComponent)
         (pool : list Particle) (c : Ctx) : Ctx * list ParticleDot :=
  match pool with
  | [] => (c, [])
  | p :: rest =>
      let '(c1, dot) := draw_particle cam e cfg p c in
      let '(c2, dots) := draw_pool cam e cfg rest c1 in
      (c2, dot :: dots)
  end.

(** "Draw Particles (in world space)":
    [if (!isUI && entity.particles && particlesRef.current[entity.id])]. *)
Definition draw_particles (cam : Vector2) (e : Entity) (asUI : bool) (pools : PoolMap)
           (c : Ctx) : Ctx * list ParticleDot :=
  if asUI then (c, [])
  else
    match particles e with
    | Some cfg =>
        match pool_get pools (id e) with
        | Some pool => draw_pool cam e cfg pool c
        | None => (c, [])
        end
    | None => (c, [])
    end.

(** The entity [handleAddEntity(type)] makes; [deviceWidth] and
    [deviceHeight] are the selected device's, [uuid] the value of
    [crypto.randomUUID()]. *)
Definition new_entity (type : EntityType) (deviceWidth deviceHeight : Q) (uuid : string)
  : Entity :=
  mkEntity uuid ("New " ++ type_name type)
           (mkTransform (mkVector2 (deviceWidth / 2) (deviceHeight / 2)) 0
                        (mkVector2 1 1) None None)
           None
           (mkRenderer (match type with
                        | particles_t | tilemap_t => rect
                        | t => t
                        end)
                       (match type with
                        | rect => "#06b6d4"
                        | button => "#0ea5e9"
                        | _ => "transparent"
                        end)
                       (match type with button => 120 | _ => 50 end) 50
                       None
                       (match type with button => Some "Button" | _ => None end)
                       (Some 16) None None None None None (Some 1))
           None
           (match type with
            | particles_t =>
                Some (mkEmitter true 100 10 2 (1 # 2) 100 20 (- (90)) 45
                                "#ffaa00" "#ff0000" 10 2)
            | _ => None
            end)
           (match type with
            | tilemap_t =>
                Some (mkTilemap 32 10 10 [mkLayer "Layer 1" (repeat 0 100)] None)
            | _ => None
            end)
           None None.

(** ** What the properties of the rest are stated with *)

(** A particle on its way out: some life left, and not more than it began
    with. *)
Definition fading (p : Particle) : Prop := 0 < life p /\ life p <= maxLife p.

(** The emitter settings under which every particle begins with some life. *)
Definition long_lived (cfg : ParticleEmitterComponent) : Prop :=
  0 <= lifetimeRange cfg /\ lifetimeRange cfg / 2 < lifetime cfg.

(** What a particle of the pool is drawn as, under the transform [base]:
    a dot at its place less the camera's, in the emitter's start colour, as
    opaque as the part of its life it has left, and of a size between the
    emitter's start and end sizes. *)
Definition dot_of (base : Matrix) (cam : Vector2) (e : Entity)
           (cfg : ParticleEmitterComponent) (p : Particle) (d : ParticleDot) : Prop :=
  let place := m_apply base (p_x p - x cam * parallax_of e) (p_y p - y cam * parallax_of e) in
  fst (m_apply (dot_matrix d) 0 0) == fst place
  /\ snd (m_apply (dot_matrix d) 0 0) == snd place
  /\ dot_style d = colorStart cfg
  /\ dot_alpha d = life p / maxLife p
  /\ 0 < dot_alpha d /\ dot_alpha d <= 1
  /\ dot_radius d = particle_size cfg p / 2
  /\ (sizeStart cfg <= sizeEnd cfg ->
      sizeStart cfg <= particle_size cfg p /\ particle_size cfg p <= sizeEnd cfg)
  /\ (sizeEnd cfg <= sizeStart cfg ->
      sizeEnd cfg <= particle_size cfg p /\ particle_size cfg p <= sizeStart cfg).

(** The event releases the key, or disables the manager. *)
Definition lets_go (code : string) (ev : InputEvent) : bool :=
  match ev with
  | KeyUp c => String.eqb c code
  | SetEnabled enabled => negb enabled
  | _ => false
  end.

(** The event empties the sets of what was pressed. *)
Definition clears_pressed (ev : InputEvent) : bool :=
  match ev with
  | FrameEnd => true
  | SetEnabled enabled => negb enabled
  | _ => false
  end.

Definition is_SetEnabled (ev : InputEvent) : bool :=
  match ev with
  | SetEnabled _ => true
  | _ => false
  end.

(** The times of the keyframes go up strictly. *)
Fixpoint ascending (kfs : list Keyframe) : Prop :=
  match kfs with
  | k1 :: rest =>
      match rest with
      | k2 :: _ => time k1 < time k2 /\ ascending rest
      | [] => True
      end
  | [] => True
  end.

(** The interaction state with no mode on. *)
Definition idle (st : Interaction) : Interaction := handlePointerUp false false st.

(** ** More example inputs *)

(** The interaction state of a canvas that has just been mounted. *)
Definition initial_interaction : Interaction :=
  mkInteraction None (mkResizeStart 0 0 0 0 0 0) false (mkVector2 0 0) false (mkVector2 0 0).

(** Two boxes of 50 by 50, at (400, 300) and at (0, 0). *)
Definition two_boxes : list Entity := [example_entity; second_entity].

Definition two_box_scene : Scene := mkScene two_boxes "#1a1a1a" None None.

(** Three keyframes, up to 10 in a second and down to 4 in two more, and
    the example entity animated along them. *)
Definition bend : list Keyframe := [mkKeyframe 0 0; mkKeyframe 1 10; mkKeyframe 3 4].

Definition bend_entity (looping : bool) : Entity :=
  set_propertyAnimations
    (Some [mkAnim "bend" "transform.position.x" bend looping true 0])
    example_entity.

(** The two boxes with a camera at zoom 2 that follows the first. *)
Definition follow_scene : Scene :=
  mkScene two_boxes "#1a1a1a" (Some (mkCamera (mkVector2 0 0) 2 (Some "e1") (1 # 10))) None.

(** A square root rounded up to a whole number: exact on the squares of
    whole numbers. *)
Definition whole_sqrt (a : Q) : Q := inject_Z (Z.sqrt_up (Qceiling a)).

Definition measuring_host : Host :=
  {| fl := fun q => q;
     Engine := nat;
     Engine_update := fun n _ => S n;
     body_of := fun _ _ => None;
     Math_PI := 355 # 113;
     Math_cos := example_cos;
     Math_sin := example_sin;
     Math_sqrt := whole_sqrt;
     Math_random := fun _ => 1 # 2;
     run_script := fun _ e _ _ => (e, None) |}.

(** A sprite of 64 by 64 on a sheet of 256 by 128 that is loaded. *)
Definition sheet_entity : Entity :=
  mkEntity "hero" "Hero"
           (mkTransform (mkVector2 100 100) 0 (mkVector2 1 1) None None)
           None
           (mkRenderer sprite "transparent" 64 64 (Some "hero.png") None (Some 16)
                       None None None None None (Some 1))
           None None None None None.

Definition sheet_cache : ImageCache := [("hero.png", mkImage true 256 128)].

(** The canvas of the default device, shown at half its size. *)
Definition example_canvas : Canvas := mkCanvas 800 600.

Definition example_view : option (Canvas * ClientRect) :=
  Some (example_canvas, mkRect 10 20 400 300).

(** * Properties *)

(** ** Facts about the arithmetic *)

Module JsFacts.

Import Js.

Lemma lt_true a b : lt a b = true <-> a < b.
Proof.
  unfold lt. rewrite negb_true_iff. split; intro H.
  - apply Qnot_le_lt. intro L. apply Qle_bool_iff in L. congruence.
  - destruct (Qle_bool b a) eqn:E; [|reflexivity].
    apply Qle_bool_iff in E. exfalso. apply (Qlt_not_le _ _ H E).
Qed.

Lemma lt_false a b : lt a b = false <-> b <= a.
Proof.
  unfold lt. rewrite negb_false_iff. apply Qle_bool_iff.
Qed.

Lemma le_true a b : le a b = true <-> a <= b.
Proof. apply Qle_bool_iff. Qed.

Lemma le_false a b : le a b = false <-> b < a.
Proof.
  unfold le. split; intro H.
  - apply Qnot_le_lt. intro L. apply Qle_bool_iff in L. congruence.
  - destruct (Qle_bool a b) eqn:E; [|reflexivity].
    apply Qle_bool_iff in E. exfalso. apply (Qlt_not_le _ _ H E).
Qed.

Lemma ge_true a b : ge a b = true <-> b <= a.
Proof. apply le_true. Qed.

Lemma ge_false a b : ge a b = false <-> a < b.
Proof. apply le_false. Qed.

Lemma gt_true a b : gt a b = true <-> b < a.
Proof. apply lt_true. Qed.

Lemma gt_false a b : gt a b = false <-> a <= b.
Proof. apply lt_false. Qed.

Lemma Math_min_nonneg a b : 0 <= a -> 0 <= b -> 0 <= Math_min a b.
Proof. unfold Math_min. destruct (lt b a); auto. Qed.

Lemma inject_nat_succ (k : nat) : num_of_nat (S k) == num_of_nat k + 1.
Proof.
  unfold num_of_nat. rewrite Nat2Z.inj_succ. unfold Z.succ.
  rewrite inject_Z_plus. reflexivity.
Qed.

Lemma num_of_nat_nonneg (k : nat) : 0 <= num_of_nat k.
Proof.
  unfold num_of_nat. change 0 with (inject_Z 0). rewrite <- Zle_Qle. lia.
Qed.

End JsFacts.

(** ** The binary64 rounding *)

Lemma div_nearest_even_nonneg (num den : Z) :
  (0 <= num)%Z -> (0 < den)%Z -> (0 <= div_nearest_even num den)%Z.
Proof.
  intros Hn Hd. unfold div_nearest_even.
  assert (0 <= num / den)%Z by (apply Z.div_pos; assumption).
  destruct (2 * (num mod den) ?= den)%Z; [destruct (Z.even _)| |]; lia.
Qed.

Lemma scaled_sign (a d k : Z) :
  (0 <= a)%Z -> (0 < d)%Z -> (0 <= fst (scaled a d k))%Z /\ (0 < snd (scaled a d k))%Z.
Proof.
  intros Ha Hd. unfold scaled.
  destruct (0 <=? k)%Z eqn:E; cbn [fst snd].
  - apply Z.leb_le in E. split; [|exact Hd].
    apply Z.mul_nonneg_nonneg; [exact Ha|]. apply Z.pow_nonneg. lia.
  - apply Z.leb_gt in E. split; [exact Ha|].
    apply Z.mul_pos_pos; [exact Hd|]. apply Z.pow_pos_nonneg; lia.
Qed.

(** The rounding of a number that is not negative is not negative. *)
Lemma round64_nonneg (q : Q) : 0 <= q -> 0 <= round64 q.
Proof.
  intros Hq. unfold round64.
  destruct (Qnum q =? 0)%Z eqn:E0; [apply Qle_refl|].
  apply Z.eqb_neq in E0.
  assert (Hn : (0 < Qnum q)%Z).
  { unfold Qle in Hq. cbn in Hq. lia. }
  destruct (scaled (Z.abs (Qnum q)) (Z.pos (Qden q)) _) as [n0 d0].
  set (u := Z.max _ _).
  pose proof (scaled_sign (Z.abs (Qnum q)) (Z.pos (Qden q)) (- u)) as Hs.
  destruct (scaled (Z.abs (Qnum q)) (Z.pos (Qden q)) (- u)) as [n1 d1].
  cbn [fst snd] in Hs. destruct Hs as [H1 H2]; [lia | lia |].
  pose proof (div_nearest_even_nonneg n1 d1 H1 H2) as Hm.
  rewrite (Z.sgn_pos _ Hn), Z.mul_1_l.
  rewrite Qred_correct.
  destruct (0 <=? u)%Z eqn:Eu.
  - change 0 with (inject_Z 0). rewrite <- Zle_Qle.
    apply Z.mul_nonneg_nonneg; [exact Hm|]. apply Z.pow_nonneg. lia.
  - unfold Qle. cbn. lia.
Qed.

(** [round64] against the floats of the machine: the literals [0.1],
    [0.02] and [0.5], a quotient, a sum and a chain of differences. *)
Lemma round64_matches_floats :
  Q_of_float 0x1.999999999999ap-4 = Some (round64 (1 # 10))
  /\ Q_of_float 0x1.47ae147ae147bp-6 = Some (round64 (1 # 50))
  /\ Q_of_float 0x1p-1 = Some (round64 (1 # 2))
  /\ Q_of_float (1 / 60) = Some (round64 (1 # 60))
  /\ Q_of_float (0x1.999999999999ap-4 + 0x1.47ae147ae147bp-6)
     = Some (round64 (round64 (1 # 10) + round64 (1 # 50)))
  /\ Q_of_float (0x1.999999999999ap-4 - 0x1.47ae147ae147bp-6 - 0x1.47ae147ae147bp-6)
     = Some (round64 (round64 (round64 (1 # 10) - round64 (1 # 50)) - round64 (1 # 50))).
Proof.
  vm_compute. repeat split; reflexivity.
Qed.

(** ** The fixed-timestep accumulator *)

Section AccumulatorFacts.

Context {host : Host}.

Lemma reduced_succ (fts : Q) (k : nat) :
  forall acc, reduced (S k) fts acc = fl (reduced k fts acc - fts).
Proof.
  induction k as [|k IH]; intros acc; [reflexivity|].
  change (reduced (S (S k)) fts acc) with (reduced (S k) fts (fl (acc - fts))).
  rewrite IH. reflexivity.
Qed.

(** The loop goes on as long as the accumulator is not below the step. *)
Lemma physics_loop_run (fts : Q) (k : nat) :
  forall (fuel : nat) (acc : Q) (en : option Engine) (n : nat),
    (forall i, (i < k)%nat -> fts <= reduced i fts acc) ->
    reduced k fts acc < fts ->
    (k < fuel)%nat ->
    physics_loop fuel fts acc en n
    = Some (reduced k fts acc, advance k (fl (fts * 1000)) en, (k + n)%nat).
Proof.
  induction k as [|k IH]; intros fuel acc en n Hge Hlt Hfuel;
    (destruct fuel as [|fuel]; [lia|]); cbn [physics_loop reduced advance].
  - cbn [reduced] in Hlt. rewrite (proj2 (JsFacts.ge_false acc fts) Hlt). reflexivity.
  - assert (H0 : fts <= acc) by (apply (Hge 0%nat); lia).
    rewrite (proj2 (JsFacts.ge_true acc fts) H0).
    rewrite (IH fuel (fl (acc - fts)) (engine_step (fl (fts * 1000)) en) (S n)).
    + rewrite Nat.add_succ_r. reflexivity.
    + intros i Hi. apply (Hge (S i)). lia.
    + exact Hlt.
    + lia.
Qed.

(** With subtractions that do not round, [k] rounds take [k] steps off. *)
Lemma reduced_exact (fts acc : Q) (k : nat) :
  (forall i, (i < k)%nat -> fl (reduced i fts acc - fts) == reduced i fts acc - fts) ->
  reduced k fts acc == acc - num_of_nat k * fts.
Proof.
  induction k as [|k IH]; intros Hex.
  - cbn [reduced]. change (num_of_nat 0) with 0. ring.
  - rewrite reduced_succ, (Hex k) by lia.
    rewrite IH by (intros i Hi; apply Hex; lia).
    rewrite JsFacts.inject_nat_succ. ring.
Qed.

Lemma floor_quotient_bounds (total fts : Q) :
  0 < fts -> 0 <= total ->
  let n := Z.to_nat (Qfloor (total / fts)) in
  num_of_nat n * fts <= total /\ total < (num_of_nat n + 1) * fts.
Proof.
  intros Hfts Htot n.
  assert (Hq : total == (total / fts) * fts).
  { field. intro E. rewrite E in Hfts. apply (Qlt_irrefl 0 Hfts). }
  assert (Hq0 : 0 <= total / fts).
  { apply Qle_shift_div_l; [exact Hfts | lra]. }
  assert (Hfl : (0 <= Qfloor (total / fts))%Z).
  { change 0%Z with (Qfloor 0). apply Qfloor_resp_le. exact Hq0. }
  assert (Hn : num_of_nat n == inject_Z (Qfloor (total / fts))).
  { unfold num_of_nat, n. rewrite Z2Nat.id by exact Hfl. reflexivity. }
  pose proof (Qfloor_le (total / fts)) as Hlo.
  pose proof (Qlt_floor (total / fts)) as Hhi.
  rewrite inject_Z_plus in Hhi. change (inject_Z 1) with 1 in Hhi.
  rewrite Hn. split.
  - rewrite Hq at 2. apply Qmult_le_compat_r; [exact Hlo | lra].
  - rewrite Hq at 1. apply Qmult_lt_compat_r; [exact Hfts | exact Hhi].
Qed.

Lemma num_of_nat_le (i k : nat) : (i <= k)%nat -> num_of_nat i <= num_of_nat k.
Proof. intros H. unfold num_of_nat. rewrite <- Zle_Qle. lia. Qed.

(** C3, as the code has it.  In a frame of the editor loop while playing,
    with a rounding that keeps a number that is not negative so, a
    remainder [0 <= accumulator] carried in and a frame time [0 <= dt]: the
    accumulator takes the rounded sum of itself and [min(dt, 0.1)].  Then

    - whatever the subtractions round to: if the accumulator is first
      below the fixed timestep after [m] subtractions, the loop ends (any
      fuel above [m] suffices) after exactly [m] rounds, each advancing
      the engine by one fixed timestep (in milliseconds), and the
      remainder carried out satisfies [0 <= accumulator < fixedTimestep];

    - if none of the subtractions rounds, [m] is
      [floor(accumulator / fixedTimestep)] of the accumulator the loop
      starts with, and the remainder is that accumulator less [m] fixed
      timesteps. *)
Theorem fixed_timestep_accumulator
        (scene : Scene) (input : InputSnapshot) (rt : Runtime Engine) (dt : Q)
        (fuel : nat) :
  let fts := fixedTimestep_of scene in
  let total := fl (accumulator rt + Js.Math_min dt (fl (1 # 10))) in
  (forall q, 0 <= q -> 0 <= fl q) ->
  0 <= accumulator rt -> 0 <= dt ->
  (forall m : nat,
      (forall k, (k < m)%nat -> fts <= reduced k fts total) ->
      reduced m fts total < fts ->
      (m < fuel)%nat ->
      physics_loop fuel fts total (engine rt) 0
      = Some (reduced m fts total, advance m (fl (fts * 1000)) (engine rt), m)
      /\ exists rt' c,
          loop_update fuel scene true input dt rt = Some (rt', c)
          /\ engine rt' = advance m (fl (fts * 1000)) (engine rt)
          /\ accumulator rt' = reduced m fts total
          /\ 0 <= accumulator rt' /\ accumulator rt' < fts)
  /\ (let n := Z.to_nat (Qfloor (total / fts)) in
      0 < fts ->
      (forall k, (k < n)%nat ->
                 fl (reduced k fts total - fts) == reduced k fts total - fts) ->
      (n < fuel)%nat ->
      exists rt' c,
        loop_update fuel scene true input dt rt = Some (rt', c)
        /\ engine rt' = advance n (fl (fts * 1000)) (engine rt)
        /\ accumulator rt' == total - num_of_nat n * fts
        /\ 0 <= accumulator rt' /\ accumulator rt' < fts).
Proof.
  intros fts total Hfl Hacc Hdt.
  assert (Htot : 0 <= total).
  { unfold total. apply Hfl.
    assert (H10 : 0 <= fl (1 # 10)) by (apply Hfl; lra).
    pose proof (JsFacts.Math_min_nonneg dt (fl (1 # 10)) Hdt H10). lra. }
  assert (Hgen : forall m : nat,
             (forall k, (k < m)%nat -> fts <= reduced k fts total) ->
             reduced m fts total < fts ->
             (m < fuel)%nat ->
             physics_loop fuel fts total (engine rt) 0
             = Some (reduced m fts total, advance m (fl (fts * 1000)) (engine rt), m)
             /\ exists rt' c,
                 loop_update fuel scene true input dt rt = Some (rt', c)
                 /\ engine rt' = advance m (fl (fts * 1000)) (engine rt)
                 /\ accumulator rt' = reduced m fts total
                 /\ 0 <= accumulator rt' /\ accumulator rt' < fts).
  { intros m Hge Hlt Hfuel.
    pose proof (physics_loop_run fts m fuel total (engine rt) 0%nat Hge Hlt Hfuel) as Heq.
    rewrite Nat.add_0_r in Heq.
    split; [exact Heq|].
    unfold loop_update, update. cbn [negb].
    fold fts. fold total. rewrite Heq.
    destruct (update_entities true (advance m (fl (fts * 1000)) (engine rt)) input
                (Js.Math_min dt (fl (1 # 10))) (r_entities rt) (env rt))
      as [[es env'] c] eqn:Hes.
    eexists. exists c. split; [reflexivity|].
    cbn [engine accumulator].
    refine (conj eq_refl (conj eq_refl (conj _ Hlt))).
    destruct m as [|m]; [exact Htot|].
    rewrite reduced_succ. apply Hfl.
    specialize (Hge m (Nat.lt_succ_diag_r m)). lra. }
  split; [exact Hgen|].
  intros n Hfts Hex Hfuel.
  destruct (floor_quotient_bounds total fts Hfts Htot) as [Hlo Hhi].
  fold n in Hlo, Hhi.
  assert (Hred : forall k, (k <= n)%nat ->
                           reduced k fts total == total - num_of_nat k * fts).
  { intros k Hk. apply reduced_exact. intros i Hi. apply Hex. lia. }
  destruct (Hgen n) as (_ & rt' & c & Hrun & Hen & Hval & H0 & H1).
  - intros k Hk. rewrite (Hred k) by lia.
    assert (Hk1 : num_of_nat (S k) <= num_of_nat n) by (apply num_of_nat_le; lia).
    rewrite JsFacts.inject_nat_succ in Hk1. nra.
  - rewrite (Hred n) by lia. lra.
  - exact Hfuel.
  - exists rt', c. refine (conj Hrun (conj Hen (conj _ (conj H0 H1)))).
    rewrite Hval. apply Hred. lia.
Qed.

End AccumulatorFacts.

(** On binary64 numbers.  At 64 steps a second a frame of 1/16 s on an
    empty accumulator: no subtraction rounds, four steps.  At 50 steps a
    second a frame capped at 0.1 s: the accumulator is first below the
    fixed timestep after four subtractions, four steps. *)
Lemma fixed_timestep_accumulator_witness :
  let rt : Runtime (@Engine double_host) := mkRuntime [] 0 (Some O) empty_env in
  let at64 := mkScene [] "#1a1a1a" None (Some (mkPhysicsSettings (1 # 64))) in
  let at50 := mkScene [] "#1a1a1a" None (Some (mkPhysicsSettings (round64 (1 # 50)))) in
  (exists rt' c,
      @loop_update double_host 10 at64 true no_input (1 # 16) rt = Some (rt', c)
      /\ engine rt' = Some 4%nat
      /\ accumulator rt' == 0)
  /\ (exists rt' c,
         @loop_update double_host 10 at50 true no_input 1 rt = Some (rt', c)
         /\ engine rt' = Some 4%nat
         /\ 0 <= accumulator rt' /\ accumulator rt' < round64 (1 # 50)).
Proof.
  intros rt at64 at50. split.
  - destruct (@fixed_timestep_accumulator double_host at64 no_input rt (1 # 16) 10%nat
                round64_nonneg)
      as [_ Hexact].
    + vm_compute. discriminate.
    + vm_compute. discriminate.
    + destruct Hexact as (rt' & c & Hrun & Hen & Hval & _).
      * reflexivity.
      * intros k Hk. vm_compute in Hk.
        destruct k as [|[|[|[|k]]]]; try lia; vm_compute; reflexivity.
      * vm_compute. lia.
      * exists rt', c. refine (conj Hrun (conj Hen _)).
        rewrite Hval. vm_compute. reflexivity.
  - destruct (@fixed_timestep_accumulator double_host at50 no_input rt 1 10%nat
                round64_nonneg)
      as [Hany _].
    + vm_compute. discriminate.
    + vm_compute. discriminate.
    + destruct (Hany 4%nat) as (_ & rt' & c & Hrun & Hen & _ & H0 & H1).
      * intros k Hk.
        destruct k as [|[|[|[|k]]]]; try lia; vm_compute; discriminate.
      * vm_compute. reflexivity.
      * lia.
      * exists rt', c. refine (conj Hrun (conj Hen (conj H0 H1))).
Defined.

(** C3 as stated fails on binary64 numbers: with the fixed timestep 0.02
    and an empty accumulator, a frame capped at 0.1 s runs the physics loop
    four times, and [floor((0 + min(dt, 0.1)) / 0.02)] is five, whether the
    quotient is taken of the decimal numbers or of the two numbers of the
    format.  The machine's floats agree: [0.1 - 0.02 - 0.02 - 0.02 - 0.02]
    is the accumulator the frame ends with, and it is below [0.02]. *)
Lemma capped_frame_runs_four_steps :
  let fts := round64 (1 # 50) in
  let scene := mkScene [] "#1a1a1a" None (Some (mkPhysicsSettings fts)) in
  let rt : Runtime (@Engine double_host) := mkRuntime [] 0 (Some O) empty_env in
  let run := @loop_update double_host 10 scene true no_input 1 rt in
  @fixedTimestep_of double_host scene = fts
  /\ option_map (fun r => engine (fst r)) run = Some (Some 4%nat)
  /\ Qfloor ((0 + Js.Math_min 1 (round64 (1 # 10))) / fts) = 5%Z
  /\ Qfloor ((0 + Js.Math_min 1 (1 # 10)) / (1 # 50)) = 5%Z
  /\ Z.to_nat 5 <> 4%nat
  /\ Q_of_float 0x1.47ae147ae147bp-6 = Some fts
  /\ Q_of_float 0x1.999999999999ap-4 = Some (round64 (1 # 10))
  /\ Q_of_float (0x1.999999999999ap-4 - 0x1.47ae147ae147bp-6 - 0x1.47ae147ae147bp-6
                 - 0x1.47ae147ae147bp-6 - 0x1.47ae147ae147bp-6)
     = option_map (fun r => accumulator (fst r)) run
  /\ PrimFloat.ltb (0x1.999999999999ap-4 - 0x1.47ae147ae147bp-6 - 0x1.47ae147ae147bp-6
                    - 0x1.47ae147ae147bp-6 - 0x1.47ae147ae147bp-6)
                   0x1.47ae147ae147bp-6 = true.
Proof.
  vm_compute. repeat split; try reflexivity. discriminate.
Qed.

(** ** The particle pool *)

Section ParticleFacts.

Context {host : Host}.

Lemma age_pool_length (dt : Q) (pool : list Particle) :
  (List.length (age_pool dt pool) <= List.length pool)%nat.
Proof.
  induction pool as [|p rest IH]; cbn [age_pool List.length]; [lia|].
  destruct (Js.le (life p - dt) 0); cbn [List.length]; lia.
Qed.

Lemma age_pool_alive (dt : Q) (pool : list Particle) :
  Forall (fun p => 0 < life p) (age_pool dt pool).
Proof.
  induction pool as [|p rest IH]; cbn [age_pool]; [constructor|].
  destruct (Js.le (life p - dt) 0) eqn:E; [exact IH|].
  constructor; [|exact IH]. cbn [life]. apply JsFacts.le_false, E.
Qed.

Lemma within_le (cap : Q) (n n' : nat) : (n' <= n)%nat -> within cap n -> within cap n'.
Proof.
  intros Hle [-> | Hn]; [left; lia|].
  right. apply Qle_lt_trans with (num_of_nat n); [|exact Hn].
  unfold num_of_nat. rewrite <- Zle_Qle. lia.
Qed.

Lemma within_whole (m n : nat) : within (num_of_nat m) n -> (n <= m)%nat.
Proof.
  intros [-> | Hn]; [lia|].
  rewrite <- JsFacts.inject_nat_succ in Hn.
  unfold num_of_nat in Hn. rewrite <- Zlt_Qlt in Hn. lia.
Qed.

Lemma emit_loop_spawned (e : Entity) (cfg : ParticleEmitterComponent) :
  forall (k : nat) (pool : list Particle) (r : nat),
  exists spawned,
    fst (emit_loop k e cfg pool r) = (pool ++ spawned)%list
    /\ (List.length spawned <= k)%nat
    /\ (spawned = []
        \/ num_of_nat (List.length (pool ++ spawned)) < maxParticles cfg + 1).
Proof.
  induction k as [|k IH]; intros pool r; cbn [emit_loop].
  - exists []. rewrite app_nil_r. cbn. repeat split; [lia | left; reflexivity].
  - destruct (Js.lt (pool_length pool) (maxParticles cfg)) eqn:E.
    + apply JsFacts.lt_true in E. unfold pool_length in E. fold (num_of_nat (List.length pool)) in E.
      destruct (IH (pool ++ [spawn e cfg r])%list (r + 3)%nat)
        as (sp & Heq & Hk & Hcap).
      exists (spawn e cfg r :: sp). rewrite Heq.
      rewrite <- app_assoc. cbn [app].
      repeat split; [cbn [List.length]; lia|].
      right. destruct Hcap as [-> | Hcap].
      * rewrite length_app. cbn [List.length]. rewrite Nat.add_1_r.
        rewrite JsFacts.inject_nat_succ. lra.
      * rewrite <- app_assoc in Hcap. exact Hcap.
    + exists []. rewrite app_nil_r. cbn. repeat split; [lia | left; reflexivity].
Qed.

Lemma update_particles_spawned (e : Entity) (cfg : ParticleEmitterComponent)
      (dt : Q) (pool : list Particle) (r : nat) :
  exists spawned,
    fst (update_particles e cfg dt pool r) = (age_pool dt pool ++ spawned)%list
    /\ (List.length spawned
        <= Z.to_nat (Qfloor (emissionRate cfg * dt) + 1))%nat
    /\ (spawned = []
        \/ num_of_nat (List.length (age_pool dt pool ++ spawned)) < maxParticles cfg + 1).
Proof.
  unfold update_particles.
  destruct (emitting cfg).
  - destruct (emit_loop_spawned e cfg
                (Z.to_nat (emit_count cfg dt r)) (age_pool dt pool) (S r))
      as (sp & Heq & Hk & Hcap).
    exists sp. repeat split; try assumption.
    unfold emit_count in Hk.
    destruct (Js.lt (Math_random r)
                    (emissionRate cfg * dt - inject_Z (Qfloor (emissionRate cfg * dt))));
      lia.
  - exists []. rewrite app_nil_r. cbn. repeat split; [lia | left; reflexivity].
Qed.

Lemma update_particles_within (cap : Q) (e : Entity) (cfg : ParticleEmitterComponent)
      (dt : Q) (pool : list Particle) (r : nat) :
  maxParticles cfg == cap ->
  within cap (List.length pool) ->
  within cap (List.length (fst (update_particles e cfg dt pool r))).
Proof.
  intros Hcap Hin.
  destruct (update_particles_spawned e cfg dt pool r) as (sp & Heq & _ & Hsp).
  rewrite Heq. destruct Hsp as [-> | Hlt].
  - rewrite app_nil_r. apply within_le with (List.length pool);
      [apply age_pool_length | exact Hin].
  - right. rewrite <- Hcap. exact Hlt.
Qed.

Lemma run_emitter_within (cap : Q)
      (steps : list (Entity * ParticleEmitterComponent * Q)) :
  Forall (fun s => maxParticles (snd (fst s)) == cap) steps ->
  forall (pool : list Particle) (r : nat),
    within cap (List.length pool) ->
    within cap (List.length (fst (run_emitter steps pool r))).
Proof.
  induction 1 as [|[[e cfg] dt] rest Hcfg _ IH]; intros pool r Hin;
    cbn [run_emitter]; [exact Hin|].
  pose proof (update_particles_within cap e cfg dt pool r Hcfg Hin) as Hstep.
  destruct (update_particles e cfg dt pool r) as [pool' r'].
  apply IH. exact Hstep.
Qed.

(** C2.  An emitter whose [maxParticles] stays the same number [cap]: from
    the empty pool, after any sequence of simulation steps, whatever the
    emission rates, the frame times and the random draws, the pool is empty
    or its length is below [cap + 1]; when [cap] is a whole number [m], the
    pool holds at most [m] particles.  Each step keeps the aged survivors
    (all with [life > 0], never more than before) in front and appends what
    it spawns: at most [floor(emissionRate * dt) + 1] particles, each while
    the length was below the cap. *)
Theorem particle_pool_bounded (cap : Q)
        (steps : list (Entity * ParticleEmitterComponent * Q)) (r0 : nat) :
  Forall (fun s => maxParticles (snd (fst s)) == cap) steps ->
  within cap (List.length (fst (run_emitter steps [] r0)))
  /\ (forall m : nat,
         cap == num_of_nat m ->
         (List.length (fst (run_emitter steps [] r0)) <= m)%nat)
  /\ (forall e cfg dt pool r,
         exists spawned,
           fst (update_particles e cfg dt pool r) = (age_pool dt pool ++ spawned)%list
           /\ Forall (fun p => 0 < life p) (age_pool dt pool)
           /\ (List.length (age_pool dt pool) <= List.length pool)%nat
           /\ (List.length spawned
               <= Z.to_nat (Qfloor (emissionRate cfg * dt) + 1))%nat
           /\ (spawned = []
               \/ num_of_nat (List.length (age_pool dt pool ++ spawned))
                  < maxParticles cfg + 1)).
Proof.
  intros Hcfg.
  assert (Hrun : within cap (List.length (fst (run_emitter steps [] r0)))).
  { apply run_emitter_within; [exact Hcfg | left; reflexivity]. }
  split; [exact Hrun | split].
  - intros m Hm. apply within_whole.
    destruct Hrun as [Hz | Hlt]; [left; exact Hz | right].
    rewrite <- Hm. exact Hlt.
  - intros e cfg dt pool r.
    destruct (update_particles_spawned e cfg dt pool r) as (sp & Heq & Hk & Hcap).
    exists sp. repeat split; try assumption.
    + apply age_pool_alive.
    + apply age_pool_length.
Qed.

End ParticleFacts.

(** Five particles a step are asked for, three are allowed. *)
Lemma particle_pool_bounded_witness :
  let cfg := mkEmitter true 3 100 2 (1 # 2) 100 20 (-90) 45 "#ffaa00" "#ff0000" 10 2 in
  let steps := [(example_entity, cfg, 1 # 20); (example_entity, cfg, 1 # 20)] in
  (List.length (fst (@run_emitter example_host steps [] 0)) <= 3)%nat.
Proof.
  intros cfg steps.
  destruct (@particle_pool_bounded example_host 3 steps 0%nat) as (_ & Hwhole & _).
  - repeat constructor.
  - apply (Hwhole 3%nat). reflexivity.
Defined.

(** C2 as stated fails for a cap that is not a whole number.  With
    [maxParticles] at 2.5 (the field holds whatever number it is given)
    the emission loop still spawns when the pool holds two particles, two
    being below 2.5, and the pool then holds three: more than
    [maxParticles].  So it is after one simulation step of the emitter, and
    after one frame of the editor on a scene with the emitter. *)
Lemma fractional_cap_is_exceeded :
  let cfg := mkEmitter true (5 # 2) 100 2 (1 # 2) 100 20 (-90) 45 "#ffaa00" "#ff0000" 10 2 in
  let emitter := set_particles (Some cfg) example_entity in
  let pool := fst (@run_emitter example_host [(emitter, cfg, 1 # 20)] [] 0) in
  let run :=
    @run_frames example_host 10 (mkScene [emitter] "#1a1a1a" None None)
                [(1 # 20, no_input)] (mkRuntime [emitter] 0 None empty_env) in
  let pool_of_frame :=
    option_map (fun r => option_map (@List.length Particle)
                                    (pool_get (pools (env (fst r))) (id emitter)))
               run in
  List.length pool = 3%nat
  /\ maxParticles cfg < num_of_nat (List.length pool)
  /\ ~ (num_of_nat (List.length pool) <= maxParticles cfg)
  /\ pool_of_frame = Some (Some 3%nat).
Proof.
  vm_compute. repeat split; try reflexivity. intros H. apply H. reflexivity.
Qed.

(** ** Writing through a property path *)

Lemma path_eqb_eq (p q : list string) : path_eqb p q = true -> p = q.
Proof.
  revert q. induction p as [|a p IH]; intros [|b q] H; cbn in H;
    try discriminate; [reflexivity|].
  apply andb_true_iff in H. destruct H as [Hab Hpq].
  apply String.eqb_eq in Hab. apply IH in Hpq. congruence.
Qed.

Ltac field_cases H k :=
  lazymatch type of H with
  | (if path_eqb ?p ?q then _ else _) = Some _ =>
      let E := fresh "E" in
      destruct (path_eqb p q) eqn:E;
      [ apply path_eqb_eq in E; injection H as <-; subst p; k
      | field_cases H k ]
  | None = Some _ => discriminate H
  end.

Ltac unfold_setters :=
  unfold on_transform, on_physics, on_renderer, on_particles, on_tilemap.

Lemma numeric_field_write (parts : list string) (f : Q -> Entity -> Entity) :
  field_setter numeric_fields parts = Some f ->
  forall (e : Entity) (v : Q) (flds : list (string * JsVal)),
    walk (reflect_entity e) (removelast parts) = Ok (VObj flds) ->
    walk (reflect_entity (f v e)) parts = Ok (VNum v)
    /\ (exists flds', walk (reflect_entity (f v e)) (removelast parts) = Ok (VObj flds'))
    /\ propertyAnimations (f v e) = propertyAnimations e
    /\ script (f v e) = script e.
Proof.
  intros H. unfold numeric_fields in H. cbn [field_setter] in H.
  field_cases H
    ltac:(intros e v flds Hw; unfold_setters;
          try (destruct (physics e) eqn:Hp);
          try (destruct (particles e) eqn:Hq);
          try (destruct (tilemap e) eqn:Ht);
          cbn in Hw |- *;
          try rewrite Hp in *; try rewrite Hq in *; try rewrite Ht in *;
          cbn in Hw |- *; try discriminate Hw;
          (split; [reflexivity
                  | split; [eexists; reflexivity | split; reflexivity]])).
Qed.

Lemma numeric_field_parent (parts : list string) (f : Q -> Entity -> Entity) :
  field_setter numeric_fields parts = Some f ->
  forall (e : Entity) (anims : option (list PropertyAnimation)),
    walk (reflect_entity (set_propertyAnimations anims e)) (removelast parts)
    = walk (reflect_entity e) (removelast parts).
Proof.
  intros H. unfold numeric_fields in H. cbn [field_setter] in H.
  field_cases H ltac:(intros e anims; reflexivity).
Qed.

(** Another transform leaves the parent of a numeric field an object. *)
Lemma numeric_field_transform (parts : list string) (f : Q -> Entity -> Entity) :
  field_setter numeric_fields parts = Some f ->
  forall (e : Entity) (t : TransformComponent) (flds : list (string * JsVal)),
    walk (reflect_entity e) (removelast parts) = Ok (VObj flds) ->
    exists flds',
      walk (reflect_entity (set_transform t e)) (removelast parts) = Ok (VObj flds').
Proof.
  intros H. unfold numeric_fields in H. cbn [field_setter] in H.
  field_cases H
    ltac:(intros e t flds Hw;
          first [ eexists; reflexivity
                | exists flds; exact Hw ]).
Qed.

Lemma nth_error_replace_nth {A : Type} (l : list A) (j : nat) (a b : A) :
  nth_error l j = Some a -> nth_error (replace_nth j b l) j = Some b.
Proof.
  revert j. induction l as [|c l IH]; intros [|j] H; cbn in *;
    try discriminate; [reflexivity | apply IH, H].
Qed.

Lemma nth_error_replace_nth_other {A : Type} (l : list A) (j k : nat) (b : A) :
  k <> j -> nth_error (replace_nth j b l) k = nth_error l k.
Proof.
  revert j k. induction l as [|c l IH]; intros [|j] [|k] H; cbn;
    try reflexivity; [contradiction | apply IH; lia].
Qed.

Lemma assignable_inv (e : Entity) (prop : string) :
  assignable e prop = true ->
  exists flds f,
    walk (reflect_entity e) (removelast (split_dots prop EmptyString)) = Ok (VObj flds)
    /\ field_setter numeric_fields (split_dots prop EmptyString) = Some f.
Proof.
  unfold assignable. intros H.
  destruct (walk (reflect_entity e) (removelast (split_dots prop EmptyString)))
    as [[| | | | |flds|]|]; try discriminate.
  destruct (field_setter numeric_fields (split_dots prop EmptyString)) as [f|];
    try discriminate.
  exists flds, f. split; reflexivity.
Qed.

Lemma script_source_script (e e' : Entity) :
  script e' = script e -> script_source e' = script_source e.
Proof. unfold script_source. intros ->. reflexivity. Qed.

(** ** One entity in a frame *)

Section AnimationFacts.

Context {host : Host}.

Lemma advance_cursor_property (dt : Q) (a : PropertyAnimation) :
  property (advance_cursor dt a) = property a
  /\ keyframes (advance_cursor dt a) = keyframes a
  /\ loop (advance_cursor dt a) = loop a.
Proof.
  unfold advance_cursor.
  destruct (Js.gt _ _); [destruct (loop a) eqn:E|]; cbn; rewrite ?E; repeat split.
Qed.

(** One call of the animation callback on a playing animation whose path
    resolves: the cursor advances, the sampled value is written, the path
    resolves again on the entity that results, and the script and the
    other animations are as they were. *)
Lemma animate_at_assignable (strict : bool) (dt : Q) (j : nat) (e : Entity)
      (a : PropertyAnimation) :
  animation_at e j = Some a ->
  playing a = true ->
  (1 < List.length (keyframes a))%nat ->
  assignable e (property a) = true ->
  exists e',
    animate_at strict dt j e = (e', Normal)
    /\ animation_at e' j = Some (advance_cursor dt a)
    /\ assignable e' (property a) = true
    /\ field_value e' (property a) = Some (sample (advance_cursor dt a))
    /\ script e' = script e
    /\ forall k, k <> j -> animation_at e' k = animation_at e k.
Proof.
  intros Hat Hplay Hlen Hassign.
  unfold animation_at in Hat. unfold animate_at.
  destruct (propertyAnimations e) as [anims|] eqn:Hanims; [|discriminate].
  rewrite Hat, Hplay. cbn [andb].
  rewrite (proj2 (Nat.ltb_lt _ _) Hlen).
  destruct (assignable_inv e (property a) Hassign) as (flds & f & Hwalk & Hset).
  set (a' := advance_cursor dt a).
  assert (Hprop : property a' = property a) by apply advance_cursor_property.
  set (e1 := set_propertyAnimations (Some (replace_nth j a' anims)) e).
  assert (Hwalk1 : walk (reflect_entity e1)
                        (removelast (split_dots (property a) EmptyString))
                   = Ok (VObj flds)).
  { unfold e1. rewrite (numeric_field_parent _ f Hset). exact Hwalk. }
  destruct (numeric_field_write _ f Hset e1 (sample a') flds Hwalk1)
    as (Hread & (flds' & Hparent) & Hkeep & Hscript).
  exists (f (sample a') e1).
  unfold apply_value. rewrite Hprop, Hwalk1. cbn [js_truthy]. rewrite Hset.
  refine (conj eq_refl (conj _ (conj _ (conj _ (conj _ _))))).
  - unfold animation_at. rewrite Hkeep. unfold e1.
    cbn [propertyAnimations set_propertyAnimations].
    apply nth_error_replace_nth with a. exact Hat.
  - unfold assignable. rewrite Hparent, Hset. reflexivity.
  - unfold field_value. rewrite Hread. reflexivity.
  - rewrite Hscript. reflexivity.
  - intros k Hk. unfold animation_at. rewrite Hkeep, Hanims. unfold e1.
    cbn [propertyAnimations set_propertyAnimations].
    apply nth_error_replace_nth_other. exact Hk.
Qed.

(** The callback leaves an animation that is not playing, and the entity
    with it, as they are. *)
Lemma animate_at_idle (strict : bool) (dt : Q) (k : nat) (e : Entity) :
  (forall b, animation_at e k = Some b -> playing b = false) ->
  animate_at strict dt k e = (e, Normal).
Proof.
  intros Hidle. unfold animate_at. unfold animation_at in Hidle.
  destruct (propertyAnimations e) as [anims|]; [|reflexivity].
  destruct (nth_error anims k) as [b|]; [|reflexivity].
  rewrite (Hidle b eq_refl). reflexivity.
Qed.

Lemma animate_from_idle (strict : bool) (dt : Q) (count : nat) :
  forall (start : nat) (e : Entity),
    (forall k b, (start <= k)%nat -> animation_at e k = Some b -> playing b = false) ->
    animate_from strict dt count start e = (e, Normal).
Proof.
  induction count as [|count IH]; intros start e Hidle; [reflexivity|].
  cbn [animate_from].
  rewrite animate_at_idle by (intros b Hb; apply (Hidle start b); [lia | exact Hb]).
  apply IH. intros k b Hk. apply Hidle. lia.
Qed.

(** The pass over the animations of an entity on which one animation
    plays alone is the callback on that animation. *)
Lemma animate_from_alone (strict : bool) (dt : Q) (j : nat) (a : PropertyAnimation)
      (count : nat) :
  forall (start : nat) (e : Entity),
    plays_alone e j a ->
    playing a = true ->
    (1 < List.length (keyframes a))%nat ->
    (start <= j)%nat -> (j < start + count)%nat ->
    animate_from strict dt count start e = animate_at strict dt j e.
Proof.
  induction count as [|count IH]; intros start e Halone Hplay Hlen Hlo Hhi; [lia|].
  destruct Halone as (Hat & Hassign & Hsrc & Hothers).
  cbn [animate_from].
  destruct (Nat.eq_dec start j) as [->|Hne].
  - destruct (animate_at_assignable strict dt j e a Hat Hplay Hlen Hassign)
      as (e1 & Hstep & _ & _ & _ & _ & Hkeep).
    rewrite Hstep. apply animate_from_idle.
    intros k b Hk Hb. rewrite Hkeep in Hb by lia.
    apply (Hothers k b); [lia | exact Hb].
  - rewrite animate_at_idle by (intros b Hb; apply (Hothers start b Hne Hb)).
    apply IH; try assumption; try lia.
    refine (conj Hat (conj Hassign (conj Hsrc Hothers))).
Qed.

Lemma sync_physics_keeps (en : option Engine) (e : Entity) :
  propertyAnimations (sync_physics en e) = propertyAnimations e
  /\ script (sync_physics en e) = script e
  /\ forall prop, assignable e prop = true -> assignable (sync_physics en e) prop = true.
Proof.
  unfold sync_physics.
  destruct (physics e); [|repeat split; auto].
  destruct en as [en|]; [|repeat split; auto].
  destruct (body_of en (id e)) as [b|]; [|repeat split; auto].
  refine (conj eq_refl (conj eq_refl _)).
  intros prop Hassign.
  destruct (assignable_inv e prop Hassign) as (flds & f & Hwalk & Hset).
  destruct (numeric_field_transform _ f Hset e
              (mkTransform (mkVector2 (x (b_position b)) (y (b_position b)))
                           (b_angle b * 180 / Math_PI)
                           (scale (transform e)) (isUI (transform e))
                           (anchor (transform e)))
              flds Hwalk) as (flds' & Hwalk').
  unfold assignable. rewrite Hwalk', Hset. reflexivity.
Qed.

Lemma sync_physics_alone (en : option Engine) (e : Entity) (j : nat)
      (a : PropertyAnimation) :
  plays_alone e j a -> plays_alone (sync_physics en e) j a.
Proof.
  intros (Hat & Hassign & Hsrc & Hothers).
  destruct (sync_physics_keeps en e) as (Hanims & Hscript & Hkeep).
  unfold plays_alone, animation_at in *. rewrite Hanims.
  rewrite (script_source_script _ _ Hscript).
  refine (conj Hat (conj (Hkeep _ Hassign) (conj Hsrc Hothers))).
Qed.

(** The callback of an entity on which one animation plays alone returns
    normally; a playing animation has advanced by the frame and written
    its value, one that is not playing is as it was. *)
Lemma update_entity_alone (strict : bool) (en : option Engine) (input : InputSnapshot)
      (dt : Q) (e : Entity) (env0 : Env) (j : nat) (a : PropertyAnimation) :
  plays_alone e j a ->
  (1 < List.length (keyframes a))%nat ->
  exists e' env',
    update_entity strict en input dt e env0 = (e', env', Normal)
    /\ (playing a = true ->
        plays_alone e' j (advance_cursor dt a)
        /\ field_value e' (property a) = Some (sample (advance_cursor dt a)))
    /\ (playing a = false -> plays_alone e' j a).
Proof.
  intros Halone Hlen.
  apply (sync_physics_alone en) in Halone.
  unfold update_entity.
  set (e1 := sync_physics en e) in *.
  set (env1 := step_particles dt e1 env0).
  pose proof Halone as (Hat & Hassign & Hsrc & Hothers).
  assert (Hanims : exists anims, propertyAnimations e1 = Some anims
                                 /\ (j < List.length anims)%nat).
  { unfold animation_at in Hat. destruct (propertyAnimations e1) as [anims|];
      [|discriminate].
    exists anims. split; [reflexivity|]. apply nth_error_Some. congruence. }
  destruct Hanims as (anims & Hanims & Hj).
  unfold update_animations. rewrite Hanims.
  destruct (playing a) eqn:Hplay.
  - rewrite (animate_from_alone strict dt j a (List.length anims) 0 e1 Halone Hplay Hlen)
      by lia.
    destruct (animate_at_assignable strict dt j e1 a Hat Hplay Hlen Hassign)
      as (e2 & Hstep & Hat2 & Hassign2 & Hfield2 & Hscript2 & Hkeep2).
    rewrite Hstep.
    assert (Hsrc2 : script_source e2 = None).
    { rewrite (script_source_script _ _ Hscript2). exact Hsrc. }
    unfold run_custom_script. rewrite Hsrc2.
    eexists. eexists. split; [reflexivity|]. split; [|discriminate].
    intros _. split; [|exact Hfield2].
    destruct (advance_cursor_property dt a) as (Hprop & _ & _).
    unfold plays_alone. rewrite Hprop.
    refine (conj Hat2 (conj Hassign2 (conj Hsrc2 _))).
    intros k b Hk Hb. rewrite Hkeep2 in Hb by exact Hk.
    apply (Hothers k b Hk Hb).
  - rewrite animate_from_idle.
    + unfold run_custom_script. rewrite Hsrc.
      eexists. eexists. split; [reflexivity|]. split; [discriminate|].
      intros _. exact Halone.
    + intros k b _ Hb. destruct (Nat.eq_dec k j) as [->|Hk].
      * rewrite Hat in Hb. injection Hb as <-. exact Hplay.
      * apply (Hothers k b Hk Hb).
Qed.

(** Every entity of the pass is left as it was or as its callback leaves
    it, and a pass that completes has called every callback. *)
Lemma update_entities_nth (strict : bool) (en : option Engine) (input : InputSnapshot)
      (dt : Q) :
  forall (es : list Entity) (env0 : Env) (i : nat) (e : Entity),
    nth_error es i = Some e ->
    let r := update_entities strict en input dt es env0 in
    (exists envi,
        nth_error (fst (fst r)) i
        = Some (fst (fst (update_entity strict en input dt e envi))))
    \/ (snd r <> Normal /\ nth_error (fst (fst r)) i = Some e).
Proof.
  induction es as [|e0 rest IH]; intros env0 i e Hi; [destruct i; discriminate|].
  cbn [update_entities].
  destruct (update_entity strict en input dt e0 env0) as [[e0' env1] c0] eqn:Hstep.
  destruct i as [|i]; cbn [nth_error] in Hi.
  - injection Hi as <-. left. exists env0. rewrite Hstep.
    destruct c0; [|reflexivity..].
    destruct (update_entities strict en input dt rest env1) as [[rest' env2] c].
    reflexivity.
  - destruct c0.
    + specialize (IH env1 i e Hi). cbn zeta in IH.
      destruct (update_entities strict en input dt rest env1) as [[rest' env2] c].
      exact IH.
    + right. split; [discriminate | exact Hi].
    + right. split; [discriminate | exact Hi].
Qed.

(** The same for a call of [update]. *)
Lemma update_nth (fuel : nat) (scene : Scene) (input : InputSnapshot) (dt : Q)
      (rt rt' : Runtime Engine) (c : Completion) (i : nat) (e : Entity) :
  update fuel scene true input dt rt = Some (rt', c) ->
  nth_error (r_entities rt) i = Some e ->
  (exists en envi,
      nth_error (r_entities rt') i
      = Some (fst (fst (update_entity true en input dt e envi))))
  \/ (c <> Normal /\ nth_error (r_entities rt') i = Some e).
Proof.
  intros Hrun Hi. unfold update in Hrun. cbn [negb] in Hrun.
  destruct (physics_loop fuel (fixedTimestep_of scene) (fl (accumulator rt + dt))
              (engine rt) 0) as [[[acc en] n]|]; [|discriminate].
  pose proof (update_entities_nth true en input dt (r_entities rt) (env rt) i e Hi)
    as Hnth.
  cbn zeta in Hnth.
  destruct (update_entities true en input dt (r_entities rt) (env rt))
    as [[es env'] c'].
  injection Hrun as <- <-. cbn [r_entities fst snd] in *.
  destruct Hnth as [(envi & Hnth) | Hnth]; [left; exists en, envi; exact Hnth | right; exact Hnth].
Qed.

(** A call of [update] and an entity on which one animation plays alone:
    the entity is there after the call, as it was or as its callback
    leaves it; after a call that completes, as its callback leaves it. *)
Lemma update_alone (fuel : nat) (scene : Scene) (input : InputSnapshot) (dt : Q)
      (rt rt' : Runtime Engine) (c : Completion) (i j : nat) (e : Entity)
      (a : PropertyAnimation) :
  update fuel scene true input dt rt = Some (rt', c) ->
  nth_error (r_entities rt) i = Some e ->
  plays_alone e j a ->
  (1 < List.length (keyframes a))%nat ->
  exists e',
    nth_error (r_entities rt') i = Some e'
    /\ ((plays_alone e' j a /\ (playing a = true -> c <> Normal))
        \/ (playing a = true
            /\ plays_alone e' j (advance_cursor dt a)
            /\ field_value e' (property a) = Some (sample (advance_cursor dt a)))).
Proof.
  intros Hrun Hi Halone Hlen.
  destruct (update_nth fuel scene input dt rt rt' c i e Hrun Hi)
    as [(en & envi & Hnth) | (Hc & Hnth)].
  - destruct (update_entity_alone true en input dt e envi j a Halone Hlen)
      as (e' & env' & Hstep & Hplaying & Hidle).
    rewrite Hstep in Hnth. cbn [fst] in Hnth.
    exists e'. split; [exact Hnth|].
    destruct (playing a) eqn:Hplay.
    + right. destruct (Hplaying eq_refl) as [H1 H2]. exact (conj eq_refl (conj H1 H2)).
    + left. split; [apply Hidle; reflexivity | discriminate].
  - exists e. split; [exact Hnth|]. left. split; [exact Halone | intros _; exact Hc].
Qed.

(** ** The ramp *)









End AnimationFacts.






(** ** Faults in a frame *)

(** C1 fails on the code.  The first entity's animation has the path
    [a.b.c]; the entity has no [a], so the walk reads [b] of [undefined] and
    throws a [TypeError], which nothing between the walk and the frame
    callback catches.  In the editor ([strict = true]) and in the exported
    page alike the entity pass ends there: the second entity is left as it
    was, its cursor still at 0, where a completed pass puts it at 1/60.  The
    editor's run of frames ends with the first frame; the exported page goes
    on to the next frame, which throws again. *)
Theorem unresolved_path_aborts_frame :
  let undefined_read := Thrown (TypeError "Cannot read properties of undefined") in
  let scene := mkScene [broken_entity; second_entity] "#1a1a1a" None None in
  let editor :=
    @update_entities example_host true None no_input (1 # 60)
                     [broken_entity; second_entity] empty_env in
  let exported :=
    @update_entities example_host false None no_input (1 # 60)
                     [broken_entity; second_entity] empty_env in
  let alone :=
    @update_entities example_host true None no_input (1 # 60)
                     [second_entity] empty_env in
  let run :=
    @run_frames example_host 10 scene [(1 # 60, no_input); (1 # 60, no_input)]
                (mkRuntime [broken_entity; second_entity] 0 None empty_env) in
  let exported_run :=
    @export_run_frames example_host 10 scene [(1 # 60, no_input); (1 # 60, no_input)]
                       (mkRuntime [broken_entity; second_entity] 0 None empty_env) in
  snd editor = undefined_read
  /\ nth_error (fst (fst editor)) 1 = Some second_entity
  /\ snd exported = undefined_read
  /\ nth_error (fst (fst exported)) 1 = Some second_entity
  /\ snd alone = Normal
  /\ option_map (fun e => option_map currentTime (animation_at e 0))
                (nth_error (fst (fst alone)) 0)
     = Some (Some (0 + (1 # 60)))
  /\ option_map snd run = Some undefined_read
  /\ option_map (fun r => nth_error (r_entities (fst r)) 1) run
     = Some (Some second_entity)
  /\ option_map snd exported_run = Some [undefined_read; undefined_read]
  /\ option_map (fun r => nth_error (r_entities (fst r)) 1) exported_run
     = Some (Some second_entity).
Proof.
  vm_compute. repeat split; reflexivity.
Qed.

(** C5 fails on the code, in the editor.  The script of the first entity
    throws an object that contains itself.  The catch handler calls
    [console.error], which in the editor is the function [App] installs:
    it prints, and then makes the message of the log panel with
    [JSON.stringify] of the thrown object, which throws a [TypeError] out
    of the handler.  The entity pass ends there: the error was printed
    once, the second entity is left as it was, its cursor still at 0, and
    the editor's run of frames ends with the first frame.  With a script
    that throws an [Error] both frames complete, each prints one error,
    and the cursor of the second entity advances by both frames; and so
    it is in the exported page, whose [console.error] is the browser's,
    whatever the script throws. *)
Theorem cyclic_throw_aborts_editor_frame :
  let cyclic := scripted_entity "const o = {}; o.self = o; throw o" in
  let plain := scripted_entity "throw new Error('always')" in
  let refused := Thrown (TypeError "Converting circular structure to JSON") in
  let frames := [(1 # 64, no_input); (1 # 64, no_input)] in
  let start (es : list Entity) : Runtime (@Engine double_host) :=
    mkRuntime es 0 None empty_env in
  let scene (es : list Entity) := mkScene es "#1a1a1a" None None in
  let editor (es : list Entity) :=
    @run_frames double_host 10 (scene es) frames (start es) in
  let exported (es : list Entity) :=
    @export_run_frames double_host 10 (scene es) frames (start es) in
  let second (rt : Runtime (@Engine double_host)) := nth_error (r_entities rt) 1 in
  let cursor (rt : Runtime (@Engine double_host)) :=
    option_map (fun e => option_map currentTime (animation_at e 0)) (second rt) in
  let printed (rt : Runtime (@Engine double_host)) :=
    map payload (console (env rt)) in
  option_map snd (editor [cyclic; second_entity]) = Some refused
  /\ option_map (fun r => printed (fst r)) (editor [cyclic; second_entity])
     = Some [Some CyclicObject]
  /\ option_map (fun r => second (fst r)) (editor [cyclic; second_entity])
     = Some (Some second_entity)
  /\ option_map snd (editor [plain; second_entity]) = Some Normal
  /\ option_map (fun r => printed (fst r)) (editor [plain; second_entity])
     = Some [Some (ScriptError "always"); Some (ScriptError "always")]
  /\ option_map (fun r => cursor (fst r)) (editor [plain; second_entity])
     = Some (Some (Some (1 # 32)))
  /\ option_map snd (exported [cyclic; second_entity]) = Some [Normal; Normal]
  /\ option_map (fun r => printed (fst r)) (exported [cyclic; second_entity])
     = Some [Some CyclicObject; Some CyclicObject]
  /\ option_map (fun r => cursor (fst r)) (exported [cyclic; second_entity])
     = Some (Some (Some (1 # 32))).
Proof.
  vm_compute. repeat split; reflexivity.
Qed.

(** ** Prefabs *)

Lemma find_app_none {A : Type} (f : A -> bool) (l l' : list A) :
  find f l = None -> find f (l ++ l') = find f l'.
Proof.
  induction l as [|a l IH]; cbn; [reflexivity|].
  destruct (f a); [discriminate | exact IH].
Qed.

(** C8, as the code has it.  Saving the entity found under an id as a
    prefab under a fresh asset id, then instantiating that prefab, appends
    one entity to the scene: it has the new id, the name of the original
    followed by " (Instance)", the asset's id as prefab id, the position of
    the original moved by (20, 20), and every other component of the
    original unchanged. *)
Theorem prefab_round_trip (sc : Scene) (assets : list Asset) (e : Entity)
        (assetId newId : string) :
  find (fun e' => String.eqb (id e') (id e)) (entities sc) = Some e ->
  find (fun a => String.eqb (as_id a) assetId) assets = None ->
  let assets' := handleSavePrefab (Some sc) assets (id e) assetId in
  exists inst,
    handleInstantiatePrefab (Some sc) assets' assetId newId
    = Some (mkScene (entities sc ++ [inst]) (backgroundColor sc) (camera sc)
                    (s_physics sc))
    /\ id inst = newId
    /\ name inst = name e ++ " (Instance)"
    /\ prefabId inst = Some assetId
    /\ offset_by_20 e inst
    /\ same_components e inst.
Proof.
  intros Hfind Hfresh assets'.
  exists (instantiate (strip_id e) assetId newId).
  unfold assets', handleSavePrefab, handleInstantiatePrefab.
  rewrite Hfind, (find_app_none _ _ _ Hfresh). cbn [find as_id].
  rewrite String.eqb_refl. cbn [as_data option_map].
  repeat split.
Qed.

Lemma prefab_round_trip_witness :
  let sc := mkScene [example_entity; second_entity] "#1a1a1a" None None in
  exists inst,
    handleInstantiatePrefab (Some sc) (handleSavePrefab (Some sc) [] "e2" "asset-1")
                            "asset-1" "e3"
    = Some (mkScene [example_entity; second_entity; inst] "#1a1a1a" None None)
    /\ id inst = "e3"
    /\ name inst = "Slider (Instance)"
    /\ prefabId inst = Some "asset-1"
    /\ offset_by_20 second_entity inst
    /\ same_components second_entity inst.
Proof.
  intros sc.
  apply (prefab_round_trip sc [] second_entity "asset-1" "e3"); reflexivity.
Defined.

(** C8 as stated fails: the instance of the second example entity is
    named "Slider (Instance)", not "Slider", and carries the asset's id as
    its prefab id, where the original has none. *)
Lemma instance_is_renamed_and_tagged :
  let sc := mkScene [example_entity; second_entity] "#1a1a1a" None None in
  let inst := instantiate (strip_id second_entity) "asset-1" "e3" in
  handleInstantiatePrefab (Some sc) (handleSavePrefab (Some sc) [] "e2" "asset-1")
                          "asset-1" "e3"
  = Some (mkScene [example_entity; second_entity; inst] "#1a1a1a" None None)
  /\ name inst = "Slider (Instance)"
  /\ prefabId inst = Some "asset-1"
  /\ prefabId second_entity = None
  /\ ~ copy_but_id_and_offset second_entity inst.
Proof.
  cbv zeta. repeat split.
  intros (Hname & _). cbn in Hname. discriminate Hname.
Qed.

(** ** Where a UI entity is drawn *)

(** [save(); restore(); save()] is [save()]: the [restore] in [drawEntity]
    pops what its own first [save] pushed, the camera transform. *)
Lemma save_restore_save (c : Ctx) : ctx_save (ctx_restore (ctx_save c)) = ctx_save c.
Proof. reflexivity. Qed.

Section PlacementFacts.

Context {host : Host}.

(** A UI entity is put at its anchored position in the coordinates of the
    transform in effect when [drawEntity] is called. *)
Lemma place_ui_origin (canvas : Canvas) (cam : Vector2) (e : Entity) (c : Ctx) :
  let p := anchored canvas (anchor (transform e))
                    (x (position (transform e))) (y (position (transform e))) in
  let placed := place_entity canvas cam e true c in
  m_e (ds_transform (state placed))
  = fst (m_apply (ds_transform (state c)) (fst p) (snd p))
  /\ m_f (ds_transform (state placed))
     = snd (m_apply (ds_transform (state c)) (fst p) (snd p)).
Proof.
  unfold place_entity. rewrite save_restore_save.
  destruct (anchored canvas (anchor (transform e)) (x (position (transform e)))
                     (y (position (transform e)))) as [px py].
  split; reflexivity.
Qed.

End PlacementFacts.

(** C4 fails on the code.  On an 800 by 600 canvas the UI entity anchored
    bottom-right at (-10, -10) is drawn second, after the background, with
    its origin at canvas pixel (1190, 890) at zoom 1 and at (1980, 1480) at
    zoom 2: the anchored position (790, 590) taken in camera coordinates,
    not in screen coordinates.  The camera offset alone has no effect. *)
Theorem ui_entity_is_drawn_under_camera :
  let canvas := mkCanvas 800 600 in
  let origin (z : Q) (cam : Vector2) :=
    option_map op_origin
               (nth_error
                  (ops (fst (@draw example_host canvas (scene_at_zoom z) cam
                                   [hud_entity] [] fresh_ctx)))
                  1) in
  option_map (point_eqb (1190, 890)) (origin 1 (mkVector2 0 0)) = Some true
  /\ option_map (point_eqb (790, 590)) (origin 1 (mkVector2 0 0)) = Some false
  /\ option_map (point_eqb (1980, 1480)) (origin 2 (mkVector2 0 0)) = Some true
  /\ option_map (point_eqb (1190, 890)) (origin 1 (mkVector2 400 300)) = Some true.
Proof.
  vm_compute. repeat split; reflexivity.
Qed.

(** ** Tilemaps *)

Lemma trunc_comp (a a' : Q) : a == a' -> Js.trunc a = Js.trunc a'.
Proof.
  intros H. unfold Js.trunc, Js.lt.
  rewrite (Qleb_comp 0 0 (Qeq_refl 0) a a' H).
  rewrite (Qfloor_comp a a' H), (Qceiling_comp a a' H). reflexivity.
Qed.

Lemma rem_comp (a a' b b' : Q) : a == a' -> b == b' -> Js.rem a b == Js.rem a' b'.
Proof.
  intros Ha Hb. unfold Js.rem.
  assert (Hq : a / b == a' / b') by (rewrite Ha, Hb; reflexivity).
  rewrite (trunc_comp _ _ Hq), Ha, Hb. reflexivity.
Qed.

Lemma floor_quotient (a b : Z) : Qfloor (inject_Z a / inject_Z b) = (a / b)%Z.
Proof. symmetry. apply Zdiv_Qdiv. Qed.

(** [a % b] on whole numbers, [a] not negative and [b] positive. *)
Lemma rem_whole (a b : Z) :
  (0 <= a)%Z -> (0 < b)%Z -> Js.rem (inject_Z a) (inject_Z b) == inject_Z (a mod b).
Proof.
  intros Ha Hb. unfold Js.rem, Js.trunc.
  assert (Hq : 0 <= inject_Z a / inject_Z b).
  { apply Qle_shift_div_l.
    - change 0 with (inject_Z 0). rewrite <- Zlt_Qlt. exact Hb.
    - rewrite Qmult_0_l. change 0 with (inject_Z 0). rewrite <- Zle_Qle. exact Ha. }
  rewrite (proj2 (JsFacts.lt_false _ _) Hq), floor_quotient.
  rewrite Z.mod_eq by lia.
  unfold Zminus. rewrite inject_Z_plus, inject_Z_opp, inject_Z_mult. ring.
Qed.

Lemma draw_cells_ops (t : TilemapComponent) (url : string) (img : Image)
      (cells : list Q) :
  forall (i : nat) (c : Ctx),
    ops (draw_cells t url img i cells c)
    = (ops c ++ cell_ops t url img (ds_transform (state c)) i cells)%list
    /\ state (draw_cells t url img i cells c) = state c.
Proof.
  induction cells as [|n rest IH]; intros i c; cbn [draw_cells cell_ops].
  - rewrite app_nil_r. split; reflexivity.
  - destruct (tile_draw t url img (ds_transform (state c)) i n) as [op|].
    + destruct (IH (S i) (emit op c)) as [Hops Hstate].
      rewrite Hops, Hstate. cbn [emit ops state].
      rewrite <- app_assoc. split; reflexivity.
    + apply IH.
Qed.

(** The layers are drawn one after the other, each from its first cell,
    all under the transform the loop starts with. *)
Lemma draw_layers_ops (t : TilemapComponent) (url : string) (img : Image)
      (ls : list TilemapLayer) :
  forall c : Ctx,
    ops (draw_layers t url img ls c)
    = (ops c ++ layer_ops t url img (ds_transform (state c)) ls)%list
    /\ state (draw_layers t url img ls c) = state c.
Proof.
  induction ls as [|l rest IH]; intros c; cbn [draw_layers layer_ops flat_map].
  - rewrite app_nil_r. split; reflexivity.
  - destruct (draw_cells_ops t url img (data l) 0 c) as [Hops Hstate].
    destruct (IH (draw_cells t url img 0 (data l) c)) as [Hops' Hstate'].
    rewrite Hops', Hstate', Hops, Hstate, <- app_assoc. split; reflexivity.
Qed.

(** The drawing of a cell is among the drawings of its layer. *)
Lemma cell_ops_nth (t : TilemapComponent) (url : string) (img : Image) (m : Matrix)
      (cells : list Q) :
  forall (i0 i : nat) (n : Q) (op : DrawOp),
    nth_error cells i = Some n ->
    tile_draw t url img m (i0 + i) n = Some op ->
    In op (cell_ops t url img m i0 cells).
Proof.
  induction cells as [|n0 rest IH]; intros i0 i n op Hnth Hop; [destruct i; discriminate|].
  cbn [cell_ops]. destruct i as [|i]; cbn [nth_error] in Hnth.
  - injection Hnth as ->. rewrite Nat.add_0_r in Hop. rewrite Hop. left. reflexivity.
  - assert (Hin : In op (cell_ops t url img m (S i0) rest)).
    { apply (IH (S i0) i n op Hnth). rewrite Nat.add_succ_comm. exact Hop. }
    destruct (tile_draw t url img m i0 n0); [right|]; exact Hin.
Qed.

Section TilemapFacts.

Context {host : Host}.

(** The shape is drawn without a change to the transform, and an image
    the cache has stays in the cache. *)
Lemma draw_shape_keeps (e : Entity) (cache : ImageCache) (c : Ctx) (url : string)
      (img : Image) :
  ds_transform (state (fst (draw_shape e cache c))) = ds_transform (state c)
  /\ (cache_get cache url = Some img ->
      cache_get (snd (draw_shape e cache c)) url = Some img).
Proof.
  unfold draw_shape.
  destruct (r_type (renderer e)); try (split; [reflexivity | auto]).
  - destruct (spriteUrl (renderer e)) as [u|]; [|split; [reflexivity | auto]].
    destruct (negb (String.eqb u "")); [|split; [reflexivity | auto]].
    destruct (cache_get cache u) as [i|] eqn:Hu.
    + destruct (complete i); split; try reflexivity; auto.
    + split; [reflexivity|]. intros Hurl. cbn [snd cache_request cache_get].
      destruct (String.eqb url u) eqn:E; [|exact Hurl].
      apply String.eqb_eq in E. subst u. congruence.
  - destruct (text (renderer e)) as [label|]; [|split; [reflexivity | auto]].
    destruct (negb (String.eqb label "")); split; try reflexivity; auto.
Qed.

Lemma ctx_restore_ops (c : Ctx) : ops (ctx_restore c) = ops c.
Proof. unfold ctx_restore. destruct (saved c); reflexivity. Qed.

(** C10.  An entity with a tilemap of a whole number [n_cols > 0] of
    columns whose tileset image is in the cache and loaded,
    [n_per_row = floor(width / tileSize) > 0] tiles wide, drawn with a
    cache that holds no broken image (and with a radius that is not
    negative if its shape is a circle).  What
    [drawEntity] draws is the entity's shape and then the layers of the
    tilemap in order, each layer cell by cell from cell 0, all under the
    transform the entity is placed with (its position as the origin).  A
    cell holding 0 (or less) draws nothing.  Cell [i] of a layer holding
    the whole number [k > 0] is drawn, by one [drawImage] of the
    tile-sized square of the tileset at column [(k - 1) mod n_per_row] and
    row [(k - 1) / n_per_row], that is source tile [k - 1] in row-major
    order, to the tile-sized square at grid column [i mod n_cols] and grid
    row [i / n_cols], the grid moved by minus half of [columns * tileSize]
    and of [rows * tileSize]. *)
Theorem tile_draw_row_major (canvas : Canvas) (cam : Vector2) (e : Entity)
        (asUI : bool) (cache : ImageCache) (c : Ctx)
        (t : TilemapComponent) (url : string) (img : Image)
        (n_cols n_per_row : Z) :
  circle_fits e -> no_broken_image cache ->
  tilemap e = Some t ->
  tilesetUrl t = Some url -> url <> "" ->
  cache_get cache url = Some img -> complete img = true ->
  columns t == inject_Z n_cols -> (0 < n_cols)%Z ->
  Qfloor (img_width img / tileSize t) = n_per_row -> (0 < n_per_row)%Z ->
  let placed := place_entity canvas cam e asUI c in
  let m := ds_transform (state placed) in
  let drawn := ops (fst (drawEntity canvas cam e asUI cache c)) in
  drawn = (ops (fst (draw_shape e cache placed)) ++ layer_ops t url img m (layers t))%list
  /\ (forall (i : nat) (n : Q), n <= 0 -> tile_draw t url img m i n = None)
  /\ (forall (l : TilemapLayer) (i : nat) (k : Z),
         In l (layers t) ->
         nth_error (data l) i = Some (inject_Z k) ->
         (0 < k)%Z ->
         exists tx ty dx dy,
           tile_draw t url img m i (inject_Z k)
           = Some (DrawImage m url tx ty (tileSize t) (tileSize t)
                             dx dy (tileSize t) (tileSize t))
           /\ In (DrawImage m url tx ty (tileSize t) (tileSize t)
                            dx dy (tileSize t) (tileSize t)) drawn
           /\ tx == inject_Z ((k - 1) mod n_per_row) * tileSize t
           /\ ty == inject_Z ((k - 1) / n_per_row) * tileSize t
           /\ dx == - ((columns t * tileSize t) / 2)
                    + inject_Z (Z.of_nat i mod n_cols) * tileSize t
           /\ dy == - ((t_rows t * tileSize t) / 2)
                    + inject_Z (Z.of_nat i / n_cols) * tileSize t).
Proof.
  intros _ _ Ht Hurl Hne Hcache Hcomplete Hcols Hcpos Htpr Htpos placed m drawn.
  assert (Hdrawn : drawn
                   = (ops (fst (draw_shape e cache placed))
                      ++ layer_ops t url img m (layers t))%list).
  { unfold drawn, drawEntity. fold placed.
    destruct (draw_shape_keeps e cache placed url img) as [Hm Hkeep].
    specialize (Hkeep Hcache).
    destruct (draw_shape e cache placed) as [c2 cache1]. cbn [fst snd] in *.
    unfold draw_tilemap. rewrite Ht, Hurl.
    assert (Hurl' : negb (String.eqb url "") = true).
    { apply negb_true_iff. apply String.eqb_neq. exact Hne. }
    rewrite Hurl', Hkeep, Hcomplete. cbn [fst].
    rewrite ctx_restore_ops.
    destruct (draw_layers_ops t url img (layers t) c2) as [Hops _].
    rewrite Hops, Hm. reflexivity. }
  split; [exact Hdrawn | split].
  - intros i n Hn. unfold tile_draw.
    rewrite (proj2 (JsFacts.gt_false n 0) Hn). reflexivity.
  - intros l i k Hl Hcell Hk.
    assert (Hop : exists tx ty dx dy,
               tile_draw t url img m i (inject_Z k)
               = Some (DrawImage m url tx ty (tileSize t) (tileSize t)
                                 dx dy (tileSize t) (tileSize t))
               /\ tx == inject_Z ((k - 1) mod n_per_row) * tileSize t
               /\ ty == inject_Z ((k - 1) / n_per_row) * tileSize t
               /\ dx == - ((columns t * tileSize t) / 2)
                        + inject_Z (Z.of_nat i mod n_cols) * tileSize t
               /\ dy == - ((t_rows t * tileSize t) / 2)
                        + inject_Z (Z.of_nat i / n_cols) * tileSize t).
    { unfold tile_draw.
      assert (Hkq : 0 < inject_Z k).
      { change 0 with (inject_Z 0). rewrite <- Zlt_Qlt. exact Hk. }
      rewrite (proj2 (JsFacts.gt_true (inject_Z k) 0) Hkq).
      unfold Js.Math_floor. rewrite Htpr.
      assert (Hk1 : inject_Z k - 1 == inject_Z (k - 1)).
      { unfold Zminus. rewrite inject_Z_plus, inject_Z_opp. reflexivity. }
      do 4 eexists. split; [reflexivity|]. repeat split.
      + rewrite (rem_comp _ _ _ _ Hk1 (Qeq_refl _)).
        rewrite rem_whole by lia. reflexivity.
      + assert (Hq : (inject_Z k - 1) / inject_Z n_per_row
                     == inject_Z (k - 1) / inject_Z n_per_row)
          by (rewrite Hk1; reflexivity).
        rewrite (Qfloor_comp _ _ Hq), floor_quotient. reflexivity.
      + unfold num_of_nat. rewrite (rem_comp _ _ _ _ (Qeq_refl _) Hcols).
        rewrite rem_whole by lia. reflexivity.
      + unfold num_of_nat.
        assert (Hq : inject_Z (Z.of_nat i) / columns t
                     == inject_Z (Z.of_nat i) / inject_Z n_cols)
          by (rewrite Hcols; reflexivity).
        rewrite (Qfloor_comp _ _ Hq), floor_quotient. reflexivity. }
    destruct Hop as (tx & ty & dx & dy & Hop & Hx & Hy & Hdx & Hdy).
    exists tx, ty, dx, dy.
    refine (conj Hop (conj _ (conj Hx (conj Hy (conj Hdx Hdy))))).
    rewrite Hdrawn. apply in_or_app. right.
    unfold layer_ops. apply in_flat_map. exists l. split; [exact Hl|].
    apply (cell_ops_nth t url img m (data l) 0 i (inject_Z k)); assumption.
Qed.

End TilemapFacts.

(** The example map at (400, 300), not UI, no camera offset: its cell 1
    holds 6 and is drawn from the tileset's second column and second row
    to the square at (-128, -160) of the entity, which is (272, 140) on
    the canvas. *)
Lemma tile_draw_row_major_witness :
  let img := mkImage true 128 64 in
  let cache := [("tiles.png", img)] in
  let canvas := mkCanvas 800 600 in
  let cam := mkVector2 0 0 in
  let drawn :=
    ops (fst (@drawEntity example_host canvas cam map_entity false cache fresh_ctx)) in
  exists m tx ty dx dy,
    In (DrawImage m "tiles.png" tx ty 32 32 dx dy 32 32) drawn
    /\ tx == 32 /\ ty == 32 /\ dx == - (128) /\ dy == - (160)
    /\ point_eqb (m_apply m (- (128)) (- (160))) (272, 140) = true.
Proof.
  intros img cache canvas cam drawn.
  destruct (@tile_draw_row_major example_host canvas cam map_entity false cache fresh_ctx
              example_tilemap "tiles.png" img 10%Z 4%Z)
    as (_ & _ & Htile).
  - discriminate.
  - intros u i Hu _. cbn [cache_get cache] in Hu.
    destruct (String.eqb u "tiles.png"); [|discriminate].
    injection Hu as <-. split; reflexivity.
  - reflexivity.
  - reflexivity.
  - discriminate.
  - reflexivity.
  - reflexivity.
  - reflexivity.
  - lia.
  - reflexivity.
  - lia.
  - destruct (Htile (mkLayer "Layer 1" [0; 6; 1]) 1%nat 6%Z)
      as (tx & ty & dx & dy & _ & Hin & Hx & Hy & Hdx & Hdy).
    + left. reflexivity.
    + reflexivity.
    + lia.
    + eexists. exists tx, ty, dx, dy.
      split; [exact Hin|].
      split; [rewrite Hx; reflexivity|]. split; [rewrite Hy; reflexivity|].
      split; [rewrite Hdx; reflexivity|]. split; [rewrite Hdy; reflexivity|].
      vm_compute. reflexivity.
Defined.

(** ** Hit-testing *)







Section HitFacts.

Context {host : Host}.



End HitFacts.



(** * Properties of the rest of the code *)

(** ** More facts about the arithmetic *)

Lemma floor_between (q : Q) (z : Z) :
  inject_Z z <= q -> q < inject_Z z + 1 -> Qfloor q = z.
Proof.
  intros Hlo Hhi.
  assert (H1 : (Qfloor q < z + 1)%Z).
  { rewrite Zlt_Qlt, inject_Z_plus. change (inject_Z 1) with 1.
    apply Qle_lt_trans with q; [apply Qfloor_le | exact Hhi]. }
  assert (H2 : (z < Qfloor q + 1)%Z).
  { rewrite Zlt_Qlt. apply Qle_lt_trans with q; [exact Hlo | apply Qlt_floor]. }
  lia.
Qed.

Lemma Math_max_ge_l (a b : Q) : a <= JsMath.Math_max a b.
Proof.
  unfold JsMath.Math_max. destruct (Js.lt a b) eqn:E.
  - apply JsFacts.lt_true in E. apply Qlt_le_weak, E.
  - apply Qle_refl.
Qed.

Lemma Math_max_ge_r (a b : Q) : b <= JsMath.Math_max a b.
Proof.
  unfold JsMath.Math_max. destruct (Js.lt a b) eqn:E.
  - apply Qle_refl.
  - apply JsFacts.lt_false in E. exact E.
Qed.

Lemma Math_max_either (a b : Q) :
  JsMath.Math_max a b = a \/ JsMath.Math_max a b = b.
Proof. unfold JsMath.Math_max. destruct (Js.lt a b); auto. Qed.

Lemma Math_min_le_first (a b : Q) : Js.Math_min a b <= a.
Proof.
  unfold Js.Math_min. destruct (Js.lt b a) eqn:E.
  - apply JsFacts.lt_true in E. apply Qlt_le_weak, E.
  - apply Qle_refl.
Qed.

Lemma Math_min_either (a b : Q) : Js.Math_min a b = a \/ Js.Math_min a b = b.
Proof. unfold Js.Math_min. destruct (Js.lt b a); auto. Qed.

Lemma truthy_nonzero (q : Q) : ~ q == 0 -> Js.truthy q = true.
Proof.
  intros H. unfold Js.truthy. destruct (Qeq_bool q 0) eqn:E; [|reflexivity].
  apply Qeq_bool_iff in E. contradiction.
Qed.

(** ** The inspector's settings *)

Lemma clamped_hz (v : Q) :
  10 <= JsMath.Math_max 10 (Js.Math_min 240 v)
  /\ JsMath.Math_max 10 (Js.Math_min 240 v) <= 240.
Proof.
  split; [apply Math_max_ge_l|].
  destruct (Math_max_either 10 (Js.Math_min 240 v)) as [-> | ->]; [lra|].
  apply Math_min_le_first.
Qed.

Section TimestepFacts.

Context {host : Host}.

(** X1.  Whatever number the "Fixed Timestep (Hz)" field is given, the
    fixed timestep the simulation then uses is the one stored, between
    1/240 and 1/10 of a second, so positive; and a whole number of hertz
    between 10 and 240 is shown back as it was entered. *)
Theorem timestep_field_in_range (scene : Scene) (v : Q) :
  let scene' := set_timestep_hz scene v in
  fixedTimestep_of scene' == 1 / JsMath.Math_max 10 (Js.Math_min 240 v)
  /\ 1 # 240 <= fixedTimestep_of scene'
  /\ fixedTimestep_of scene' <= 1 # 10
  /\ (forall n : Z, (10 <= n <= 240)%Z -> v == inject_Z n ->
      shown_timestep_hz scene' == v).
Proof.
  destruct (clamped_hz v) as [Hlo Hhi].
  set (m := JsMath.Math_max 10 (Js.Math_min 240 v)) in *.
  assert (Hm : 0 < m) by lra.
  assert (Hinv : 0 < 1 / m).
  { apply Qlt_shift_div_l; [exact Hm | lra]. }
  assert (Htruthy : Js.truthy (1 / m) = true).
  { apply truthy_nonzero. intros E. rewrite E in Hinv. apply (Qlt_irrefl 0 Hinv). }
  cbn zeta. unfold fixedTimestep_of, shown_timestep_hz, set_timestep_hz.
  cbn [s_physics fixedTimestep]. fold m. unfold Js.or_default. rewrite Htruthy.
  split; [reflexivity|]. split; [|split].
  - apply Qle_shift_div_l; [exact Hm | lra].
  - apply Qle_shift_div_r; [exact Hm | lra].
  - intros n Hn Hv.
    assert (H10 : 10 <= v).
    { rewrite Hv. change 10 with (inject_Z 10). rewrite <- Zle_Qle. lia. }
    assert (H240 : v <= 240).
    { rewrite Hv. change 240 with (inject_Z 240). rewrite <- Zle_Qle. lia. }
    assert (Hmv : m == v).
    { unfold m, Js.Math_min, JsMath.Math_max.
      destruct (Js.lt v 240) eqn:E1.
      - destruct (Js.lt 10 v) eqn:E2; [reflexivity|].
        apply JsFacts.lt_false in E2. apply Qle_antisym; assumption.
      - apply JsFacts.lt_false in E1.
        destruct (Js.lt 10 240) eqn:E2.
        + apply Qle_antisym; assumption.
        + apply JsFacts.lt_false in E2. lra. }
    unfold JsMath.Math_round.
    assert (Hq : 1 / (1 / m) + (1 # 2) == inject_Z n + (1 # 2)).
    { rewrite <- Hv, <- Hmv. field. intros E. rewrite E in Hm. apply (Qlt_irrefl 0 Hm). }
    rewrite (Qfloor_comp _ _ Hq).
    rewrite (floor_between (inject_Z n + (1 # 2)) n) by lra.
    symmetry. exact Hv.
Qed.

End TimestepFacts.

Lemma Math_max_whole (a b : Z) :
  JsMath.Math_max (inject_Z a) (inject_Z b) == inject_Z (Z.max a b).
Proof.
  unfold JsMath.Math_max. destruct (Js.lt (inject_Z a) (inject_Z b)) eqn:E.
  - apply JsFacts.lt_true in E. rewrite <- Zlt_Qlt in E.
    rewrite Z.max_r by lia. reflexivity.
  - apply JsFacts.lt_false in E. rewrite <- Zle_Qle in E.
    rewrite Z.max_l by lia. reflexivity.
Qed.

Lemma or_default_same (q d : Q) : (q == 0 -> d == 0) -> Js.or_default q d == q.
Proof.
  intros H. unfold Js.or_default, Js.truthy.
  destruct (Qeq_bool q 0) eqn:E; cbn [negb]; [|reflexivity].
  apply Qeq_bool_iff in E. rewrite E. apply H. exact E.
Qed.

(** X2.  A sprite whose sheet columns and current frame were last set
    through the inspector (to any numbers) and whose image is loaded: the
    one [drawImage] of its shape takes frame [F mod C] of row [F / C], with
    [C = max(1, floor cols) ] and [F = max(0, floor frame)], a cell one
    [C]-th of the image wide that lies between the image's left and right
    edge. *)
Theorem sprite_frame_in_sheet (e : Entity) (vc vf : Q) (url : string) (img : Image)
        (cache : ImageCache) (c : Ctx) :
  r_type (renderer e) = sprite ->
  spriteUrl (renderer e) = Some url ->
  url <> "" ->
  cache_get cache url = Some img ->
  complete img = true ->
  0 <= img_width img ->
  let e' := set_currentFrame vf (set_cols vc e) in
  let C := Z.max 1 (Qfloor vc) in
  let F := Z.max 0 (Qfloor vf) in
  exists sx sy sw sh,
    draw_shape e' cache c
    = (emit (DrawImage (ds_transform (state c)) url sx sy sw sh
                       (- width (renderer e) / 2) (- height (renderer e) / 2)
                       (width (renderer e)) (height (renderer e)))
            c, cache)
    /\ sw == img_width img / inject_Z C
    /\ sx == inject_Z (F mod C) * sw
    /\ sy == inject_Z (F / C) * sh
    /\ 0 <= sx /\ sx + sw <= img_width img.
Proof.
  intros Htype Hurl Hne Hcache Hcomplete Hw e' C F.
  assert (HC : (1 <= C)%Z) by (unfold C; lia).
  assert (HF : (0 <= F)%Z) by (unfold F; lia).
  assert (HCq : 0 < inject_Z C).
  { change 0 with (inject_Z 0). rewrite <- Zlt_Qlt. lia. }
  unfold draw_shape, e', set_currentFrame, set_cols, on_renderer.
  cbn [renderer set_renderer r_type spriteUrl cols rows currentFrame width height].
  rewrite Htype, Hurl.
  assert (Heqb : String.eqb url "" = false) by (apply String.eqb_neq; exact Hne).
  rewrite Heqb. cbn [negb]. rewrite Hcache, Hcomplete.
  set (colsv := opt_or (Some (JsMath.Math_max 1 (Js.Math_floor vc))) 1).
  set (framev := opt_or (Some (JsMath.Math_max 0 (Js.Math_floor vf))) 0).
  assert (Hcols : colsv == inject_Z C).
  { unfold colsv, opt_or. rewrite or_default_same.
    - unfold Js.Math_floor, C. change 1 with (inject_Z 1). apply Math_max_whole.
    - intros E. exfalso.
      pose proof (Math_max_ge_l 1 (Js.Math_floor vc)) as H. rewrite E in H. lra. }
  assert (Hframe : framev == inject_Z F).
  { unfold framev, opt_or. rewrite or_default_same.
    - unfold Js.Math_floor, F. change 0 with (inject_Z 0) at 1. apply Math_max_whole.
    - intros _. reflexivity. }
  do 4 eexists. split; [reflexivity|].
  assert (Hmod : (0 <= F mod C < C)%Z) by (apply Z.mod_pos_bound; lia).
  assert (Hrem : Js.rem framev colsv == inject_Z (F mod C)).
  { rewrite (rem_comp _ _ _ _ Hframe Hcols). apply rem_whole; lia. }
  assert (Hsw : img_width img / colsv == img_width img / inject_Z C)
    by (rewrite Hcols; reflexivity).
  assert (Hsw0 : 0 <= img_width img / inject_Z C).
  { apply Qle_shift_div_l; [exact HCq | lra]. }
  assert (Hm0 : 0 <= inject_Z (F mod C)).
  { change 0 with (inject_Z 0). rewrite <- Zle_Qle. lia. }
  assert (Hm1 : inject_Z (F mod C) + 1 <= inject_Z C).
  { change 1 with (inject_Z 1). rewrite <- inject_Z_plus, <- Zle_Qle. lia. }
  split; [exact Hsw|]. split; [rewrite Hrem; reflexivity|]. split.
  - unfold Js.Math_floor.
    assert (Hq : framev / colsv == inject_Z F / inject_Z C)
      by (rewrite Hframe, Hcols; reflexivity).
    rewrite (Qfloor_comp _ _ Hq), floor_quotient. reflexivity.
  - rewrite Hrem, Hsw. split.
    + apply Qmult_le_0_compat; assumption.
    + assert (E : img_width img == inject_Z C * (img_width img / inject_Z C)).
      { field. intros Z0. rewrite Z0 in HCq. apply (Qlt_irrefl 0 HCq). }
      rewrite E at 3.
      set (fw := img_width img / inject_Z C) in *. nra.
Qed.

(** Three columns asked for as 3.5, frame 4: the second cell of the second
    row. *)
Lemma sprite_frame_in_sheet_witness :
  exists sx sy sw sh,
    draw_shape (set_currentFrame 4 (set_cols (7 # 2) sheet_entity)) sheet_cache fresh_ctx
    = (emit (DrawImage identity_matrix "hero.png" sx sy sw sh (- (64) / 2) (- (64) / 2) 64 64)
            fresh_ctx, sheet_cache)
    /\ sw == 256 / 3
    /\ sx == 1 * sw
    /\ sy == 1 * sh
    /\ 0 <= sx /\ sx + sw <= 256.
Proof.
  apply (sprite_frame_in_sheet sheet_entity (7 # 2) 4 "hero.png" (mkImage true 256 128)
                               sheet_cache fresh_ctx); try reflexivity.
  - discriminate.
  - vm_compute. discriminate.
Defined.

(** ** The object pool *)

Section ObjectPoolFacts.

Local Open Scope list_scope.

Variable T : Type.
Variable factory : nat -> T.
Variable reset : T -> T.

Lemma firstn_of_seq (k : nat) :
  forall a n : nat, (k <= n)%nat -> firstn k (seq a n) = seq a k.
Proof.
  induction k as [|k IH]; intros a n Hk; [reflexivity|].
  destruct n as [|n]; [lia|]. cbn [seq firstn]. rewrite IH by lia. reflexivity.
Qed.

Lemma pool_fill_spec (n : nat) :
  forall p : ObjectPool T,
    pool_fill T factory n p
    = mkPool T (op_pool T p ++ map factory (seq (made T p) n)) (made T p + n).
Proof.
  induction n as [|n IH]; intros [l m]; cbn [pool_fill op_pool made seq map].
  - rewrite app_nil_r, Nat.add_0_r. reflexivity.
  - rewrite IH. cbn [op_pool made]. rewrite <- app_assoc. cbn [app].
    f_equal. lia.
Qed.

Lemma pool_take_last (l : list T) (obj : T) (m : nat) :
  pool_take T factory reset (mkPool T (l ++ [obj]) m) = (reset obj, mkPool T l m).
Proof.
  unfold pool_take. cbn [op_pool made].
  destruct (l ++ [obj]) as [|first rest] eqn:E.
  - destruct l; discriminate.
  - rewrite <- E. rewrite last_last, removelast_last. reflexivity.
Qed.

Lemma pool_take_many_spec (k : nat) :
  forall (l : list T) (m : nat),
    pool_take_many T factory reset k (mkPool T l m)
    = (map reset (firstn k (rev l)) ++ map factory (seq m (k - List.length l)),
       mkPool T (firstn (List.length l - k) l) (m + (k - List.length l))).
Proof.
  induction k as [|k IH]; intros l m.
  - cbn [pool_take_many firstn map app Nat.sub seq]. rewrite Nat.sub_0_r, firstn_all.
    rewrite Nat.add_0_r. reflexivity.
  - cbn [pool_take_many].
    destruct l as [|a l0] using rev_ind.
    + unfold pool_take. cbn [op_pool made]. rewrite IH.
      cbn [List.length rev]. rewrite !firstn_nil, !Nat.sub_0_r.
      cbn [map app seq]. f_equal. f_equal. lia.
    + clear IHl0. rewrite pool_take_last, IH.
      rewrite rev_app_distr. cbn [rev app firstn map].
      rewrite length_app. cbn [List.length].
      replace (S k - (List.length l0 + 1))%nat with (k - List.length l0)%nat by lia.
      replace (List.length l0 + 1 - S k)%nat with (List.length l0 - k)%nat by lia.
      rewrite firstn_app.
      replace (List.length l0 - k - List.length l0)%nat with 0%nat by lia.
      cbn [firstn]. rewrite app_nil_r. reflexivity.
Qed.

(** X3.  A pool made with [n] objects, asked [k] times for an object: it
    hands out its own objects first, the newest first and each one reset,
    and calls the factory only once they are used up, [k - n] times; [n - k]
    of its objects, the oldest, are left in it. *)
Theorem pool_hands_out_its_own_first (n k made0 : nat) :
  let '(objs, p) := pool_take_many T factory reset k (pool_new T factory n made0) in
  objs = (map reset (firstn k (rev (map factory (seq made0 n))))
          ++ map factory (seq (made0 + n) (k - n)))%list
  /\ op_pool T p = map factory (seq made0 (n - k))
  /\ made T p = (made0 + n + (k - n))%nat.
Proof.
  unfold pool_new. rewrite pool_fill_spec. cbn [op_pool made app].
  rewrite pool_take_many_spec. rewrite length_map, length_seq.
  split; [reflexivity|]. split; [|reflexivity].
  cbn [op_pool]. rewrite firstn_map, firstn_of_seq by lia. reflexivity.
Qed.

Lemma pool_release_all_spec (objs : list T) :
  forall (l : list T) (m : nat),
    pool_release_all T objs (mkPool T l m) = mkPool T (l ++ objs) m.
Proof.
  induction objs as [|o objs IH]; intros l m; cbn [pool_release_all].
  - rewrite app_nil_r. reflexivity.
  - unfold pool_release. cbn [op_pool made]. rewrite IH, <- app_assoc. reflexivity.
Qed.

(** X4.  Objects released to a pool come back before anything else, the
    last released first and each one reset; the factory is not called, and
    once they are all taken the pool is as it was before the releases. *)
Theorem pool_returns_released_objects (objs : list T) (p : ObjectPool T) :
  pool_take_many T factory reset (List.length objs) (pool_release_all T objs p)
  = (map reset (rev objs), p).
Proof.
  destruct p as [l m]. rewrite pool_release_all_spec, pool_take_many_spec.
  rewrite length_app, rev_app_distr.
  replace (List.length objs - (List.length l + List.length objs))%nat with 0%nat by lia.
  replace (List.length l + List.length objs - List.length objs)%nat
    with (List.length l) by lia.
  cbn [seq map]. rewrite app_nil_r, Nat.add_0_r.
  rewrite firstn_app, length_rev, Nat.sub_diag. cbn [firstn]. rewrite app_nil_r.
  rewrite <- (length_rev objs) at 1. rewrite firstn_all.
  rewrite firstn_app, Nat.sub_diag, firstn_all. cbn [firstn]. rewrite app_nil_r.
  reflexivity.
Qed.

End ObjectPoolFacts.

(** ** The input manager *)

Lemma has_add_same (s : list string) (k : string) :
  set_has String.eqb (set_add String.eqb s k) k = true.
Proof.
  unfold set_add. destruct (set_has String.eqb s k) eqn:E; [exact E|].
  unfold set_has. rewrite existsb_app. cbn [existsb].
  rewrite String.eqb_refl, orb_true_r. reflexivity.
Qed.

Lemma has_add_other (s : list string) (k k' : string) :
  String.eqb k' k = false ->
  set_has String.eqb (set_add String.eqb s k) k' = set_has String.eqb s k'.
Proof.
  intros Hne. unfold set_add. destruct (set_has String.eqb s k); [reflexivity|].
  unfold set_has. rewrite existsb_app. cbn [existsb]. rewrite Hne.
  rewrite !orb_false_r. reflexivity.
Qed.

Lemma has_add_kept (s : list string) (k k' : string) :
  set_has String.eqb s k' = true ->
  set_has String.eqb (set_add String.eqb s k) k' = true.
Proof.
  intros H. unfold set_add. destruct (set_has String.eqb s k); [exact H|].
  unfold set_has in *. rewrite existsb_app, H. reflexivity.
Qed.

Lemma has_delete_other (s : list string) (k k' : string) :
  String.eqb k k' = false ->
  set_has String.eqb (set_delete String.eqb s k) k' = set_has String.eqb s k'.
Proof.
  intros Hne. unfold set_has, set_delete.
  induction s as [|a s IH]; [reflexivity|]. cbn [filter existsb].
  destruct (String.eqb k a) eqn:Eka; cbn [negb existsb].
  - apply String.eqb_eq in Eka. subst a.
    rewrite String.eqb_sym, Hne. cbn [orb]. exact IH.
  - rewrite IH. reflexivity.
Qed.

(** X5.  A key that is down when the frame ends (when [update()] is
    called) and is not released afterwards is not reported as pressed
    again: whatever events follow, short of its release or of disabling the
    manager, it stays down and is never pressed, key repeats included. *)
Theorem held_key_is_pressed_once (m : InputManager) (code : string)
        (evs : list InputEvent) :
  isKeyDown m code = true ->
  forallb (fun ev => negb (lets_go code ev)) evs = true ->
  let m' := input_run (input_step m FrameEnd) evs in
  isKeyDown m' code = true /\ isKeyPressed m' code = false.
Proof.
  intros Hdown Hevs m'.
  assert (Inv : isEnabled (input_step m FrameEnd) = true
                /\ set_has String.eqb (keysDown (input_step m FrameEnd)) code = true
                /\ set_has String.eqb (keysPressed (input_step m FrameEnd)) code = false).
  { unfold isKeyDown in Hdown. apply andb_prop in Hdown as [He Hd].
    cbn [input_step isEnabled keysDown keysPressed]. repeat split; assumption. }
  unfold m', input_run. clear m' Hdown.
  revert Inv. generalize (input_step m FrameEnd) as s.
  induction evs as [|ev evs IH]; intros s (He & Hd & Hp).
  - cbn [fold_left]. unfold isKeyDown, isKeyPressed. rewrite He, Hd, Hp. split; reflexivity.
  - cbn [forallb] in Hevs. apply andb_prop in Hevs as [Hev Hrest].
    cbn [fold_left]. apply (IH Hrest).
    destruct ev as [c|c|cx cy|b|b|en|]; cbn [input_step lets_go] in *;
      rewrite ?He; cbn [negb isEnabled keysDown keysPressed].
    + refine (conj eq_refl (conj _ _)); [apply has_add_kept; exact Hd|].
      destruct (String.eqb code c) eqn:Ec.
      * apply String.eqb_eq in Ec. subst c. rewrite Hd. cbn [negb]. exact Hp.
      * destruct (set_has String.eqb (keysDown s) c); cbn [negb]; [exact Hp|].
        rewrite has_add_other by exact Ec. exact Hp.
    + apply negb_true_iff in Hev.
      refine (conj eq_refl (conj _ Hp)).
      rewrite has_delete_other by exact Hev. exact Hd.
    + exact (conj eq_refl (conj Hd Hp)).
    + exact (conj eq_refl (conj Hd Hp)).
    + exact (conj eq_refl (conj Hd Hp)).
    + rewrite negb_involutive in Hev. subst en. cbn [negb isEnabled keysDown keysPressed].
      exact (conj eq_refl (conj Hd Hp)).
    + exact (conj eq_refl (conj Hd eq_refl)).
Qed.

(** The space bar goes down, the frame ends, the key repeats while another
    key comes and goes. *)
Lemma held_key_is_pressed_once_witness :
  let m := input_run new_InputManager [SetEnabled true; KeyDown "Space"] in
  let m' := input_run (input_step m FrameEnd)
                      [KeyDown "Space"; KeyDown "KeyA"; KeyUp "KeyA"; KeyDown "Space"] in
  isKeyPressed m "Space" = true
  /\ isKeyDown m' "Space" = true /\ isKeyPressed m' "Space" = false.
Proof.
  intros m m'. split; [reflexivity|].
  apply (held_key_is_pressed_once m "Space"
           [KeyDown "Space"; KeyDown "KeyA"; KeyUp "KeyA"; KeyDown "Space"]);
    reflexivity.
Defined.

(** X6.  A key that goes down while the manager is enabled is reported as
    pressed until the frame ends, also when it is released before that:
    whatever events follow the key-down, short of [update()] or of disabling
    the manager, the key is still pressed. *)
Theorem tap_is_seen_until_frame_end (m : InputManager) (code : string)
        (evs : list InputEvent) :
  isEnabled m = true ->
  isKeyDown m code = false ->
  forallb (fun ev => negb (clears_pressed ev)) evs = true ->
  isKeyPressed (input_run m (KeyDown code :: evs)) code = true.
Proof.
  intros He Hup Hevs.
  unfold isKeyDown in Hup. rewrite He in Hup. cbn [andb] in Hup.
  unfold input_run. cbn [fold_left].
  assert (Inv : isEnabled (input_step m (KeyDown code)) = true
                /\ set_has String.eqb (keysPressed (input_step m (KeyDown code))) code = true).
  { cbn [input_step]. rewrite He. cbn [negb isEnabled keysPressed]. rewrite Hup.
    cbn [negb]. split; [reflexivity | apply has_add_same]. }
  revert Inv. generalize (input_step m (KeyDown code)) as s.
  induction evs as [|ev evs IH]; intros s (Hen & Hp).
  - cbn [fold_left]. unfold isKeyPressed. rewrite Hen, Hp. reflexivity.
  - cbn [forallb] in Hevs. apply andb_prop in Hevs as [Hev Hrest].
    cbn [fold_left]. apply (IH Hrest).
    destruct ev as [c|c|cx cy|b|b|en|]; cbn [input_step clears_pressed] in *;
      rewrite ?Hen; cbn [negb isEnabled keysPressed].
    + refine (conj eq_refl _).
      destruct (set_has String.eqb (keysDown s) c); cbn [negb]; [exact Hp|].
      apply has_add_kept. exact Hp.
    + exact (conj eq_refl Hp).
    + exact (conj eq_refl Hp).
    + exact (conj eq_refl Hp).
    + exact (conj eq_refl Hp).
    + rewrite negb_involutive in Hev. subst en. cbn [negb isEnabled keysPressed].
      exact (conj eq_refl Hp).
    + discriminate Hev.
Qed.

(** A tap on the space bar that ends before the frame does. *)
Lemma tap_is_seen_until_frame_end_witness :
  let m := input_step new_InputManager (SetEnabled true) in
  let m' := input_run m [KeyDown "Space"; MouseMove 3 4; KeyUp "Space"] in
  isKeyPressed m' "Space" = true /\ isKeyDown m' "Space" = false.
Proof.
  intros m m'. split; [|reflexivity].
  apply (tap_is_seen_until_frame_end m "Space" [MouseMove 3 4; KeyUp "Space"]);
    reflexivity.
Defined.

(** X7.  Disabling the manager forgets every key and button, and a
    disabled manager ignores the window's events: after [setEnabled(false)]
    no run of events and frame ends changes it, and when it is enabled again
    nothing is down or pressed, whatever was held before. *)
Theorem disabled_manager_ignores_events (m0 : InputManager) (evs : list InputEvent) :
  forallb (fun ev => negb (is_SetEnabled ev)) evs = true ->
  let off := input_step m0 (SetEnabled false) in
  input_run off evs = off
  /\ forall (key : string) (btn : Z),
      let on := input_step (input_run off evs) (SetEnabled true) in
      isKeyDown on key = false /\ isKeyPressed on key = false
      /\ isMouseButtonDown on btn = false /\ isMouseButtonPressed on btn = false.
Proof.
  intros Hevs off.
  assert (Hrun : input_run off evs = off).
  { unfold input_run, off. cbn [input_step negb].
    induction evs as [|ev evs IH]; [reflexivity|].
    cbn [forallb] in Hevs. apply andb_prop in Hevs as [Hev Hrest].
    cbn [fold_left].
    destruct ev as [c|c|cx cy|b|b|en|]; cbn [input_step isEnabled negb is_SetEnabled] in *;
      try (apply IH; exact Hrest); discriminate Hev. }
  split; [exact Hrun|]. intros key btn. rewrite Hrun. unfold off.
  cbn. repeat split; reflexivity.
Qed.

(** A held key, then the manager is disabled, events go by, and it is
    enabled again. *)
Lemma disabled_manager_ignores_events_witness :
  let m0 := input_run new_InputManager [SetEnabled true; KeyDown "Space"; MouseDown 0] in
  let off := input_step m0 (SetEnabled false) in
  isKeyDown m0 "Space" = true
  /\ input_run off [KeyDown "Space"; MouseMove 5 6; FrameEnd] = off
  /\ isKeyDown (input_step off (SetEnabled true)) "Space" = false.
Proof.
  intros m0 off. split; [reflexivity|].
  destruct (disabled_manager_ignores_events m0 [KeyDown "Space"; MouseMove 5 6; FrameEnd])
    as [Hrun Hon]; [reflexivity|].
  split; [exact Hrun|].
  destruct (Hon "Space" 0%Z) as [Hd _]. exact Hd.
Defined.

(** ** The exported page's canvas size *)

(** X8.  For a window of positive width and height the canvas is shown at
    a size that fits the window, has the target's proportions (16 to 9) and
    fills the window in one direction. *)
Theorem letterbox_fits_window (innerWidth innerHeight : Q) :
  0 < innerWidth -> 0 < innerHeight ->
  let '(w, h) := resizeCanvas innerWidth innerHeight in
  0 < w /\ 0 < h
  /\ w <= innerWidth /\ h <= innerHeight
  /\ w * TARGET_HEIGHT == h * TARGET_WIDTH
  /\ (w == innerWidth \/ h == innerHeight).
Proof.
  intros Hw Hh. unfold resizeCanvas, TARGET_WIDTH, TARGET_HEIGHT.
  assert (Hq : innerWidth == innerWidth / innerHeight * innerHeight).
  { field. intros E. rewrite E in Hh. apply (Qlt_irrefl 0 Hh). }
  set (q := innerWidth / innerHeight) in *.
  assert (Hr : 1920 / 1080 == 16 # 9) by reflexivity.
  destruct (Js.lt q (1920 / 1080)) eqn:E.
  - apply JsFacts.lt_true in E. rewrite Hr in E.
    assert (Hlt : q * innerHeight < (16 # 9) * innerHeight)
      by (apply Qmult_lt_compat_r; assumption).
    assert (Hh' : innerWidth / (1920 / 1080) == innerWidth * (9 # 16))
      by (field; discriminate).
    rewrite Hh'.
    refine (conj _ (conj _ (conj _ (conj _ (conj _ (or_introl _)))))); lra.
  - apply JsFacts.lt_false in E. rewrite Hr in E.
    assert (Hle : (16 # 9) * innerHeight <= q * innerHeight)
      by (apply Qmult_le_compat_r; [exact E | lra]).
    assert (Hw' : innerHeight * (1920 / 1080) == innerHeight * (16 # 9))
      by (rewrite Hr; reflexivity).
    rewrite Hw'.
    refine (conj _ (conj _ (conj _ (conj _ (conj _ (or_intror _)))))); lra.
Qed.

(** A window of 800 by 600 shows the canvas 800 wide and 450 high. *)
Lemma letterbox_fits_window_witness :
  let '(w, h) := resizeCanvas 800 600 in
  0 < w /\ 0 < h /\ w <= 800 /\ h <= 600
  /\ w * TARGET_HEIGHT == h * TARGET_WIDTH
  /\ (w == 800 \/ h == 600).
Proof.
  apply (letterbox_fits_window 800 600); reflexivity.
Defined.

(** ** The virtual joystick *)

Lemma whole_sqrt_above (a : Q) :
  0 <= a -> 0 <= whole_sqrt a /\ a <= whole_sqrt a * whole_sqrt a.
Proof.
  intros Ha. unfold whole_sqrt.
  assert (Hc : a <= inject_Z (Qceiling a)) by apply Qle_ceiling.
  assert (H0 : (0 <= Qceiling a)%Z).
  { rewrite Zle_Qle. apply Qle_trans with a; assumption. }
  set (n := Qceiling a) in *.
  assert (Hs : (0 <= Z.sqrt_up n /\ n <= Z.sqrt_up n * Z.sqrt_up n)%Z).
  { split; [apply Z.sqrt_up_nonneg|].
    destruct (Z.eq_dec n 0) as [-> | Hn]; [reflexivity|].
    pose proof (Z.sqrt_up_spec n) as H. cbn zeta in H.
    apply H. lia. }
  destruct Hs as [Hs0 Hs1]. split.
  - change 0 with (inject_Z 0). rewrite <- Zle_Qle. exact Hs0.
  - rewrite <- inject_Z_mult. apply Qle_trans with (inject_Z n); [exact Hc|].
    rewrite <- Zle_Qle. exact Hs1.
Qed.

Lemma square_bound (a r : Q) : 0 <= r -> a * a <= r * r -> - r <= a /\ a <= r.
Proof. intros Hr H. split; nra. Qed.

Section JoystickFacts.

Context {host : Host}.

(** The host's square root is not below the true root. *)
Hypothesis sqrt_above :
  forall a : Q, 0 <= a -> 0 <= Math_sqrt a /\ a <= Math_sqrt a * Math_sqrt a.

Lemma clamp_knob_in_ring (dx dy : Q) :
  let k := clamp_knob dx dy in
  x k * x k + y k * y k <= maxRadius * maxRadius.
Proof.
  unfold clamp_knob, maxRadius.
  assert (Hs : 0 <= dx * dx + dy * dy) by nra.
  destruct (sqrt_above _ Hs) as [Hd0 Hd].
  set (d := Math_sqrt (dx * dx + dy * dy)) in *.
  destruct (Js.gt d 50) eqn:E; cbn [x y].
  - apply JsFacts.gt_true in E.
    assert (Hdne : ~ d == 0) by (intros Z0; rewrite Z0 in E; lra).
    assert (Hx : dx == dx / d * d) by (field; exact Hdne).
    assert (Hy : dy == dy / d * d) by (field; exact Hdne).
    set (u := dx / d) in *. set (v := dy / d) in *.
    assert (Huv : u * u + v * v <= 1).
    { apply Qnot_lt_le. intros Hgt.
      assert (Hdd : 0 < d * d) by nra.
      assert (Hprod : 0 < (u * u + v * v - 1) * (d * d))
        by (apply Qmult_lt_0_compat; lra).
      assert (Heq : dx * dx + dy * dy == (u * u + v * v) * (d * d))
        by (rewrite Hx at 1 2; rewrite Hy at 1 2; ring).
      lra. }
    nra.
  - apply JsFacts.gt_false in E. nra.
Qed.

(** X9.  The joystick's knob never leaves the ring of radius 50 around
    the joystick's centre: from a knob inside it, a move event (held or
    not, with or without a touch in the left half of the window) leaves the
    knob inside it, and the input sent on has both axes between -1 and 1.
    The host's square root must not be below the true root. *)
Theorem knob_stays_in_the_ring (dragging pressed : bool) (innerWidth : Q)
        (centre knob : Vector2) (ev : PointerEvent) :
  x knob * x knob + y knob * y knob <= maxRadius * maxRadius ->
  let knob' := handleJoystickMove dragging innerWidth centre knob ev in
  let input := joystick_input knob' pressed in
  x knob' * x knob' + y knob' * y knob' <= maxRadius * maxRadius
  /\ - (1) <= i_x input /\ i_x input <= 1
  /\ - (1) <= i_y input /\ i_y input <= 1.
Proof.
  intros Hknob knob' input.
  assert (Hring : x knob' * x knob' + y knob' * y knob' <= maxRadius * maxRadius).
  { unfold knob', handleJoystickMove.
    destruct dragging; cbn [negb]; [|exact Hknob].
    destruct ev as [cx cy | touches].
    - apply clamp_knob_in_ring.
    - destruct (find (fun t => Js.lt (fst t) (innerWidth / 2)) touches) as [[cx cy]|];
        [apply clamp_knob_in_ring | exact Hknob]. }
  split; [exact Hring|].
  unfold input, joystick_input, maxRadius in *. cbn [i_x i_y].
  generalize dependent knob'. intros [kx ky] _. cbn [x y]. intros Hring.
  assert (Hx : kx * kx <= 50 * 50) by nra.
  assert (Hy : ky * ky <= 50 * 50) by nra.
  destruct (square_bound kx 50) as [Hx1 Hx2]; [lra | exact Hx |].
  destruct (square_bound ky 50) as [Hy1 Hy2]; [lra | exact Hy |].
  assert (Ex : kx / 50 == kx * (1 # 50)) by (field; discriminate).
  assert (Ey : ky / 50 == ky * (1 # 50)) by (field; discriminate).
  rewrite Ex, Ey. repeat split; lra.
Qed.

End JoystickFacts.

(** A touch 60 to the right of and 80 below the centre: 100 away, so the
    knob is put at (30, 40) and the input is (0.6, 0.8). *)
Lemma knob_stays_in_the_ring_witness :
  let knob' := @handleJoystickMove measuring_host true 800 (mkVector2 100 500)
                                   (mkVector2 0 0) (TouchesAt [(160, 580)]) in
  (x knob' == 30 /\ y knob' == 40)
  /\ x knob' * x knob' + y knob' * y knob' <= maxRadius * maxRadius
  /\ - (1) <= i_x (joystick_input knob' false) /\ i_x (joystick_input knob' false) <= 1
  /\ - (1) <= i_y (joystick_input knob' false) /\ i_y (joystick_input knob' false) <= 1.
Proof.
  intros knob'. split; [split; reflexivity|].
  apply (@knob_stays_in_the_ring measuring_host whole_sqrt_above true false 800
                                 (mkVector2 100 500) (mkVector2 0 0)
                                 (TouchesAt [(160, 580)])).
  vm_compute. discriminate.
Defined.

(** ** The pointer in the editor *)

Lemma or_default_nonzero (q d : Q) : ~ d == 0 -> ~ Js.or_default q d == 0.
Proof.
  intros Hd. unfold Js.or_default, Js.truthy.
  destruct (Qeq_bool q 0) eqn:E; cbn [negb]; [exact Hd|].
  intros Hq. apply Qeq_bool_iff in Hq. congruence.
Qed.

(** [scene.camera?.zoom || 1] is never zero. *)
Lemma zoom_of_nonzero (scene : Scene) : ~ zoom_of scene == 0.
Proof.
  unfold zoom_of. destruct (camera scene) as [cam|].
  - apply or_default_nonzero. discriminate.
  - discriminate.
Qed.

(** The camera transform [draw] sets up, from the identity. *)
Lemma begin_draw_matrix (canvas : Canvas) (scene : Scene) (c : Ctx) :
  ds_transform (state c) = identity_matrix ->
  ds_transform (state (begin_draw canvas scene c))
  = mkMatrix (1 * zoom_of scene) (0 * zoom_of scene)
             (0 * zoom_of scene) (1 * zoom_of scene)
             (1 * (cv_width canvas / 2) + 0 * (cv_height canvas / 2) + 0)
             (0 * (cv_width canvas / 2) + 1 * (cv_height canvas / 2) + 0).
Proof.
  intros Hid.
  unfold begin_draw, ctx_scale, ctx_translate, ctx_save, ctx_fillRect, emit,
    set_fillStyle, with_transform.
  cbn [state ds_transform saved ops fillStyle globalAlpha].
  rewrite Hid. reflexivity.
Qed.

(** X10.  The pointer's coordinates undo the camera transform of [draw]
    when the canvas is shown in a rectangle of its own proportions: for a
    canvas and a bounding rectangle of non-zero size with
    [rect.width / rect.height = canvas.width / canvas.height], where the
    canvas's [objectFit: contain] leaves no bars and the bitmap fills the
    rectangle, a mouse or a first touch at the place on the page where
    [draw] puts the point [(wx, wy)] of the camera's frame is given the
    screen coordinates [(wx, wy)], at any zoom. *)
Theorem pointer_undoes_camera_transform
        (canvas : Canvas) (box : ClientRect) (scene : Scene) (c : Ctx)
        (wx wy cx cy : Q) (more : list (Q * Q)) (ev : PointerEvent) :
  ds_transform (state c) = identity_matrix ->
  ~ cv_width canvas == 0 -> ~ cv_height canvas == 0 ->
  ~ rect_width box == 0 -> ~ rect_height box == 0 ->
  rect_width box * cv_height canvas == rect_height box * cv_width canvas ->
  let m := ds_transform (state (begin_draw canvas scene c)) in
  cx == rect_left box + fst (m_apply m wx wy) * rect_width box / cv_width canvas ->
  cy == rect_top box + snd (m_apply m wx wy) * rect_height box / cv_height canvas ->
  ev = MouseAt cx cy \/ ev = TouchesAt ((cx, cy) :: more) ->
  exists co,
    getCanvasCoordinates (Some (canvas, box)) scene ev = Ok co
    /\ screenX co == wx /\ screenY co == wy
    /\ clientX co = cx /\ clientY co = cy.
Proof.
  intros Hid HW HH Hw Hh _ m Hcx Hcy Hev.
  pose proof (zoom_of_nonzero scene) as Hz.
  assert (Hm : m = mkMatrix (1 * zoom_of scene) (0 * zoom_of scene)
                            (0 * zoom_of scene) (1 * zoom_of scene)
                            (1 * (cv_width canvas / 2) + 0 * (cv_height canvas / 2) + 0)
                            (0 * (cv_width canvas / 2) + 1 * (cv_height canvas / 2) + 0))
    by (apply begin_draw_matrix; exact Hid).
  assert (Hco : getCanvasCoordinates (Some (canvas, box)) scene ev
                = Ok (mkCoordinates
                        (((cx - rect_left box) * (cv_width canvas / rect_width box)
                          - cv_width canvas / 2) / zoom_of scene)
                        (((cy - rect_top box) * (cv_height canvas / rect_height box)
                          - cv_height canvas / 2) / zoom_of scene) cx cy)).
  { destruct Hev as [-> | ->]; reflexivity. }
  eexists. split; [exact Hco|]. cbn [screenX screenY clientX clientY].
  rewrite Hm in Hcx, Hcy. unfold m_apply in Hcx, Hcy.
  cbn [fst snd m_a m_b m_c m_d m_e m_f] in Hcx, Hcy.
  split; [|split; [|split; reflexivity]].
  - rewrite Hcx. field. auto.
  - rewrite Hcy. field. auto.
Qed.

(** The default canvas shown at half its size, zoom 2: the point (30, -40)
    is drawn at canvas pixel (460, 220), which is at (240, 130) on the
    page. *)
Lemma pointer_undoes_camera_transform_witness :
  exists co,
    getCanvasCoordinates example_view (scene_at_zoom 2) (MouseAt 240 130) = Ok co
    /\ screenX co == 30 /\ screenY co == - (40).
Proof.
  destruct (pointer_undoes_camera_transform
              example_canvas (mkRect 10 20 400 300) (scene_at_zoom 2) fresh_ctx
              30 (- (40)) 240 130 [] (MouseAt 240 130))
    as (co & Hco & Hx & Hy & _); try reflexivity; try discriminate.
  - left. reflexivity.
  - exists co. split; [exact Hco | split; assumption].
Defined.

(** The entity [findIndex] points at is the one [find] returns, and
    changing it in place (its id kept) changes what [find] returns for its
    id and for no other. *)
Lemma change_at_found (f : Entity -> Entity) (key : string) :
  (forall e, id (f e) = id e) ->
  forall es : list Entity,
    match find_index es key with
    | Some i =>
        exists e,
          find_entity es key = Some e
          /\ find_entity (change_at i f es) key = Some (f e)
          /\ map id (change_at i f es) = map id es
          /\ (forall other, other <> key ->
              find_entity (change_at i f es) other = find_entity es other)
    | None => find_entity es key = None
    end.
Proof.
  intros Hf es. unfold find_entity.
  induction es as [|e0 rest IH]; cbn [find_index find]; [reflexivity|].
  destruct (String.eqb (id e0) key) eqn:E.
  - exists e0. cbn [change_at find map]. rewrite !Hf, E.
    repeat split; try reflexivity.
    intros other Hne. apply String.eqb_eq in E.
    destruct (String.eqb (id e0) other) eqn:E'; [|reflexivity].
    apply String.eqb_eq in E'. congruence.
  - destruct (find_index rest key) as [i|]; cbn [option_map]; [|exact IH].
    destruct IH as (e & H1 & H2 & H3 & H4).
    exists e. cbn [change_at find map]. rewrite E, H3.
    repeat split; try assumption; try reflexivity.
    intros other Hne. destruct (String.eqb (id e0) other); [reflexivity|].
    apply H4. exact Hne.
Qed.

Lemma selected_id_some (key : string) : key <> "" -> selected_id (Some key) = Some key.
Proof.
  intros H. unfold selected_id. apply String.eqb_neq in H. rewrite H. reflexivity.
Qed.

Lemma find_entity_unique (es : list Entity) (e : Entity) :
  NoDup (map id es) -> In e es -> find_entity es (id e) = Some e.
Proof.
  unfold find_entity. induction es as [|e0 rest IH]; intros Hnd Hin; [contradiction|].
  cbn [map] in Hnd. inversion Hnd as [|? ? Hnot Hrest]; subst.
  cbn [find]. destruct Hin as [-> | Hin].
  - rewrite String.eqb_refl. reflexivity.
  - destruct (String.eqb (id e0) (id e)) eqn:E.
    + apply String.eqb_eq in E. exfalso. apply Hnot. rewrite E.
      apply in_map. exact Hin.
    + apply IH; assumption.
Qed.

Section PointerFacts.

Context {host : Host}.



(** X12.  Panning keeps the grabbed point under the pointer: when a
    pointer-down starts a pan, a later move shifts the camera offset so that
    the pointer's screen coordinates plus the camera offset are what they
    were at the pointer-down, and leaves the entities alone; the canvas and
    its bounding rectangle have non-zero size. *)
Theorem pan_keeps_grabbed_point
        (canvas : Canvas) (box : ClientRect) (scene : Scene) (cam : Vector2)
        (sel sel' : option string) (es : list Entity) (ev1 ev2 : PointerEvent)
        (c1 c2 : Coordinates) (pos : Vector2) (st0 : Interaction) :
  ~ rect_width box == 0 -> ~ rect_height box == 0 ->
  let view := Some (canvas, box) in
  handlePointerDown false false view scene cam sel es ev1 = Ok (Panning pos) ->
  getCanvasCoordinates view scene ev1 = Ok c1 ->
  getCanvasCoordinates view scene ev2 = Ok c2 ->
  let st := begin_interaction (Panning pos) (idle st0) in
  exists ed',
    handlePointerMove false false view scene sel' (mkEditing es cam st) ev2 = Ok ed'
    /\ ed_entities ed' = es
    /\ screenX c2 + x (cameraOffset ed') == screenX c1 + x cam
    /\ screenY c2 + y (cameraOffset ed') == screenY c1 + y cam
    /\ interaction ed'
       = begin_interaction (Panning (mkVector2 (clientX c2) (clientY c2))) (idle st0).
Proof.
  intros Hw Hh view Hdown H1 H2 st.
  pose proof (zoom_of_nonzero scene) as Hz.
  assert (Hpos : pos = mkVector2 (clientX c1) (clientY c1)).
  { revert Hdown. unfold handlePointerDown. cbn [orb]. rewrite H1.
    match goal with
    | |- match ?r with Some _ => _ | None => _ end = _ -> _ => destruct r as [r0|] eqn:Hr
    end.
    - intros H. exfalso.
      assert (Hs : r0 = Panning pos) by congruence. subst r0.
      destruct (selected_id sel) as [s|]; [|discriminate].
      destruct (find_entity es s) as [e|]; [|discriminate].
      destruct (r_type (renderer e)); try discriminate;
        destruct (handle_under scene cam (screenX c1) (screenY c1) e); discriminate.
    - destruct (clicked_entity cam (screenX c1) (screenY c1) es); [discriminate|].
      intros H. congruence. }
  assert (Hmove : handlePointerMove false false view scene sel' (mkEditing es cam st) ev2
                  = Ok (mkEditing es
                          (mkVector2
                             (x cam - (clientX c2 - x pos)
                                      * (cv_width canvas / rect_width box) / zoom_of scene)
                             (y cam - (clientY c2 - y pos)
                                      * (cv_height canvas / rect_height box) / zoom_of scene))
                          (begin_interaction
                             (Panning (mkVector2 (clientX c2) (clientY c2))) (idle st0)))).
  { unfold handlePointerMove. cbn [orb interaction].
    unfold st, idle, handlePointerUp, begin_interaction.
    cbn [orb isResizing isPanning isDragging dragOffset resizeStart lastPanPos
             ed_entities cameraOffset].
    rewrite H2. unfold view. reflexivity. }
  eexists. split; [exact Hmove|]. cbn [ed_entities cameraOffset interaction].
  split; [reflexivity|].
  assert (Hc : forall (ev : PointerEvent) (c : Coordinates),
             getCanvasCoordinates view scene ev = Ok c ->
             screenX c == ((clientX c - rect_left box) * (cv_width canvas / rect_width box)
                           - cv_width canvas / 2) / zoom_of scene
             /\ screenY c == ((clientY c - rect_top box) * (cv_height canvas / rect_height box)
                              - cv_height canvas / 2) / zoom_of scene).
  { intros ev c. unfold view, getCanvasCoordinates.
    destruct ev as [cx cy | [|[cx cy] rest]]; try discriminate;
      intros H; assert (Hco : c = mkCoordinates
                                    (((cx - rect_left box) * (cv_width canvas / rect_width box)
                                      - cv_width canvas / 2) / zoom_of scene)
                                    (((cy - rect_top box)
                                      * (cv_height canvas / rect_height box)
                                      - cv_height canvas / 2) / zoom_of scene) cx cy)
        by congruence; subst c; cbn [screenX screenY clientX clientY];
      split; reflexivity. }
  destruct (Hc ev1 c1 H1) as [Hx1 Hy1]. destruct (Hc ev2 c2 H2) as [Hx2 Hy2].
  rewrite Hpos. cbn [x y]. rewrite Hx1, Hx2, Hy1, Hy2.
  split; [|split; [|reflexivity]]; field; auto.
Qed.

End PointerFacts.


(** The mouse goes down on empty space and moves by (10, 10) on the page,
    which is (20, 20) on the canvas: the camera moves by (-20, -20). *)
Lemma pan_keeps_grabbed_point_witness :
  let cam := mkVector2 400 300 in
  exists pos ed',
    @handlePointerDown example_host false false example_view two_box_scene cam None
                       two_boxes (MouseAt 260 220)
    = Ok (Panning pos)
    /\ @handlePointerMove example_host false false example_view two_box_scene None
         (mkEditing two_boxes cam
                    (begin_interaction (Panning pos) (idle initial_interaction)))
         (MouseAt 270 230)
       = Ok ed'
    /\ ed_entities ed' = two_boxes
    /\ x (cameraOffset ed') == 380 /\ y (cameraOffset ed') == 280.
Proof.
  intros cam.
  eassert (Hdown : @handlePointerDown example_host false false example_view two_box_scene
                     cam None two_boxes (MouseAt 260 220) = Ok (Panning _))
    by (vm_compute; reflexivity).
  eassert (H1 : getCanvasCoordinates example_view two_box_scene (MouseAt 260 220) = Ok _)
    by (vm_compute; reflexivity).
  eassert (H2 : getCanvasCoordinates example_view two_box_scene (MouseAt 270 230) = Ok _)
    by (vm_compute; reflexivity).
  assert (Hw : ~ 400 == 0) by discriminate.
  assert (Hh : ~ 300 == 0) by discriminate.
  destruct (@pan_keeps_grabbed_point example_host example_canvas (mkRect 10 20 400 300)
              two_box_scene cam None None two_boxes (MouseAt 260 220) (MouseAt 270 230)
              _ _ _ initial_interaction Hw Hh Hdown H1 H2)
    as (ed' & Hmove & Hes & Hx & Hy & _).
  eexists. exists ed'. split; [exact Hdown|]. split; [exact Hmove|].
  split; [exact Hes|]. unfold cam in Hx, Hy. cbn [screenX screenY x y] in Hx, Hy.
  split; lra.
Defined.

Lemma Math_max_comp (a b b' : Q) : b == b' -> JsMath.Math_max a b == JsMath.Math_max a b'.
Proof.
  intros H. unfold JsMath.Math_max, Js.lt.
  rewrite (Qleb_comp b b' H a a (Qeq_refl a)).
  destruct (negb (Qle_bool b' a)); [exact H | reflexivity].
Qed.

Lemma Math_max_above (a b : Q) : a < JsMath.Math_max a b -> JsMath.Math_max a b = b.
Proof.
  unfold JsMath.Math_max. destruct (Js.lt a b); [reflexivity|].
  intros H. exfalso. apply (Qlt_irrefl a H).
Qed.

Section ResizeFacts.

Context {host : Host}.

(** X13.  A resize that began on a box of a width and a height that are
    not zero (the code divides by both) never takes a scale below one
    tenth, and it changes
    nothing but the scale of the selected entity.  While the pointer is
    where the resize began, the scale is the one it began with (one tenth
    at least).  Where the scale is above one tenth afterwards, the dragged
    corner has followed the pointer: the half-extent of the box has grown by
    the pointer's displacement in the entity's frame for a right or bottom
    handle, and shrunk by it for a left or top handle. *)
Theorem resize_keeps_scale_above_tenth
        (view : option (Canvas * ClientRect)) (scene : Scene) (key : string)
        (ed : Editing) (ev : PointerEvent) (c : Coordinates) (h : Handle) (e : Entity) :
  isResizing (interaction ed) = Some h ->
  key <> "" ->
  getCanvasCoordinates view scene ev = Ok c ->
  find_entity (ed_entities ed) key = Some e ->
  let start := resizeStart (interaction ed) in
  ~ rs_w start == 0 -> ~ rs_h start == 0 ->
  let delta := resize_delta start e (screenX c) (screenY c) in
  exists es' e',
    handlePointerMove false false view scene (Some key) ed ev
    = Ok (mkEditing es' (cameraOffset ed) (interaction ed))
    /\ find_entity es' key = Some e'
    /\ e' = on_transform (set_scale (scale (transform e'))) e
    /\ 1 # 10 <= x (scale (transform e'))
    /\ 1 # 10 <= y (scale (transform e'))
    /\ (screenX c == rs_x start -> screenY c == rs_y start ->
        x (scale (transform e')) == JsMath.Math_max (1 # 10) (rs_sx start)
        /\ y (scale (transform e')) == JsMath.Math_max (1 # 10) (rs_sy start))
    /\ (1 # 10 < x (scale (transform e')) ->
        rs_w start * x (scale (transform e')) / 2
        == rs_w start * rs_sx start / 2
           + (if handle_has_r h then 1 else - (1)) * fst delta)
    /\ (1 # 10 < y (scale (transform e')) ->
        rs_h start * y (scale (transform e')) / 2
        == rs_h start * rs_sy start / 2
           + (if handle_has_b h then 1 else - (1)) * snd delta)
    /\ map id es' = map id (ed_entities ed)
    /\ forall other, other <> key ->
         find_entity es' other = find_entity (ed_entities ed) other.
Proof.
  intros Hres Hkey Hc Hfind start Hw Hh delta.
  set (f := fun e0 : Entity =>
              on_transform
                (set_scale (resized_scale h start e0 (screenX c) (screenY c))) e0).
  assert (Hf : forall e0, id (f e0) = id e0) by reflexivity.
  pose proof (change_at_found f key Hf (ed_entities ed)) as Hch.
  destruct (find_index (ed_entities ed) key) as [i|] eqn:Hi; [|congruence].
  destruct Hch as (e0 & Hfe & Hfe' & Hids & Hothers).
  assert (e0 = e) by congruence. subst e0.
  exists (change_at i f (ed_entities ed)), (f e).
  split.
  { unfold handlePointerMove. cbn [orb]. rewrite Hres, (selected_id_some key Hkey), Hc, Hi.
    reflexivity. }
  split; [exact Hfe'|]. split; [reflexivity|].
  assert (Hscale : scale (transform (f e)) = resized_scale h start e (screenX c) (screenY c))
    by reflexivity.
  rewrite Hscale. unfold resized_scale. fold delta.
  destruct delta as [localDx localDy] eqn:Hdelta. cbn [x y fst snd].
  split; [apply Math_max_ge_l|]. split; [apply Math_max_ge_l|].
  split; [|split; [|split; [|split; assumption]]].
  - intros Hx Hy.
    assert (H0 : localDx == 0 /\ localDy == 0).
    { unfold delta, resize_delta in Hdelta.
      assert (E1 : localDx = (screenX c - rs_x start)
                             * Math_cos (- rotation (transform e) * Math_PI / 180)
                             - (screenY c - rs_y start)
                               * Math_sin (- rotation (transform e) * Math_PI / 180))
        by congruence.
      assert (E2 : localDy = (screenX c - rs_x start)
                             * Math_sin (- rotation (transform e) * Math_PI / 180)
                             + (screenY c - rs_y start)
                               * Math_cos (- rotation (transform e) * Math_PI / 180))
        by congruence.
      rewrite E1, E2, Hx, Hy. split; ring. }
    destruct H0 as [Hdx Hdy].
    split; apply Math_max_comp.
    + destruct h; cbn [handle_has_l handle_has_r]; rewrite Hdx;
        unfold Qdiv; ring.
    + destruct h; cbn [handle_has_t handle_has_b]; rewrite Hdy;
        unfold Qdiv; ring.
  - intros Habove. rewrite (Math_max_above _ _ Habove).
    destruct h; cbn [handle_has_l handle_has_r]; field; exact Hw.
  - intros Habove. rewrite (Math_max_above _ _ Habove).
    destruct h; cbn [handle_has_t handle_has_b]; field; exact Hh.
Qed.

End ResizeFacts.

(** X14.  The wheel changes the scale of the selected entity by one tenth,
    down for a positive [deltaY] and up otherwise, never to below one tenth,
    and changes nothing else; with nothing selected, or an id no entity has,
    it changes nothing. *)
Theorem wheel_scales_selected_entity
        (sel : option string) (es : list Entity) (deltaY : Q) :
  let es' := handleWheel false false sel es deltaY in
  let step := if Js.gt deltaY 0 then - (1 # 10) else 1 # 10 in
  map id es' = map id es
  /\ match selected_id sel with
     | None => es' = es
     | Some key =>
         (forall other, other <> key -> find_entity es' other = find_entity es other)
         /\ match find_entity es key with
            | None => es' = es
            | Some e =>
                exists e',
                  find_entity es' key = Some e'
                  /\ e' = on_transform (set_scale (scale (transform e'))) e
                  /\ x (scale (transform e'))
                     = JsMath.Math_max (1 # 10) (x (scale (transform e)) + step)
                  /\ y (scale (transform e'))
                     = JsMath.Math_max (1 # 10) (y (scale (transform e)) + step)
                  /\ 1 # 10 <= x (scale (transform e'))
                  /\ 1 # 10 <= y (scale (transform e'))
            end
     end.
Proof.
  intros es' step. unfold es', handleWheel. cbn [orb].
  destruct (selected_id sel) as [key|]; [|split; reflexivity].
  fold step.
  set (f := fun e0 : Entity =>
              on_transform
                (set_scale
                   (mkVector2
                      (JsMath.Math_max (1 # 10) (x (scale (transform e0)) + step))
                      (JsMath.Math_max (1 # 10) (y (scale (transform e0)) + step))))
                e0).
  assert (Hf : forall e0, id (f e0) = id e0) by reflexivity.
  pose proof (change_at_found f key Hf es) as Hch.
  destruct (find_index es key) as [i|].
  - destruct Hch as (e & Hfe & Hfe' & Hids & Hothers).
    split; [exact Hids|]. split; [exact Hothers|].
    rewrite Hfe. exists (f e). split; [exact Hfe'|].
    split; [reflexivity|]. split; [reflexivity|]. split; [reflexivity|].
    split; apply Math_max_ge_l.
  - split; [reflexivity|]. split; [reflexivity|]. rewrite Hch. reflexivity.
Qed.

(** The first box is selected and the mouse goes down on its bottom right
    corner, then moves by (10, 5) on the canvas: the box, 50 by 50, becomes
    1.4 by 1.2 times as large. *)
Lemma resize_keeps_scale_above_tenth_witness :
  let cam := mkVector2 400 300 in
  exists start es' e',
    @handlePointerDown example_host false false example_view two_box_scene cam (Some "e1")
                       two_boxes (MouseAt (445 # 2) (365 # 2))
    = Ok (Resizing h_br start)
    /\ @handlePointerMove example_host false false example_view two_box_scene (Some "e1")
         (mkEditing two_boxes cam
                    (begin_interaction (Resizing h_br start) (idle initial_interaction)))
         (MouseAt (455 # 2) 185)
       = Ok (mkEditing es' cam
                       (begin_interaction (Resizing h_br start) (idle initial_interaction)))
    /\ find_entity es' "e1" = Some e'
    /\ 1 # 10 <= x (scale (transform e'))
    /\ 1 # 10 <= y (scale (transform e'))
    /\ x (scale (transform e')) == 7 # 5
    /\ y (scale (transform e')) == 6 # 5.
Proof.
  intros cam.
  eassert (Hdown : @handlePointerDown example_host false false example_view two_box_scene
                     cam (Some "e1") two_boxes (MouseAt (445 # 2) (365 # 2))
                   = Ok (Resizing h_br _))
    by (vm_compute; reflexivity).
  eassert (Hc : getCanvasCoordinates example_view two_box_scene (MouseAt (455 # 2) 185)
                = Ok _)
    by (vm_compute; reflexivity).
  assert (Hne : "e1" <> "") by discriminate.
  match type of Hdown with
  | _ = Ok (Resizing _ ?s) =>
      match type of Hc with
      | _ = Ok ?c =>
          destruct (@resize_keeps_scale_above_tenth example_host example_view two_box_scene
                      "e1"
                      (mkEditing two_boxes cam
                                 (begin_interaction (Resizing h_br s)
                                                    (idle initial_interaction)))
                      (MouseAt (455 # 2) 185) c h_br example_entity eq_refl Hne Hc eq_refl)
            as (es' & e' & Hmove & Hfind & _ & Hx & Hy & _);
            [vm_compute; discriminate | vm_compute; discriminate |]
      end
  end.
  assert (Hval : x (scale (transform e')) == 7 # 5 /\ y (scale (transform e')) == 6 # 5).
  { pose proof Hmove as Hm. vm_compute in Hm. injection Hm as Hes.
    pose proof Hfind as Hf. rewrite <- Hes in Hf. vm_compute in Hf.
    injection Hf as <-. split; reflexivity. }
  eexists. exists es', e'. split; [exact Hdown|]. split; [exact Hmove|].
  split; [exact Hfind|]. split; [exact Hx|]. split; [exact Hy|]. exact Hval.
Defined.

(** ** The scene and asset handlers *)

Lemma find_entity_map (f : Entity -> Entity) (key : string) :
  (forall e, id (f e) = id e) ->
  forall es, find_entity (map f es) key = option_map f (find_entity es key).
Proof.
  intros Hf es. unfold find_entity.
  induction es as [|e rest IH]; cbn [map find]; [reflexivity|].
  rewrite Hf. destruct (String.eqb (id e) key); [reflexivity | exact IH].
Qed.

Lemma map_unchanged (f : Entity -> Entity) (es : list Entity) :
  (forall e, In e es -> f e = e) -> map f es = es.
Proof.
  intros H. induction es as [|e rest IH]; cbn [map]; [reflexivity|].
  rewrite H by (left; reflexivity). rewrite IH; [reflexivity|].
  intros e' Hin. apply H. right. exact Hin.
Qed.

Lemma find_entity_none (es : list Entity) (key : string) :
  find_entity es key = None -> forall e, In e es -> String.eqb (id e) key = false.
Proof.
  intros H e Hin. exact (find_none _ _ H e Hin).
Qed.

(** X15.  [handleUpdateEntity] replaces by id: the ids of the scene stay
    as they are, in their order; looking up any other id gives what it gave
    before; looking up the id of the updated entity gives the updated
    entity if the scene had that id, and if it had not the scene is
    unchanged; the background, the camera and the physics settings are
    kept; without a scene there is nothing to update. *)
Theorem update_replaces_entity_by_id (sc : Scene) (u : Entity) :
  handleUpdateEntity None u = None
  /\ exists sc',
      handleUpdateEntity (Some sc) u = Some sc'
      /\ map id (entities sc') = map id (entities sc)
      /\ backgroundColor sc' = backgroundColor sc
      /\ camera sc' = camera sc
      /\ s_physics sc' = s_physics sc
      /\ (forall other, other <> id u ->
          find_entity (entities sc') other = find_entity (entities sc) other)
      /\ match find_entity (entities sc) (id u) with
         | Some _ => find_entity (entities sc') (id u) = Some u
         | None => sc' = sc
         end.
Proof.
  split; [reflexivity|]. eexists. split; [reflexivity|].
  cbn [entities backgroundColor camera s_physics].
  set (f := fun e : Entity => if String.eqb (id e) (id u) then u else e).
  assert (Hf : forall e, id (f e) = id e).
  { intros e. unfold f. destruct (String.eqb (id e) (id u)) eqn:E; [|reflexivity].
    apply String.eqb_eq in E. symmetry. exact E. }
  split; [rewrite map_map; apply map_ext; exact Hf|].
  split; [reflexivity|]. split; [reflexivity|]. split; [reflexivity|]. split.
  - intros other Hne. rewrite (find_entity_map f other Hf).
    destruct (find_entity (entities sc) other) as [e|] eqn:E; [|reflexivity].
    cbn [option_map]. unfold find_entity in E. apply find_some in E as [_ E].
    apply String.eqb_eq in E. unfold f.
    destruct (String.eqb (id e) (id u)) eqn:E'; [|reflexivity].
    apply String.eqb_eq in E'. congruence.
  - rewrite (find_entity_map f (id u) Hf).
    destruct (find_entity (entities sc) (id u)) as [e|] eqn:E; cbn [option_map].
    + unfold find_entity in E. apply find_some in E as [_ E]. unfold f. rewrite E.
      reflexivity.
    + rewrite map_unchanged; [destruct sc; reflexivity|].
      intros e Hin. unfold f. rewrite (find_entity_none _ _ E e Hin). reflexivity.
Qed.

(** X16.  A transform committed from the canvas is an update of the entity
    that has the id: with unique ids, [handleEntityTransformChange] gives
    the scene that [handleUpdateEntity] gives for that entity with its
    transform replaced, and the entity found under the id afterwards is that
    one. *)
Theorem transform_change_is_an_update (sc : Scene) (key : string)
        (t : TransformComponent) (e : Entity) :
  NoDup (map id (entities sc)) ->
  find_entity (entities sc) key = Some e ->
  handleEntityTransformChange (Some sc) key t = handleUpdateEntity (Some sc) (set_transform t e)
  /\ exists sc',
      handleEntityTransformChange (Some sc) key t = Some sc'
      /\ find_entity (entities sc') key = Some (set_transform t e)
      /\ map id (entities sc') = map id (entities sc).
Proof.
  intros Hnd Hfind.
  assert (Hid : id e = key).
  { unfold find_entity in Hfind. apply find_some in Hfind as [_ E].
    apply String.eqb_eq. exact E. }
  assert (Hin : In e (entities sc)).
  { unfold find_entity in Hfind. apply find_some in Hfind as [H _]. exact H. }
  assert (Hsame : forall e0, In e0 (entities sc) -> id e0 = key -> e0 = e).
  { intros e0 Hin0 Hid0.
    pose proof (find_entity_unique _ e0 Hnd Hin0) as H0.
    rewrite Hid0, Hfind in H0. congruence. }
  assert (Heq : handleEntityTransformChange (Some sc) key t
                = handleUpdateEntity (Some sc) (set_transform t e)).
  { unfold handleEntityTransformChange, handleUpdateEntity. cbn [option_map id set_transform].
    f_equal. f_equal. apply map_ext_in. intros e0 Hin0. rewrite Hid.
    destruct (String.eqb (id e0) key) eqn:E; [|reflexivity].
    apply String.eqb_eq in E. rewrite (Hsame e0 Hin0 E). reflexivity. }
  split; [exact Heq|].
  eexists. split; [reflexivity|]. cbn [entities].
  set (f := fun e0 : Entity => if String.eqb (id e0) key then set_transform t e0 else e0).
  assert (Hf : forall e0, id (f e0) = id e0).
  { intros e0. unfold f. destruct (String.eqb (id e0) key); reflexivity. }
  split.
  - rewrite (find_entity_map f key Hf), Hfind. cbn [option_map]. unfold f.
    rewrite Hid, String.eqb_refl. reflexivity.
  - rewrite map_map. apply map_ext. exact Hf.
Qed.

(** The second of the two boxes is given the transform of the first. *)
Lemma transform_change_is_an_update_witness :
  let t := transform example_entity in
  handleEntityTransformChange (Some two_box_scene) "e2" t
  = handleUpdateEntity (Some two_box_scene) (set_transform t second_entity)
  /\ exists sc',
      handleEntityTransformChange (Some two_box_scene) "e2" t = Some sc'
      /\ find_entity (entities sc') "e2" = Some (set_transform t second_entity)
      /\ map id (entities sc') = ["e1"; "e2"].
Proof.
  intros t.
  apply (transform_change_is_an_update two_box_scene "e2" t second_entity);
    [|reflexivity].
  constructor; [intros [H|[]]; discriminate|].
  constructor; [intros []|constructor].
Defined.

Lemma find_asset_removed (assets : list Asset) (key other : string) :
  find (fun a => String.eqb (as_id a) other) (handleRemoveAsset assets key)
  = if String.eqb other key then None
    else find (fun a => String.eqb (as_id a) other) assets.
Proof.
  unfold handleRemoveAsset.
  induction assets as [|a rest IH]; cbn [filter find].
  - destruct (String.eqb other key); reflexivity.
  - destruct (String.eqb (as_id a) key) eqn:Ek; cbn [negb find].
    + apply String.eqb_eq in Ek. rewrite IH.
      destruct (String.eqb other key) eqn:Eo; [reflexivity|].
      destruct (String.eqb (as_id a) other) eqn:Ea; [|reflexivity].
      apply String.eqb_eq in Ea. apply String.eqb_neq in Eo. congruence.
    + destruct (String.eqb (as_id a) other) eqn:Ea.
      * apply String.eqb_eq in Ea. subst other. rewrite Ek. reflexivity.
      * exact IH.
Qed.

(** X17.  A removed asset is gone for good: after [handleRemoveAsset] no
    asset has the id, the others are all still there in their order, and
    instantiating the removed id as a prefab leaves the scene as it is,
    while every other id instantiates as before.  Removing an asset just
    added undoes the addition when no other asset had its id. *)
Theorem removed_asset_is_gone (scene : option Scene) (assets : list Asset)
        (key uuid : string) :
  let left := handleRemoveAsset assets key in
  (forall a, In a left <-> In a assets /\ as_id a <> key)
  /\ handleInstantiatePrefab scene left key uuid = scene
  /\ (forall other, other <> key ->
      handleInstantiatePrefab scene left other uuid
      = handleInstantiatePrefab scene assets other uuid)
  /\ forall a, as_id a = key ->
       handleRemoveAsset (handleAddAsset assets a) key = left
       /\ (find (fun a' => String.eqb (as_id a') key) assets = None -> left = assets).
Proof.
  intros left. split; [|split; [|split]].
  - intros a. unfold left, handleRemoveAsset. rewrite filter_In, negb_true_iff.
    rewrite String.eqb_neq. reflexivity.
  - unfold handleInstantiatePrefab, left. rewrite find_asset_removed, String.eqb_refl.
    reflexivity.
  - intros other Hne. unfold handleInstantiatePrefab, left. rewrite find_asset_removed.
    apply String.eqb_neq in Hne. rewrite Hne. reflexivity.
  - intros a Ha. split.
    + unfold left, handleRemoveAsset, handleAddAsset. rewrite filter_app. cbn [filter].
      rewrite Ha, String.eqb_refl. cbn [negb]. apply app_nil_r.
    + intros Hnone. unfold left, handleRemoveAsset.
      induction assets as [|a0 rest IH]; cbn [filter]; [reflexivity|].
      cbn [find] in Hnone. destruct (String.eqb (as_id a0) key); [discriminate|].
      cbn [negb]. rewrite IH by exact Hnone. reflexivity.
Qed.

(** ** Particles: how long they live and how they are drawn *)

Lemma fading_ratio (p : Particle) :
  fading p -> 0 < life p / maxLife p /\ life p / maxLife p <= 1.
Proof.
  intros [H0 H1].
  assert (Hm : 0 < maxLife p) by lra.
  split.
  - apply Qlt_shift_div_l; [exact Hm | lra].
  - apply Qle_shift_div_r; [exact Hm | lra].
Qed.

Lemma draw_particle_restores (cam : Vector2) (e : Entity) (cfg : ParticleEmitterComponent)
      (p : Particle) (c : Ctx) :
  fst (draw_particle cam e cfg p c) = c.
Proof.
  unfold draw_particle. cbn [fst]. unfold set_globalAlpha.
  destruct (Js.le 0 (particle_alpha p) && Js.le (particle_alpha p) 1);
    destruct c as [st sv o]; reflexivity.
Qed.

Lemma draw_particle_dot (cam : Vector2) (e : Entity) (cfg : ParticleEmitterComponent)
      (p : Particle) (c : Ctx) :
  fading p ->
  dot_of (ds_transform (state c)) cam e cfg p (snd (draw_particle cam e cfg p c)).
Proof.
  intros Hp. destruct (fading_ratio p Hp) as [Ha0 Ha1].
  unfold draw_particle. cbn [snd]. unfold set_globalAlpha, particle_alpha.
  rewrite (proj2 (JsFacts.le_true 0 _) (Qlt_le_weak _ _ Ha0)).
  rewrite (proj2 (JsFacts.le_true _ 1) Ha1). cbn [andb].
  unfold dot_of.
  cbn [dot_matrix dot_style dot_alpha dot_radius state ds_transform fillStyle globalAlpha
         set_fillStyle ctx_translate ctx_save with_transform m_apply fst snd
         m_a m_b m_c m_d m_e m_f].
  split; [ring|]. split; [ring|]. split; [reflexivity|]. split; [reflexivity|].
  split; [exact Ha0|]. split; [exact Ha1|]. split; [reflexivity|].
  unfold particle_size. set (q := life p / maxLife p) in *.
  split; intros Hs; split; nra.
Qed.

(** X18.  The particles of an entity that is not drawn as UI, with an
    emitter whose start and end sizes are not negative (a dot's radius
    lies between the halves of the two, and the canvas refuses a negative
    radius), are drawn
    one dot each, in the order of the pool, each at the particle's place
    less the camera offset times the entity's parallax, and they leave the
    drawing context as they found it (transform, fill style, alpha and the
    stack of saved states); for particles with some life left and no more
    than they began with, the alpha is the part of the life that is left,
    above 0 and at most 1, and the size lies between the emitter's start
    and end sizes.  Drawn as UI, the entity shows no particles. *)
Theorem particles_are_drawn_in_world_space
        (cam : Vector2) (e : Entity) (cfg : ParticleEmitterComponent)
        (pools : PoolMap) (pool : list Particle) (c : Ctx) :
  particles e = Some cfg ->
  0 <= sizeStart cfg -> 0 <= sizeEnd cfg ->
  pool_get pools (id e) = Some pool ->
  Forall fading pool ->
  draw_particles cam e true pools c = (c, [])
  /\ fst (draw_particles cam e false pools c) = c
  /\ Forall2 (dot_of (ds_transform (state c)) cam e cfg) pool
             (snd (draw_particles cam e false pools c)).
Proof.
  intros Hcfg _ _ Hpool Hfading. split; [reflexivity|].
  unfold draw_particles. rewrite Hcfg, Hpool. clear Hpool.
  induction Hfading as [|p rest Hp Hrest IH]; cbn [draw_pool fst snd].
  - split; [reflexivity | constructor].
  - pose proof (draw_particle_restores cam e cfg p c) as Hc.
    pose proof (draw_particle_dot cam e cfg p c Hp) as Hd.
    destruct (draw_particle cam e cfg p c) as [c1 dot]. cbn [fst snd] in Hc, Hd. subst c1.
    destruct (draw_pool cam e cfg rest c) as [c2 dots]. cbn [fst snd] in *.
    destruct IH as [IH1 IH2]. split; [exact IH1|]. constructor; assumption.
Qed.

(** A particle at (410, 290) with half its life left, the camera at
    (400, 300), under the camera transform of the default canvas: the dot
    is drawn 10 right of and 10 above the centre, half transparent, with a
    radius of 3. *)
Lemma particles_are_drawn_in_world_space_witness :
  let e := new_entity particles_t 800 600 "p1" in
  let pools := [("p1", [mkParticle 410 290 0 (- (100)) 1 2])] in
  let c := begin_draw example_canvas two_box_scene fresh_ctx in
  fst (draw_particles (mkVector2 400 300) e false pools c) = c
  /\ exists d,
      snd (draw_particles (mkVector2 400 300) e false pools c) = [d]
      /\ fst (m_apply (dot_matrix d) 0 0) == 410
      /\ snd (m_apply (dot_matrix d) 0 0) == 290
      /\ dot_alpha d == 1 # 2
      /\ dot_radius d == 3.
Proof.
  intros e pools c.
  destruct (particles_are_drawn_in_world_space
              (mkVector2 400 300) e
              (mkEmitter true 100 10 2 (1 # 2) 100 20 (- (90)) 45 "#ffaa00" "#ff0000" 10 2)
              pools [mkParticle 410 290 0 (- (100)) 1 2] c)
    as (_ & Hc & Hdots); try reflexivity; try discriminate.
  - constructor; [|constructor]. split; [reflexivity | discriminate].
  - split; [exact Hc|].
    destruct (snd (draw_particles (mkVector2 400 300) e false pools c)) as [|d rest];
      [inversion Hdots|].
    inversion Hdots as [|p0 d0 l0 l1 Hd Hrest]; subst. inversion Hrest; subst.
    destruct Hd as (Hx & Hy & _ & Ha & _ & _ & Hr & _).
    exists d. split; [reflexivity|].
    split; [rewrite Hx; reflexivity|]. split; [rewrite Hy; reflexivity|].
    split; [rewrite Ha; reflexivity | rewrite Hr; reflexivity].
Defined.

Section FadeFacts.

Context {host : Host}.

(** [Math.random()] returns a number from 0 to 1. *)
Hypothesis random_range : forall n : nat, 0 <= Math_random n /\ Math_random n <= 1.

Lemma spawn_fading (e : Entity) (cfg : ParticleEmitterComponent) (r : nat) :
  long_lived cfg ->
  let p := spawn e cfg r in
  fading p
  /\ lifetime cfg - lifetimeRange cfg / 2 <= life p
  /\ life p <= lifetime cfg + lifetimeRange cfg / 2.
Proof.
  intros [Hr Hl]. unfold spawn, fading. cbn [life maxLife].
  destruct (random_range (r + 2)) as [H0 H1].
  set (u := Math_random (r + 2)) in *. set (g := lifetimeRange cfg) in *.
  assert (Hg : g / 2 == g * (1 # 2)) by (field; discriminate).
  rewrite Hg in *.
  repeat split; nra.
Qed.

Lemma age_pool_fading (dt : Q) (pool : list Particle) :
  0 <= dt -> Forall fading pool -> Forall fading (age_pool dt pool).
Proof.
  intros Hdt H. induction H as [|p rest [Hp0 Hp1] Hrest IH]; cbn [age_pool]; [constructor|].
  destruct (Js.le (life p - dt) 0) eqn:E; [exact IH|].
  apply JsFacts.le_false in E. constructor; [|exact IH].
  unfold fading. cbn [life maxLife]. split; lra.
Qed.

Lemma emit_loop_fading (e : Entity) (cfg : ParticleEmitterComponent) (k : nat) :
  long_lived cfg ->
  forall (pool : list Particle) (r : nat),
    Forall fading pool -> Forall fading (fst (emit_loop k e cfg pool r)).
Proof.
  intros Hcfg. induction k as [|k IH]; intros pool r Hpool; cbn [emit_loop]; [exact Hpool|].
  destruct (Js.lt (pool_length pool) (maxParticles cfg)); [|exact Hpool].
  apply IH. apply Forall_app. split; [exact Hpool|].
  constructor; [|constructor]. apply (spawn_fading e cfg r Hcfg).
Qed.

(** X19.  Every particle of a pool has some life left and no more than it
    began with, so it is drawn with an alpha above 0 and at most 1: this
    holds after any run of simulation steps from a pool in which it holds
    (the empty pool, at the start), as long as no frame time is negative,
    the random numbers lie between 0 and 1, and the emitter's lifetime is
    more than half its lifetime range, which is not negative. *)
Theorem particles_fade_until_they_die
        (steps : list (Entity * ParticleEmitterComponent * Q))
        (pool : list Particle) (r : nat) :
  Forall (fun s => 0 <= snd s /\ long_lived (snd (fst s))) steps ->
  Forall fading pool ->
  let pool' := fst (run_emitter steps pool r) in
  Forall fading pool'
  /\ Forall (fun p => 0 < particle_alpha p /\ particle_alpha p <= 1) pool'.
Proof.
  intros Hsteps Hpool pool'.
  assert (H : Forall fading pool').
  { unfold pool'. clear pool'. revert pool r Hpool.
    induction Hsteps as [|[[e cfg] dt] rest [Hdt Hcfg] Hrest IH]; intros pool r Hpool;
      cbn [run_emitter fst snd] in *; [exact Hpool|].
    destruct (update_particles e cfg dt pool r) as [pool1 r1] eqn:Hup.
    apply IH.
    assert (Hp1 : pool1 = fst (update_particles e cfg dt pool r)) by (rewrite Hup; reflexivity).
    rewrite Hp1. unfold update_particles.
    pose proof (age_pool_fading dt pool Hdt Hpool) as Haged.
    destruct (emitting cfg); [|exact Haged].
    apply emit_loop_fading; assumption. }
  split; [exact H|].
  apply Forall_impl with (2 := H). intros p Hp. apply fading_ratio. exact Hp.
Qed.

End FadeFacts.

(** The emitter [handleAddEntity] makes, three frames of a tenth of a
    second on the example host: one particle a frame. *)
Lemma particles_fade_until_they_die_witness :
  let e := new_entity particles_t 800 600 "p1" in
  let cfg := mkEmitter true 100 10 2 (1 # 2) 100 20 (- (90)) 45 "#ffaa00" "#ff0000" 10 2 in
  let pool' := fst (@run_emitter example_host
                      [(e, cfg, 1 # 10); (e, cfg, 1 # 10); (e, cfg, 1 # 10)] [] 0) in
  particles e = Some cfg
  /\ List.length pool' = 3%nat
  /\ Forall fading pool'
  /\ Forall (fun p => 0 < particle_alpha p /\ particle_alpha p <= 1) pool'.
Proof.
  intros e cfg pool'. split; [reflexivity|]. split; [reflexivity|].
  apply (@particles_fade_until_they_die example_host).
  - intros n. split; discriminate.
  - assert (Hcfg : long_lived cfg) by (split; [discriminate | reflexivity]).
    repeat constructor; try discriminate; exact Hcfg.
  - constructor.
Defined.

(** ** The camera *)

Section CameraFacts.

Context {host : Host}.

(** Scaling and rotating keep the translation part of the transform;
    translating moves it; the origin is drawn at the translation part. *)
Lemma scale_keeps_origin (sx sy : Q) (c : Ctx) :
  m_e (ds_transform (state (ctx_scale sx sy c))) = m_e (ds_transform (state c))
  /\ m_f (ds_transform (state (ctx_scale sx sy c))) = m_f (ds_transform (state c)).
Proof. split; reflexivity. Qed.

Lemma rotate_keeps_origin (a : Q) (c : Ctx) :
  m_e (ds_transform (state (ctx_rotate a c))) = m_e (ds_transform (state c))
  /\ m_f (ds_transform (state (ctx_rotate a c))) = m_f (ds_transform (state c)).
Proof. split; reflexivity. Qed.

Lemma translate_moves_origin (tx ty : Q) (c : Ctx) :
  let m := ds_transform (state c) in
  m_e (ds_transform (state (ctx_translate tx ty c))) = m_a m * tx + m_c m * ty + m_e m
  /\ m_f (ds_transform (state (ctx_translate tx ty c))) = m_b m * tx + m_d m * ty + m_f m.
Proof. split; reflexivity. Qed.

Lemma origin_of_matrix (m : Matrix) :
  fst (m_apply m 0 0) == m_e m /\ snd (m_apply m 0 0) == m_f m.
Proof. unfold m_apply. cbn [fst snd]. split; ring. Qed.

(** X20.  The entity the camera is on is drawn at the centre of the
    canvas, and every other entity relative to it: with the camera offset
    taken from an entity, by the exported page's camera follow or by the
    editor's focus on the selected entity, an entity that is not drawn as UI
    has its origin at the canvas centre plus the zoom times its position
    less the followed position times its parallax, whatever its rotation
    and scale; for the followed entity itself with parallax 1 that is the
    canvas centre. *)
Theorem followed_entity_is_centred
        (canvas : Canvas) (scene : Scene) (c : Ctx) (key : string) (e other : Entity)
        (cam cam0 : Vector2) :
  ds_transform (state c) = identity_matrix ->
  key <> "" ->
  find_entity (entities scene) key = Some e ->
  cam = focus_camera (Some key) false false (entities scene) cam0
  \/ ((exists cm, camera scene = Some cm /\ targetId cm = Some key)
      /\ cam = export_camera scene) ->
  let placed := place_entity canvas cam other false (begin_draw canvas scene c) in
  let o := m_apply (ds_transform (state placed)) 0 0 in
  fst o == cv_width canvas / 2
           + zoom_of scene * (x (position (transform other))
                              - x (position (transform e)) * parallax_of other)
  /\ snd o == cv_height canvas / 2
              + zoom_of scene * (y (position (transform other))
                                 - y (position (transform e)) * parallax_of other)
  /\ (other = e -> parallax_of e == 1 ->
      fst o == cv_width canvas / 2 /\ snd o == cv_height canvas / 2).
Proof.
  intros Hid Hkey Hfind Hcam placed o.
  assert (Hc : cam = mkVector2 (x (position (transform e))) (y (position (transform e)))).
  { destruct Hcam as [-> | [(cm & Hcm & Ht) ->]].
    - unfold focus_camera. rewrite (selected_id_some key Hkey). cbn [negb andb].
      rewrite Hfind. reflexivity.
    - unfold export_camera. rewrite Hcm, Ht, (selected_id_some key Hkey), Hfind.
      reflexivity. }
  assert (Ho : fst o == cv_width canvas / 2
                        + zoom_of scene * (x (position (transform other))
                                           - x cam * parallax_of other)
               /\ snd o == cv_height canvas / 2
                           + zoom_of scene * (y (position (transform other))
                                              - y cam * parallax_of other)).
  { pose proof (begin_draw_matrix canvas scene c Hid) as Hm.
    destruct (origin_of_matrix (ds_transform (state placed))) as [Hx Hy].
    unfold o. rewrite Hx, Hy. clear Hx Hy. unfold placed, place_entity.
    set (c0 := begin_draw canvas scene c) in *.
    set (tx := x (position (transform other)) - x cam * parallax_of other).
    set (ty := y (position (transform other)) - y cam * parallax_of other).
    set (c1 := ctx_translate tx ty (ctx_save c0)).
    set (c2 := ctx_rotate (rotation (transform other) * Math_PI / 180) c1).
    destruct (scale_keeps_origin (x (scale (transform other)))
                                 (y (scale (transform other))) c2) as [-> ->].
    unfold c2.
    destruct (rotate_keeps_origin (rotation (transform other) * Math_PI / 180) c1)
      as [-> ->].
    unfold c1.
    destruct (translate_moves_origin tx ty (ctx_save c0)) as [-> ->].
    change (state (ctx_save c0)) with (state c0). rewrite Hm.
    cbn [m_a m_b m_c m_d m_e m_f]. unfold tx, ty. split; ring. }
  destruct Ho as [Hx Hy]. rewrite Hc in Hx, Hy. cbn [x y] in Hx, Hy.
  split; [exact Hx|]. split; [exact Hy|].
  intros -> Hpar. rewrite Hx, Hy, Hpar. split; ring.
Qed.

End CameraFacts.

(** The exported page of the two boxes, the camera on the first at zoom 2:
    the first box is drawn at the centre, (400, 300), the second at
    (-400, -300). *)
Lemma followed_entity_is_centred_witness :
  let cam := export_camera follow_scene in
  let origin (other : Entity) :=
    m_apply (ds_transform
               (state (@place_entity example_host example_canvas cam other false
                         (begin_draw example_canvas follow_scene fresh_ctx)))) 0 0 in
  (fst (origin example_entity) == 400 /\ snd (origin example_entity) == 300)
  /\ fst (origin second_entity) == - (400) /\ snd (origin second_entity) == - (300).
Proof.
  intros cam origin. unfold origin, cam. clear origin cam.
  assert (Hcam : export_camera follow_scene
                 = focus_camera (Some "e1") false false (entities follow_scene)
                                (mkVector2 0 0)
                 \/ ((exists cm, camera follow_scene = Some cm /\ targetId cm = Some "e1")
                     /\ export_camera follow_scene = export_camera follow_scene)).
  { right. split; [|reflexivity]. eexists. split; reflexivity. }
  assert (Hne : "e1" <> "") by discriminate.
  assert (Hpar : parallax_of example_entity == 1) by reflexivity.
  destruct (@followed_entity_is_centred example_host example_canvas follow_scene fresh_ctx
              "e1" example_entity example_entity (export_camera follow_scene)
              (mkVector2 0 0) eq_refl Hne eq_refl Hcam) as (_ & _ & Hcentre).
  destruct (Hcentre eq_refl Hpar) as [Hcx Hcy]. clear Hcentre.
  destruct (@followed_entity_is_centred example_host example_canvas follow_scene fresh_ctx
              "e1" example_entity second_entity (export_camera follow_scene)
              (mkVector2 0 0) eq_refl Hne eq_refl Hcam) as (Hx & Hy & _).
  split; [split|split].
  - rewrite Hcx. reflexivity.
  - rewrite Hcy. reflexivity.
  - rewrite Hx. reflexivity.
  - rewrite Hy. reflexivity.
Defined.

(** ** Property animations with any keyframes *)

Lemma rem_bounds (a b : Q) : 0 <= a -> 0 < b -> 0 <= Js.rem a b /\ Js.rem a b < b.
Proof.
  intros Ha Hb. unfold Js.rem, Js.trunc.
  assert (Hq : 0 <= a / b) by (apply Qle_shift_div_l; [exact Hb | lra]).
  rewrite (proj2 (JsFacts.lt_false (a / b) 0) Hq).
  assert (Hab : a == a / b * b).
  { field. intros E. rewrite E in Hb. apply (Qlt_irrefl 0 Hb). }
  pose proof (Qfloor_le (a / b)) as Hlo. pose proof (Qlt_floor (a / b)) as Hhi.
  rewrite inject_Z_plus in Hhi. change (inject_Z 1) with 1 in Hhi.
  set (q := a / b) in *. set (z := inject_Z (Qfloor q)) in *.
  assert (H1 : z * b <= q * b) by (apply Qmult_le_compat_r; lra).
  assert (H2 : q * b < (z + 1) * b) by (apply Qmult_lt_compat_r; lra).
  split; lra.
Qed.

Section CursorFacts.

Context {host : Host}.

Hypothesis fl_nonneg : forall q : Q, 0 <= q -> 0 <= fl q.

Lemma advance_cursor_range (dt : Q) (a : PropertyAnimation) :
  let maxTime := time (last (keyframes a) no_keyframe) in
  0 < maxTime -> 0 <= dt -> 0 <= currentTime a -> currentTime a <= maxTime ->
  let a' := advance_cursor dt a in
  keyframes a' = keyframes a /\ loop a' = loop a /\ property a' = property a
  /\ 0 <= currentTime a' /\ currentTime a' <= maxTime
  /\ (loop a = true -> playing a' = playing a).
Proof.
  intros maxTime Hmax Hdt H0 H1 a'. unfold a', advance_cursor. fold maxTime.
  assert (Hs : 0 <= fl (currentTime a + dt)) by (apply fl_nonneg; lra).
  destruct (Js.gt (fl (currentTime a + dt)) maxTime) eqn:E.
  - apply JsFacts.gt_true in E. destruct (loop a) eqn:El;
      cbn [set_cursor keyframes loop property currentTime playing].
    + destruct (rem_bounds (fl (currentTime a + dt)) maxTime) as [Hr0 Hr1];
        [exact Hs | exact Hmax |].
      refine (conj eq_refl (conj _ (conj eq_refl (conj Hr0 (conj _ (fun _ => eq_refl))))));
        [exact El | lra].
    + refine (conj eq_refl (conj _ (conj eq_refl (conj _ (conj _ _)))));
        [exact El | lra | lra | discriminate].
  - apply JsFacts.gt_false in E.
    cbn [set_cursor keyframes loop property currentTime playing].
    refine (conj eq_refl (conj eq_refl (conj eq_refl (conj Hs (conj E (fun _ => eq_refl)))))).
Qed.

(** X21.  The cursor of an animation stays between 0 and the time of its
    last keyframe, for any keyframes and any rounding that keeps a number
    that is not negative so: for an animation of two keyframes or more
    whose last keyframe is at a positive time and whose property path names
    one of the numeric fields of the entity's components (those of
    [numeric_fields]), on an entity with no script and no other animation
    playing, after any calls of [update] with frame times that are not
    negative, whether they all complete or the last one is cut short by
    an exception in some entity, the animation is in the entity of the
    scene with the keyframes it had and its cursor in that range; a
    looping animation is never stopped, and a stopped animation stays as
    it is. *)
Theorem cursor_stays_in_range (fuel : nat) (scene : Scene) (i j : nat)
        (steps : list (Q * InputSnapshot)) :
  forall (rt rt' : Runtime Engine) (c : Completion) (e : Entity)
         (a : PropertyAnimation),
    run_updates fuel scene steps rt = Some (rt', c) ->
    nth_error (r_entities rt) i = Some e ->
    plays_alone e j a ->
    (1 < List.length (keyframes a))%nat ->
    0 < time (last (keyframes a) no_keyframe) ->
    0 <= currentTime a ->
    currentTime a <= time (last (keyframes a) no_keyframe) ->
    Forall (fun s => 0 <= fst s) steps ->
    exists e' a',
      nth_error (r_entities rt') i = Some e'
      /\ animation_at e' j = Some a'
      /\ keyframes a' = keyframes a
      /\ 0 <= currentTime a'
      /\ currentTime a' <= time (last (keyframes a) no_keyframe)
      /\ (loop a = true -> playing a' = playing a)
      /\ (playing a = false -> a' = a).
Proof.
  induction steps as [|[dt input] rest IH];
    intros rt rt' c e a Hrun Hi Halone Hlen Hmax H0 H1 Hdts.
  - cbn [run_updates] in Hrun. injection Hrun as <- <-.
    exists e, a.
    exact (conj Hi (conj (proj1 Halone) (conj eq_refl (conj H0 (conj H1
             (conj (fun _ => eq_refl) (fun _ => eq_refl))))))).
  - inversion Hdts as [|? ? Hdt Hrest]; subst. cbn [fst] in Hdt.
    cbn [run_updates] in Hrun.
    destruct (update fuel scene true input dt rt) as [[rt1 c1]|] eqn:Hstep;
      [|discriminate].
    assert (Hnext : run_updates fuel scene rest rt1 = Some (rt', c) \/ rt1 = rt').
    { destruct c1; [left; exact Hrun | right; congruence | right; congruence]. }
    destruct (update_alone fuel scene input dt rt rt1 c1 i j e a Hstep Hi Halone Hlen)
      as (e1 & Hi1 & [(Halone1 & _) | (Hplay & Halone1 & _)]).
    + destruct Hnext as [Hnext | <-].
      * apply (IH rt1 rt' c e1 a Hnext Hi1 Halone1 Hlen Hmax H0 H1 Hrest).
      * exists e1, a.
        exact (conj Hi1 (conj (proj1 Halone1) (conj eq_refl (conj H0 (conj H1
                 (conj (fun _ => eq_refl) (fun _ => eq_refl))))))).
    + destruct (advance_cursor_range dt a Hmax Hdt H0 H1)
        as (Hk & Hl & Hp & Hc0 & Hc1 & Hloop).
      set (a1 := advance_cursor dt a) in *.
      destruct Hnext as [Hnext | <-].
      * destruct (IH rt1 rt' c e1 a1 Hnext Hi1 Halone1)
          as (e' & a' & Hi' & Hat' & Hk' & Hc0' & Hc1' & Hloop' & _);
          try (rewrite ?Hk; assumption).
        exists e', a'. rewrite Hk in *. rewrite Hl in Hloop'.
        refine (conj Hi' (conj Hat' (conj Hk' (conj Hc0' (conj Hc1' (conj _ _)))))).
        -- intros Hl'. rewrite (Hloop' Hl'). apply Hloop. exact Hl'.
        -- intros Hstop. congruence.
      * exists e1, a1.
        refine (conj Hi1 (conj (proj1 Halone1) (conj Hk (conj Hc0 (conj Hc1
                  (conj Hloop _)))))).
        intros Hstop. congruence.
Qed.

End CursorFacts.

Lemma bend_entity_alone (looping : bool) :
  plays_alone (bend_entity looping) 0
              (mkAnim "bend" "transform.position.x" bend looping true 0).
Proof.
  refine (conj eq_refl (conj _ (conj eq_refl _))).
  - vm_compute. reflexivity.
  - intros k b Hk Hb.
    destruct k as [|[|k]]; [contradiction | discriminate | discriminate].
Qed.

(** A looping animation over three keyframes, the last at 3 seconds,
    through calls of 1, 1 and 2 seconds, on binary64 numbers. *)
Lemma cursor_stays_in_range_witness :
  let scene := mkScene [bend_entity true] "#1a1a1a" None None in
  let rt : Runtime (@Engine double_host) :=
    mkRuntime [bend_entity true] 0 None empty_env in
  let steps := [(1, no_input); (1, no_input); (2, no_input)] in
  exists rt' c e' a',
    @run_updates double_host 200 scene steps rt = Some (rt', c)
    /\ nth_error (r_entities rt') 0 = Some e'
    /\ animation_at e' 0 = Some a'
    /\ 0 <= currentTime a' /\ currentTime a' <= 3
    /\ playing a' = true.
Proof.
  intros scene rt steps.
  eassert (Hrun : @run_updates double_host 200 scene steps rt = Some (_, _))
    by (vm_compute; reflexivity).
  destruct (@cursor_stays_in_range double_host round64_nonneg 200 scene 0 0 steps
              rt _ _ (bend_entity true)
              (mkAnim "bend" "transform.position.x" bend true true 0) Hrun)
    as (e' & a' & Hi & Hat & _ & H0 & H1 & Hloop & _).
  - reflexivity.
  - apply bend_entity_alone.
  - cbn. lia.
  - reflexivity.
  - discriminate.
  - discriminate.
  - repeat (apply Forall_cons; [vm_compute; discriminate|]). apply Forall_nil.
  - eexists. eexists. exists e', a'.
    refine (conj Hrun (conj Hi (conj Hat (conj H0 (conj H1 _))))).
    apply Hloop. reflexivity.
Defined.

Lemma find_bracket_ascending (t : Q) :
  forall kfs : list Keyframe,
    ascending kfs ->
    (1 < List.length kfs)%nat ->
    time (hd no_keyframe kfs) <= t ->
    t <= time (last kfs no_keyframe) ->
    exists k1 k2,
      find_bracket kfs t = Some (k1, k2)
      /\ In k1 kfs /\ In k2 kfs
      /\ time k1 <= t /\ t <= time k2 /\ time k1 < time k2.
Proof.
  induction kfs as [|k1 rest IH]; intros Hasc Hlen Hlo Hhi; [cbn in Hlen; lia|].
  destruct rest as [|k2 rest']; [cbn in Hlen; lia|].
  cbn [ascending] in Hasc. destruct Hasc as [H12 Hasc].
  cbn [hd] in Hlo. cbn [find_bracket].
  destruct (Js.ge t (time k1) && Js.le t (time k2)) eqn:E.
  - apply andb_prop in E as [E1 E2].
    apply JsFacts.ge_true in E1. apply JsFacts.le_true in E2.
    exists k1, k2. repeat split; try assumption; [left | right; left]; reflexivity.
  - assert (E2 : time k2 < t).
    { rewrite (proj2 (JsFacts.ge_true t (time k1)) Hlo) in E. cbn [andb] in E.
      apply JsFacts.le_false in E. exact E. }
    destruct rest' as [|k3 rest''].
    + exfalso. cbn [last] in Hhi. lra.
    + destruct (IH Hasc) as (ka & kb & Hf & Hina & Hinb & Ha & Hb & Hab).
      * cbn [List.length]. lia.
      * cbn [hd]. lra.
      * exact Hhi.
      * exists ka, kb. repeat split; try assumption; right; assumption.
Qed.

(** X22.  Between its keyframes an animation neither overshoots nor
    jumps: for keyframes at strictly increasing times, two at least, and a
    cursor from the first keyframe's time to the last's, the interpolated
    value is taken between two keyframes of the list that bracket the
    cursor, it lies between their two values, and it is the keyframe's own
    value when the cursor is at one of the two. *)
Theorem sample_stays_between_keyframes (a : PropertyAnimation) :
  ascending (keyframes a) ->
  (1 < List.length (keyframes a))%nat ->
  time (hd no_keyframe (keyframes a)) <= currentTime a ->
  currentTime a <= time (last (keyframes a) no_keyframe) ->
  exists k1 k2,
    bracket a = (k1, k2)
    /\ In k1 (keyframes a) /\ In k2 (keyframes a)
    /\ time k1 <= currentTime a /\ currentTime a <= time k2
    /\ (value k1 <= value k2 -> value k1 <= sample a /\ sample a <= value k2)
    /\ (value k2 <= value k1 -> value k2 <= sample a /\ sample a <= value k1)
    /\ (currentTime a == time k1 -> sample a == value k1)
    /\ (currentTime a == time k2 -> sample a == value k2).
Proof.
  intros Hasc Hlen Hlo Hhi.
  destruct (find_bracket_ascending (currentTime a) (keyframes a) Hasc Hlen Hlo Hhi)
    as (k1 & k2 & Hf & Hin1 & Hin2 & H1 & H2 & H12).
  exists k1, k2.
  assert (Hb : bracket a = (k1, k2)) by (unfold bracket; rewrite Hf; reflexivity).
  split; [exact Hb|]. split; [exact Hin1|]. split; [exact Hin2|].
  split; [exact H1|]. split; [exact H2|].
  unfold sample. rewrite Hb.
  assert (Hd : 0 < time k2 - time k1) by lra.
  assert (Hne : ~ time k2 - time k1 == 0) by (intros E; rewrite E in Hd; lra).
  set (u := (currentTime a - time k1) / (time k2 - time k1)).
  assert (Hu : currentTime a - time k1 == u * (time k2 - time k1))
    by (unfold u; field; exact Hne).
  assert (Hu0 : 0 <= u) by (apply Qle_shift_div_l; [exact Hd | lra]).
  assert (Hu1 : u <= 1) by (apply Qle_shift_div_r; [exact Hd | lra]).
  split; [intros Hv; split; nra|]. split; [intros Hv; split; nra|]. split.
  - intros E. assert (Hz : u == 0).
    { unfold u. rewrite E. field. exact Hne. }
    rewrite Hz. ring.
  - intros E. assert (Hz : u == 1).
    { unfold u. rewrite E. field. exact Hne. }
    rewrite Hz. ring.
Qed.

(** The three keyframes with the cursor at 2 seconds: half way from 10 down
    to 4. *)
Lemma sample_stays_between_keyframes_witness :
  let a := mkAnim "bend" "transform.position.x" bend false true 2 in
  sample a == 7
  /\ exists k1 k2,
      bracket a = (k1, k2)
      /\ (value k2 <= value k1 -> value k2 <= sample a /\ sample a <= value k1).
Proof.
  intros a. split; [reflexivity|].
  destruct (sample_stays_between_keyframes a)
    as (k1 & k2 & Hb & _ & _ & _ & _ & _ & Hdown & _).
  - cbn. repeat split; reflexivity.
  - cbn. lia.
  - discriminate.
  - discriminate.
  - exists k1, k2. split; [exact Hb | exact Hdown].
Defined.

(** ** What a frame leaves alone *)

Lemma pool_get_set_same (m : PoolMap) (k : string) (v : list Particle) :
  pool_get (pool_set m k v) k = Some v.
Proof.
  induction m as [|[k' v'] rest IH]; cbn [pool_set pool_get].
  - rewrite String.eqb_refl. reflexivity.
  - destruct (String.eqb k k') eqn:E; cbn [pool_get].
    + rewrite String.eqb_refl. reflexivity.
    + rewrite E. exact IH.
Qed.

Lemma pool_get_set_other (m : PoolMap) (k k' : string) (v : list Particle) :
  String.eqb k' k = false -> pool_get (pool_set m k v) k' = pool_get m k'.
Proof.
  intros Hne. induction m as [|[k0 v0] rest IH]; cbn [pool_set pool_get].
  - rewrite Hne. reflexivity.
  - destruct (String.eqb k k0) eqn:E; cbn [pool_get].
    + apply String.eqb_eq in E. subst k0. rewrite Hne. reflexivity.
    + destruct (String.eqb k' k0); [reflexivity | exact IH].
Qed.

Section PoolFacts.

Context {host : Host}.

Lemma sync_physics_id (en : option Engine) (e : Entity) : id (sync_physics en e) = id e.
Proof.
  unfold sync_physics. destruct (physics e); [|reflexivity].
  destruct en as [en|]; [|reflexivity].
  destruct (body_of en (id e)); reflexivity.
Qed.

Lemma update_entity_pools (strict : bool) (en : option Engine) (input : InputSnapshot)
      (dt : Q) (e : Entity) (env0 : Env) :
  pools (snd (fst (update_entity strict en input dt e env0)))
  = pools (step_particles dt (sync_physics en e) env0).
Proof.
  unfold update_entity.
  destruct (update_animations strict dt (sync_physics en e)) as [e2 c].
  destruct c; try reflexivity.
  destruct (run_custom_script strict input dt e2
              (console (step_particles dt (sync_physics en e) env0))) as [[e3 con] c].
  reflexivity.
Qed.

Lemma step_particles_other (dt : Q) (e : Entity) (env0 : Env) (key : string) :
  String.eqb key (id e) = false ->
  pool_get (pools (step_particles dt e env0)) key = pool_get (pools env0) key.
Proof.
  intros Hne. unfold step_particles. destruct (particles e) as [cfg|]; [|reflexivity].
  destruct (update_particles e cfg dt
              match pool_get (pools env0) (id e) with
              | Some p => p
              | None => []
              end (rng env0)) as [pool' r'].
  cbn [pools]. apply pool_get_set_other. exact Hne.
Qed.

(** X24.  A frame touches only the particle pools of the entities it
    updates: after the update of a list of entities, in the editor or in
    the exported page and however the frame completes, the pool kept under
    an id that none of the entities has is the pool that was there before.
    An entity with an emitter gets, under its own id, its old pool (or the
    empty one) after one step of its emitter. *)
Theorem frame_keeps_other_pools (strict : bool) (en : option Engine)
        (input : InputSnapshot) (dt : Q) (es : list Entity) (env0 : Env) (key : string) :
  forallb (fun e => negb (String.eqb key (id e))) es = true ->
  pool_get (pools (snd (fst (update_entities strict en input dt es env0)))) key
  = pool_get (pools env0) key
  /\ forall (e : Entity) (cfg : ParticleEmitterComponent),
       particles (sync_physics en e) = Some cfg ->
       pool_get (pools (snd (fst (update_entity strict en input dt e env0)))) (id e)
       = Some (fst (update_particles (sync_physics en e) cfg dt
                      match pool_get (pools env0) (id e) with
                      | Some p => p
                      | None => []
                      end (rng env0))).
Proof.
  intros Hids. split.
  - revert env0. induction es as [|e rest IH]; intros env0; [reflexivity|].
    cbn [forallb] in Hids. apply andb_prop in Hids as [He Hrest].
    apply negb_true_iff in He.
    cbn [update_entities].
    pose proof (update_entity_pools strict en input dt e env0) as Hp.
    destruct (update_entity strict en input dt e env0) as [[e' env1] c].
    cbn [fst snd] in Hp.
    assert (H1 : pool_get (pools env1) key = pool_get (pools env0) key).
    { rewrite Hp. apply step_particles_other. rewrite sync_physics_id. exact He. }
    destruct c; cbn [fst snd]; try exact H1.
    specialize (IH Hrest env1).
    destruct (update_entities strict en input dt rest env1) as [[rest' env2] c2].
    cbn [fst snd] in *. rewrite IH. exact H1.
  - intros e cfg Hcfg. rewrite update_entity_pools. unfold step_particles.
    rewrite Hcfg, sync_physics_id.
    destruct (update_particles (sync_physics en e) cfg dt
                match pool_get (pools env0) (id e) with
                | Some p => p
                | None => []
                end (rng env0)) as [pool' r'].
    cbn [pools fst]. apply pool_get_set_same.
Qed.

End PoolFacts.

(** A frame over the two boxes, which have no emitters, with a pool kept
    for an entity that is not in the scene. *)
Lemma frame_keeps_other_pools_witness :
  let env0 := mkEnv [("p1", [mkParticle 1 2 0 0 1 2])] 0 [] in
  pool_get (pools (snd (fst (@update_entities example_host true None no_input (1 # 60)
                               two_boxes env0)))) "p1"
  = Some [mkParticle 1 2 0 0 1 2].
Proof.
  intros env0.
  destruct (@frame_keeps_other_pools example_host true None no_input (1 # 60) two_boxes
              env0 "p1") as [H _]; [reflexivity|].
  rewrite H. reflexivity.
Defined.

(** ** What drawing leaves alone *)

Section DrawFacts.

Context {host : Host}.

Lemma emit_keeps (op : DrawOp) (c : Ctx) :
  state (emit op c) = state c /\ saved (emit op c) = saved c.
Proof. split; reflexivity. Qed.









End DrawFacts.


(** X26.  The zoom set through the inspector is never below one tenth:
    whatever number the "Zoom" field is given, the zoom that [draw] and the
    pointer then use is the larger of that number and 0.1 (so the default
    of 1 for a missing or zero zoom does not come into play), and the
    camera's position, follow target and lerp speed are kept, or are
    (0, 0), none and 0.1 for a scene that had no camera. *)
Theorem zoom_field_in_range (scene : Scene) (v : Q) :
  let scene' := set_camera_zoom scene v in
  zoom_of scene' = JsMath.Math_max (1 # 10) v
  /\ 1 # 10 <= zoom_of scene'
  /\ entities scene' = entities scene
  /\ match camera scene, camera scene' with
     | Some cm, Some cm' =>
         c_position cm' = c_position cm /\ targetId cm' = targetId cm
         /\ lerpSpeed cm' = lerpSpeed cm
     | None, Some cm' =>
         c_position cm' = mkVector2 0 0 /\ targetId cm' = None /\ lerpSpeed cm' = 1 # 10
     | _, None => False
     end.
Proof.
  intros scene'.
  assert (Hz : zoom_of scene' = JsMath.Math_max (1 # 10) v).
  { unfold scene', set_camera_zoom, zoom_of. cbn [camera zoom].
    unfold Js.or_default. rewrite truthy_nonzero; [reflexivity|].
    intros E. pose proof (Math_max_ge_l (1 # 10) v) as H. rewrite E in H. lra. }
  split; [exact Hz|]. split; [rewrite Hz; apply Math_max_ge_l|].
  split; [reflexivity|].
  unfold scene', set_camera_zoom. cbn [camera].
  destruct (camera scene) as [cm|]; repeat split; reflexivity.
Qed.
